(** * password-manager-crypt: the CryptoService contract, its two backends
      and the selection factory

    A shallow embedding of [src/errors/crypto-error.ts],
    [src/services/node-crypto.ts], [src/services/web-crypto.ts] and
    [src/services/crypto-factory.ts].

    - JavaScript strings are represented by their UTF-8 bytes ([string]);
      what goes by code point ([toLowerCase]) decodes them.
    - A [Uint8Array] is a view (buffer identity, offset, length) on a store of
      array buffers, so that copies and views are told apart.
    - A call either completes normally or abruptly (a thrown value, or a
      rejected promise); the store, the random source and the log of calls
      into the host's cryptographic library are threaded through every call.
    - The block cipher, the hash iteration and the random source belong to
      the host: AES-GCM and PBKDF2 are parameters of the development. *)

From Stdlib Require Import String Ascii Strings.Byte.
From Stdlib Require Import ZArith Arith Bool Lia List.
Import ListNotations.

Local Open Scope string_scope.
Local Open Scope list_scope.

(** ** Strings *)

Module JsString.

(** *** UTF-8

    A string is its UTF-8 bytes; the operations of JavaScript that go by
    code point decode them.  A byte that belongs to no well-formed sequence
    stands for itself, as the value [0x110000 + byte]. *)

Definition byte_of (c : ascii) : Z := Z.of_N (N_of_ascii c).

Definition ascii_of (n : Z) : ascii := ascii_of_N (Z.to_N n).

Definition between (lo hi n : Z) : bool := ((lo <=? n) && (n <=? hi))%Z.

Definition continuation (c : ascii) : bool := between 0x80 0xBF (byte_of c).

Definition low6 (c : ascii) : Z := Z.land (byte_of c) 0x3F.

(** The code point at the head of [String a rest], and how many bytes of
    [rest] belong to it. *)
Definition decode (a : ascii) (rest : string) : Z * nat :=
  let n := byte_of a in
  let stray := ((0x110000 + n)%Z, 0%nat) in
  if (n <? 0x80)%Z then (n, 0%nat)
  else
    match rest with
    | String b rest1 =>
        if negb (continuation b) then stray
        else if between 0xC2 0xDF n
        then ((Z.shiftl (Z.land n 0x1F) 6 + low6 b)%Z, 1%nat)
        else
          match rest1 with
          | String c rest2 =>
              let three :=
                (Z.shiftl (Z.land n 0x0F) 12 + Z.shiftl (low6 b) 6 + low6 c)%Z in
              if negb (continuation c) then stray
              else if between 0xE0 0xEF n
              then if (three <? 0x800)%Z then stray else (three, 2%nat)
              else
                match rest2 with
                | String d _ =>
                    let four :=
                      (Z.shiftl (Z.land n 0x07) 18 + Z.shiftl (low6 b) 12
                       + Z.shiftl (low6 c) 6 + low6 d)%Z in
                    if continuation d && between 0xF0 0xF4 n
                       && between 0x10000 0x10FFFF four
                    then (four, 3%nat)
                    else stray
                | EmptyString => stray
                end
          | EmptyString => stray
          end
    | EmptyString => stray
    end.

Fixpoint codePoints (s : string) : list Z :=
  match s with
  | EmptyString => []
  | String a rest =>
      let '(c, more) := decode a rest in
      c :: match more, rest with
           | 1%nat, String _ rest1 => codePoints rest1
           | 2%nat, String _ (String _ rest2) => codePoints rest2
           | 3%nat, String _ (String _ (String _ rest3)) => codePoints rest3
           | _, _ => codePoints rest
           end
  end.

Definition tail6 (c : Z) (shift : Z) : ascii :=
  ascii_of (0x80 + Z.land (Z.shiftr c shift) 0x3F).

Definition encodeCodePoint (c : Z) : string :=
  if (c <? 0x80)%Z then String (ascii_of c) EmptyString
  else if (c <? 0x800)%Z
  then String (ascii_of (0xC0 + Z.shiftr c 6)) (String (tail6 c 0) EmptyString)
  else if (c <? 0x10000)%Z
  then String (ascii_of (0xE0 + Z.shiftr c 12))
         (String (tail6 c 6) (String (tail6 c 0) EmptyString))
  else if (c <? 0x110000)%Z
  then String (ascii_of (0xF0 + Z.shiftr c 18))
         (String (tail6 c 12) (String (tail6 c 6) (String (tail6 c 0) EmptyString)))
  else String (ascii_of (c - 0x110000)) EmptyString.

Fixpoint fromCodePoints (l : list Z) : string :=
  match l with
  | [] => EmptyString
  | c :: rest => (encodeCodePoint c ++ fromCodePoints rest)%string
  end.

(** *** The Unicode Character Database (version 14.0), as far as
    [toLowerCase] reads it *)

(** [Simple_Lowercase_Mapping] of [UnicodeData.txt]: every [step]-th code
    point from [first] to [last] moves by [delta]. *)
Definition Simple_Lowercase_Mapping : list (Z * Z * Z * Z) :=
  [
   (0x41, 0x5A, 1, 32); (0xC0, 0xD6, 1, 32); (0xD8, 0xDE, 1, 32);
   (0x100, 0x12E, 2, 1); (0x132, 0x136, 2, 1); (0x139, 0x147, 2, 1);
   (0x14A, 0x176, 2, 1); (0x178, 0x178, 1, -121); (0x179, 0x17D, 2, 1);
   (0x181, 0x181, 1, 210); (0x182, 0x184, 2, 1); (0x186, 0x186, 1, 206);
   (0x187, 0x187, 1, 1); (0x189, 0x18A, 1, 205); (0x18B, 0x18B, 1, 1);
   (0x18E, 0x18E, 1, 79); (0x18F, 0x18F, 1, 202); (0x190, 0x190, 1, 203);
   (0x191, 0x191, 1, 1); (0x193, 0x193, 1, 205); (0x194, 0x194, 1, 207);
   (0x196, 0x196, 1, 211); (0x197, 0x197, 1, 209); (0x198, 0x198, 1, 1);
   (0x19C, 0x19C, 1, 211); (0x19D, 0x19D, 1, 213); (0x19F, 0x19F, 1, 214);
   (0x1A0, 0x1A4, 2, 1); (0x1A6, 0x1A6, 1, 218); (0x1A7, 0x1A7, 1, 1);
   (0x1A9, 0x1A9, 1, 218); (0x1AC, 0x1AC, 1, 1); (0x1AE, 0x1AE, 1, 218);
   (0x1AF, 0x1AF, 1, 1); (0x1B1, 0x1B2, 1, 217); (0x1B3, 0x1B5, 2, 1);
   (0x1B7, 0x1B7, 1, 219); (0x1B8, 0x1B8, 1, 1); (0x1BC, 0x1BC, 1, 1);
   (0x1C4, 0x1C4, 1, 2); (0x1C5, 0x1C5, 1, 1); (0x1C7, 0x1C7, 1, 2);
   (0x1C8, 0x1C8, 1, 1); (0x1CA, 0x1CA, 1, 2); (0x1CB, 0x1DB, 2, 1);
   (0x1DE, 0x1EE, 2, 1); (0x1F1, 0x1F1, 1, 2); (0x1F2, 0x1F4, 2, 1);
   (0x1F6, 0x1F6, 1, -97); (0x1F7, 0x1F7, 1, -56); (0x1F8, 0x21E, 2, 1);
   (0x220, 0x220, 1, -130); (0x222, 0x232, 2, 1); (0x23A, 0x23A, 1, 10795);
   (0x23B, 0x23B, 1, 1); (0x23D, 0x23D, 1, -163); (0x23E, 0x23E, 1, 10792);
   (0x241, 0x241, 1, 1); (0x243, 0x243, 1, -195); (0x244, 0x244, 1, 69);
   (0x245, 0x245, 1, 71); (0x246, 0x24E, 2, 1); (0x370, 0x372, 2, 1);
   (0x376, 0x376, 1, 1); (0x37F, 0x37F, 1, 116); (0x386, 0x386, 1, 38);
   (0x388, 0x38A, 1, 37); (0x38C, 0x38C, 1, 64); (0x38E, 0x38F, 1, 63);
   (0x391, 0x3A1, 1, 32); (0x3A3, 0x3AB, 1, 32); (0x3CF, 0x3CF, 1, 8);
   (0x3D8, 0x3EE, 2, 1); (0x3F4, 0x3F4, 1, -60); (0x3F7, 0x3F7, 1, 1);
   (0x3F9, 0x3F9, 1, -7); (0x3FA, 0x3FA, 1, 1); (0x3FD, 0x3FF, 1, -130);
   (0x400, 0x40F, 1, 80); (0x410, 0x42F, 1, 32); (0x460, 0x480, 2, 1);
   (0x48A, 0x4BE, 2, 1); (0x4C0, 0x4C0, 1, 15); (0x4C1, 0x4CD, 2, 1);
   (0x4D0, 0x52E, 2, 1); (0x531, 0x556, 1, 48); (0x10A0, 0x10C5, 1, 7264);
   (0x10C7, 0x10C7, 1, 7264); (0x10CD, 0x10CD, 1, 7264);
   (0x13A0, 0x13EF, 1, 38864); (0x13F0, 0x13F5, 1, 8);
   (0x1C90, 0x1CBA, 1, -3008); (0x1CBD, 0x1CBF, 1, -3008);
   (0x1E00, 0x1E94, 2, 1); (0x1E9E, 0x1E9E, 1, -7615); (0x1EA0, 0x1EFE, 2, 1);
   (0x1F08, 0x1F0F, 1, -8); (0x1F18, 0x1F1D, 1, -8); (0x1F28, 0x1F2F, 1, -8);
   (0x1F38, 0x1F3F, 1, -8); (0x1F48, 0x1F4D, 1, -8); (0x1F59, 0x1F5F, 2, -8);
   (0x1F68, 0x1F6F, 1, -8); (0x1F88, 0x1F8F, 1, -8); (0x1F98, 0x1F9F, 1, -8);
   (0x1FA8, 0x1FAF, 1, -8); (0x1FB8, 0x1FB9, 1, -8); (0x1FBA, 0x1FBB, 1, -74);
   (0x1FBC, 0x1FBC, 1, -9); (0x1FC8, 0x1FCB, 1, -86); (0x1FCC, 0x1FCC, 1, -9);
   (0x1FD8, 0x1FD9, 1, -8); (0x1FDA, 0x1FDB, 1, -100);
   (0x1FE8, 0x1FE9, 1, -8); (0x1FEA, 0x1FEB, 1, -112);
   (0x1FEC, 0x1FEC, 1, -7); (0x1FF8, 0x1FF9, 1, -128);
   (0x1FFA, 0x1FFB, 1, -126); (0x1FFC, 0x1FFC, 1, -9);
   (0x2126, 0x2126, 1, -7517); (0x212A, 0x212A, 1, -8383);
   (0x212B, 0x212B, 1, -8262); (0x2132, 0x2132, 1, 28);
   (0x2160, 0x216F, 1, 16); (0x2183, 0x2183, 1, 1); (0x24B6, 0x24CF, 1, 26);
   (0x2C00, 0x2C2F, 1, 48); (0x2C60, 0x2C60, 1, 1);
   (0x2C62, 0x2C62, 1, -10743); (0x2C63, 0x2C63, 1, -3814);
   (0x2C64, 0x2C64, 1, -10727); (0x2C67, 0x2C6B, 2, 1);
   (0x2C6D, 0x2C6D, 1, -10780); (0x2C6E, 0x2C6E, 1, -10749);
   (0x2C6F, 0x2C6F, 1, -10783); (0x2C70, 0x2C70, 1, -10782);
   (0x2C72, 0x2C72, 1, 1); (0x2C75, 0x2C75, 1, 1);
   (0x2C7E, 0x2C7F, 1, -10815); (0x2C80, 0x2CE2, 2, 1);
   (0x2CEB, 0x2CED, 2, 1); (0x2CF2, 0x2CF2, 1, 1); (0xA640, 0xA66C, 2, 1);
   (0xA680, 0xA69A, 2, 1); (0xA722, 0xA72E, 2, 1); (0xA732, 0xA76E, 2, 1);
   (0xA779, 0xA77B, 2, 1); (0xA77D, 0xA77D, 1, -35332);
   (0xA77E, 0xA786, 2, 1); (0xA78B, 0xA78B, 1, 1);
   (0xA78D, 0xA78D, 1, -42280); (0xA790, 0xA792, 2, 1);
   (0xA796, 0xA7A8, 2, 1); (0xA7AA, 0xA7AA, 1, -42308);
   (0xA7AB, 0xA7AB, 1, -42319); (0xA7AC, 0xA7AC, 1, -42315);
   (0xA7AD, 0xA7AD, 1, -42305); (0xA7AE, 0xA7AE, 1, -42308);
   (0xA7B0, 0xA7B0, 1, -42258); (0xA7B1, 0xA7B1, 1, -42282);
   (0xA7B2, 0xA7B2, 1, -42261); (0xA7B3, 0xA7B3, 1, 928);
   (0xA7B4, 0xA7C2, 2, 1); (0xA7C4, 0xA7C4, 1, -48);
   (0xA7C5, 0xA7C5, 1, -42307); (0xA7C6, 0xA7C6, 1, -35384);
   (0xA7C7, 0xA7C9, 2, 1); (0xA7D0, 0xA7D0, 1, 1); (0xA7D6, 0xA7D8, 2, 1);
   (0xA7F5, 0xA7F5, 1, 1); (0xFF21, 0xFF3A, 1, 32); (0x10400, 0x10427, 1, 40);
   (0x104B0, 0x104D3, 1, 40); (0x10570, 0x1057A, 1, 39);
   (0x1057C, 0x1058A, 1, 39); (0x1058C, 0x10592, 1, 39);
   (0x10594, 0x10595, 1, 39); (0x10C80, 0x10CB2, 1, 64);
   (0x118A0, 0x118BF, 1, 32); (0x16E40, 0x16E5F, 1, 32);
   (0x1E900, 0x1E921, 1, 34)
  ]%Z.

(** The property [Cased] of [DerivedCoreProperties.txt], as ranges. *)
Definition Cased : list (Z * Z) :=
  [
   (0x41, 0x5A); (0x61, 0x7A); (0xAA, 0xAA); (0xB5, 0xB5); (0xBA, 0xBA);
   (0xC0, 0xD6); (0xD8, 0xF6); (0xF8, 0x1BA); (0x1BC, 0x1BF); (0x1C4, 0x293);
   (0x295, 0x2B8); (0x2C0, 0x2C1); (0x2E0, 0x2E4); (0x345, 0x345);
   (0x370, 0x373); (0x376, 0x377); (0x37A, 0x37D); (0x37F, 0x37F);
   (0x386, 0x386); (0x388, 0x38A); (0x38C, 0x38C); (0x38E, 0x3A1);
   (0x3A3, 0x3F5); (0x3F7, 0x481); (0x48A, 0x52F); (0x531, 0x556);
   (0x560, 0x588); (0x10A0, 0x10C5); (0x10C7, 0x10C7); (0x10CD, 0x10CD);
   (0x10D0, 0x10FA); (0x10FD, 0x10FF); (0x13A0, 0x13F5); (0x13F8, 0x13FD);
   (0x1C80, 0x1C88); (0x1C90, 0x1CBA); (0x1CBD, 0x1CBF); (0x1D00, 0x1DBF);
   (0x1E00, 0x1F15); (0x1F18, 0x1F1D); (0x1F20, 0x1F45); (0x1F48, 0x1F4D);
   (0x1F50, 0x1F57); (0x1F59, 0x1F59); (0x1F5B, 0x1F5B); (0x1F5D, 0x1F5D);
   (0x1F5F, 0x1F7D); (0x1F80, 0x1FB4); (0x1FB6, 0x1FBC); (0x1FBE, 0x1FBE);
   (0x1FC2, 0x1FC4); (0x1FC6, 0x1FCC); (0x1FD0, 0x1FD3); (0x1FD6, 0x1FDB);
   (0x1FE0, 0x1FEC); (0x1FF2, 0x1FF4); (0x1FF6, 0x1FFC); (0x2071, 0x2071);
   (0x207F, 0x207F); (0x2090, 0x209C); (0x2102, 0x2102); (0x2107, 0x2107);
   (0x210A, 0x2113); (0x2115, 0x2115); (0x2119, 0x211D); (0x2124, 0x2124);
   (0x2126, 0x2126); (0x2128, 0x2128); (0x212A, 0x212D); (0x212F, 0x2134);
   (0x2139, 0x2139); (0x213C, 0x213F); (0x2145, 0x2149); (0x214E, 0x214E);
   (0x2160, 0x217F); (0x2183, 0x2184); (0x24B6, 0x24E9); (0x2C00, 0x2CE4);
   (0x2CEB, 0x2CEE); (0x2CF2, 0x2CF3); (0x2D00, 0x2D25); (0x2D27, 0x2D27);
   (0x2D2D, 0x2D2D); (0xA640, 0xA66D); (0xA680, 0xA69D); (0xA722, 0xA787);
   (0xA78B, 0xA78E); (0xA790, 0xA7CA); (0xA7D0, 0xA7D1); (0xA7D3, 0xA7D3);
   (0xA7D5, 0xA7D9); (0xA7F5, 0xA7F6); (0xA7F8, 0xA7FA); (0xAB30, 0xAB5A);
   (0xAB5C, 0xAB68); (0xAB70, 0xABBF); (0xFB00, 0xFB06); (0xFB13, 0xFB17);
   (0xFF21, 0xFF3A); (0xFF41, 0xFF5A); (0x10400, 0x1044F); (0x104B0, 0x104D3);
   (0x104D8, 0x104FB); (0x10570, 0x1057A); (0x1057C, 0x1058A);
   (0x1058C, 0x10592); (0x10594, 0x10595); (0x10597, 0x105A1);
   (0x105A3, 0x105B1); (0x105B3, 0x105B9); (0x105BB, 0x105BC);
   (0x10780, 0x10780); (0x10783, 0x10785); (0x10787, 0x107B0);
   (0x107B2, 0x107BA); (0x10C80, 0x10CB2); (0x10CC0, 0x10CF2);
   (0x118A0, 0x118DF); (0x16E40, 0x16E7F); (0x1D400, 0x1D454);
   (0x1D456, 0x1D49C); (0x1D49E, 0x1D49F); (0x1D4A2, 0x1D4A2);
   (0x1D4A5, 0x1D4A6); (0x1D4A9, 0x1D4AC); (0x1D4AE, 0x1D4B9);
   (0x1D4BB, 0x1D4BB); (0x1D4BD, 0x1D4C3); (0x1D4C5, 0x1D505);
   (0x1D507, 0x1D50A); (0x1D50D, 0x1D514); (0x1D516, 0x1D51C);
   (0x1D51E, 0x1D539); (0x1D53B, 0x1D53E); (0x1D540, 0x1D544);
   (0x1D546, 0x1D546); (0x1D54A, 0x1D550); (0x1D552, 0x1D6A5);
   (0x1D6A8, 0x1D6C0); (0x1D6C2, 0x1D6DA); (0x1D6DC, 0x1D6FA);
   (0x1D6FC, 0x1D714); (0x1D716, 0x1D734); (0x1D736, 0x1D74E);
   (0x1D750, 0x1D76E); (0x1D770, 0x1D788); (0x1D78A, 0x1D7A8);
   (0x1D7AA, 0x1D7C2); (0x1D7C4, 0x1D7CB); (0x1DF00, 0x1DF09);
   (0x1DF0B, 0x1DF1E); (0x1E900, 0x1E943); (0x1F130, 0x1F149);
   (0x1F150, 0x1F169); (0x1F170, 0x1F189)
  ]%Z.

(** The property [Case_Ignorable] of [DerivedCoreProperties.txt], as ranges. *)
Definition Case_Ignorable : list (Z * Z) :=
  [
   (0x27, 0x27); (0x2E, 0x2E); (0x3A, 0x3A); (0x5E, 0x5E); (0x60, 0x60);
   (0xA8, 0xA8); (0xAD, 0xAD); (0xAF, 0xAF); (0xB4, 0xB4); (0xB7, 0xB8);
   (0x2B0, 0x36F); (0x374, 0x375); (0x37A, 0x37A); (0x384, 0x385);
   (0x387, 0x387); (0x483, 0x489); (0x559, 0x559); (0x55F, 0x55F);
   (0x591, 0x5BD); (0x5BF, 0x5BF); (0x5C1, 0x5C2); (0x5C4, 0x5C5);
   (0x5C7, 0x5C7); (0x5F4, 0x5F4); (0x600, 0x605); (0x610, 0x61A);
   (0x61C, 0x61C); (0x640, 0x640); (0x64B, 0x65F); (0x670, 0x670);
   (0x6D6, 0x6DD); (0x6DF, 0x6E8); (0x6EA, 0x6ED); (0x70F, 0x70F);
   (0x711, 0x711); (0x730, 0x74A); (0x7A6, 0x7B0); (0x7EB, 0x7F5);
   (0x7FA, 0x7FA); (0x7FD, 0x7FD); (0x816, 0x82D); (0x859, 0x85B);
   (0x888, 0x888); (0x890, 0x891); (0x898, 0x89F); (0x8C9, 0x902);
   (0x93A, 0x93A); (0x93C, 0x93C); (0x941, 0x948); (0x94D, 0x94D);
   (0x951, 0x957); (0x962, 0x963); (0x971, 0x971); (0x981, 0x981);
   (0x9BC, 0x9BC); (0x9C1, 0x9C4); (0x9CD, 0x9CD); (0x9E2, 0x9E3);
   (0x9FE, 0x9FE); (0xA01, 0xA02); (0xA3C, 0xA3C); (0xA41, 0xA42);
   (0xA47, 0xA48); (0xA4B, 0xA4D); (0xA51, 0xA51); (0xA70, 0xA71);
   (0xA75, 0xA75); (0xA81, 0xA82); (0xABC, 0xABC); (0xAC1, 0xAC5);
   (0xAC7, 0xAC8); (0xACD, 0xACD); (0xAE2, 0xAE3); (0xAFA, 0xAFF);
   (0xB01, 0xB01); (0xB3C, 0xB3C); (0xB3F, 0xB3F); (0xB41, 0xB44);
   (0xB4D, 0xB4D); (0xB55, 0xB56); (0xB62, 0xB63); (0xB82, 0xB82);
   (0xBC0, 0xBC0); (0xBCD, 0xBCD); (0xC00, 0xC00); (0xC04, 0xC04);
   (0xC3C, 0xC3C); (0xC3E, 0xC40); (0xC46, 0xC48); (0xC4A, 0xC4D);
   (0xC55, 0xC56); (0xC62, 0xC63); (0xC81, 0xC81); (0xCBC, 0xCBC);
   (0xCBF, 0xCBF); (0xCC6, 0xCC6); (0xCCC, 0xCCD); (0xCE2, 0xCE3);
   (0xD00, 0xD01); (0xD3B, 0xD3C); (0xD41, 0xD44); (0xD4D, 0xD4D);
   (0xD62, 0xD63); (0xD81, 0xD81); (0xDCA, 0xDCA); (0xDD2, 0xDD4);
   (0xDD6, 0xDD6); (0xE31, 0xE31); (0xE34, 0xE3A); (0xE46, 0xE4E);
   (0xEB1, 0xEB1); (0xEB4, 0xEBC); (0xEC6, 0xEC6); (0xEC8, 0xECD);
   (0xF18, 0xF19); (0xF35, 0xF35); (0xF37, 0xF37); (0xF39, 0xF39);
   (0xF71, 0xF7E); (0xF80, 0xF84); (0xF86, 0xF87); (0xF8D, 0xF97);
   (0xF99, 0xFBC); (0xFC6, 0xFC6); (0x102D, 0x1030); (0x1032, 0x1037);
   (0x1039, 0x103A); (0x103D, 0x103E); (0x1058, 0x1059); (0x105E, 0x1060);
   (0x1071, 0x1074); (0x1082, 0x1082); (0x1085, 0x1086); (0x108D, 0x108D);
   (0x109D, 0x109D); (0x10FC, 0x10FC); (0x135D, 0x135F); (0x1712, 0x1714);
   (0x1732, 0x1733); (0x1752, 0x1753); (0x1772, 0x1773); (0x17B4, 0x17B5);
   (0x17B7, 0x17BD); (0x17C6, 0x17C6); (0x17C9, 0x17D3); (0x17D7, 0x17D7);
   (0x17DD, 0x17DD); (0x180B, 0x180F); (0x1843, 0x1843); (0x1885, 0x1886);
   (0x18A9, 0x18A9); (0x1920, 0x1922); (0x1927, 0x1928); (0x1932, 0x1932);
   (0x1939, 0x193B); (0x1A17, 0x1A18); (0x1A1B, 0x1A1B); (0x1A56, 0x1A56);
   (0x1A58, 0x1A5E); (0x1A60, 0x1A60); (0x1A62, 0x1A62); (0x1A65, 0x1A6C);
   (0x1A73, 0x1A7C); (0x1A7F, 0x1A7F); (0x1AA7, 0x1AA7); (0x1AB0, 0x1ACE);
   (0x1B00, 0x1B03); (0x1B34, 0x1B34); (0x1B36, 0x1B3A); (0x1B3C, 0x1B3C);
   (0x1B42, 0x1B42); (0x1B6B, 0x1B73); (0x1B80, 0x1B81); (0x1BA2, 0x1BA5);
   (0x1BA8, 0x1BA9); (0x1BAB, 0x1BAD); (0x1BE6, 0x1BE6); (0x1BE8, 0x1BE9);
   (0x1BED, 0x1BED); (0x1BEF, 0x1BF1); (0x1C2C, 0x1C33); (0x1C36, 0x1C37);
   (0x1C78, 0x1C7D); (0x1CD0, 0x1CD2); (0x1CD4, 0x1CE0); (0x1CE2, 0x1CE8);
   (0x1CED, 0x1CED); (0x1CF4, 0x1CF4); (0x1CF8, 0x1CF9); (0x1D2C, 0x1D6A);
   (0x1D78, 0x1D78); (0x1D9B, 0x1DFF); (0x1FBD, 0x1FBD); (0x1FBF, 0x1FC1);
   (0x1FCD, 0x1FCF); (0x1FDD, 0x1FDF); (0x1FED, 0x1FEF); (0x1FFD, 0x1FFE);
   (0x200B, 0x200F); (0x2018, 0x2019); (0x2024, 0x2024); (0x2027, 0x2027);
   (0x202A, 0x202E); (0x2060, 0x2064); (0x2066, 0x206F); (0x2071, 0x2071);
   (0x207F, 0x207F); (0x2090, 0x209C); (0x20D0, 0x20F0); (0x2C7C, 0x2C7D);
   (0x2CEF, 0x2CF1); (0x2D6F, 0x2D6F); (0x2D7F, 0x2D7F); (0x2DE0, 0x2DFF);
   (0x2E2F, 0x2E2F); (0x3005, 0x3005); (0x302A, 0x302D); (0x3031, 0x3035);
   (0x303B, 0x303B); (0x3099, 0x309E); (0x30FC, 0x30FE); (0xA015, 0xA015);
   (0xA4F8, 0xA4FD); (0xA60C, 0xA60C); (0xA66F, 0xA672); (0xA674, 0xA67D);
   (0xA67F, 0xA67F); (0xA69C, 0xA69F); (0xA6F0, 0xA6F1); (0xA700, 0xA721);
   (0xA770, 0xA770); (0xA788, 0xA78A); (0xA7F2, 0xA7F4); (0xA7F8, 0xA7F9);
   (0xA802, 0xA802); (0xA806, 0xA806); (0xA80B, 0xA80B); (0xA825, 0xA826);
   (0xA82C, 0xA82C); (0xA8C4, 0xA8C5); (0xA8E0, 0xA8F1); (0xA8FF, 0xA8FF);
   (0xA926, 0xA92D); (0xA947, 0xA951); (0xA980, 0xA982); (0xA9B3, 0xA9B3);
   (0xA9B6, 0xA9B9); (0xA9BC, 0xA9BD); (0xA9CF, 0xA9CF); (0xA9E5, 0xA9E6);
   (0xAA29, 0xAA2E); (0xAA31, 0xAA32); (0xAA35, 0xAA36); (0xAA43, 0xAA43);
   (0xAA4C, 0xAA4C); (0xAA70, 0xAA70); (0xAA7C, 0xAA7C); (0xAAB0, 0xAAB0);
   (0xAAB2, 0xAAB4); (0xAAB7, 0xAAB8); (0xAABE, 0xAABF); (0xAAC1, 0xAAC1);
   (0xAADD, 0xAADD); (0xAAEC, 0xAAED); (0xAAF3, 0xAAF4); (0xAAF6, 0xAAF6);
   (0xAB5B, 0xAB5F); (0xAB69, 0xAB6B); (0xABE5, 0xABE5); (0xABE8, 0xABE8);
   (0xABED, 0xABED); (0xFB1E, 0xFB1E); (0xFBB2, 0xFBC2); (0xFE00, 0xFE0F);
   (0xFE13, 0xFE13); (0xFE20, 0xFE2F); (0xFE52, 0xFE52); (0xFE55, 0xFE55);
   (0xFEFF, 0xFEFF); (0xFF07, 0xFF07); (0xFF0E, 0xFF0E); (0xFF1A, 0xFF1A);
   (0xFF3E, 0xFF3E); (0xFF40, 0xFF40); (0xFF70, 0xFF70); (0xFF9E, 0xFF9F);
   (0xFFE3, 0xFFE3); (0xFFF9, 0xFFFB); (0x101FD, 0x101FD); (0x102E0, 0x102E0);
   (0x10376, 0x1037A); (0x10780, 0x10785); (0x10787, 0x107B0);
   (0x107B2, 0x107BA); (0x10A01, 0x10A03); (0x10A05, 0x10A06);
   (0x10A0C, 0x10A0F); (0x10A38, 0x10A3A); (0x10A3F, 0x10A3F);
   (0x10AE5, 0x10AE6); (0x10D24, 0x10D27); (0x10EAB, 0x10EAC);
   (0x10F46, 0x10F50); (0x10F82, 0x10F85); (0x11001, 0x11001);
   (0x11038, 0x11046); (0x11070, 0x11070); (0x11073, 0x11074);
   (0x1107F, 0x11081); (0x110B3, 0x110B6); (0x110B9, 0x110BA);
   (0x110BD, 0x110BD); (0x110C2, 0x110C2); (0x110CD, 0x110CD);
   (0x11100, 0x11102); (0x11127, 0x1112B); (0x1112D, 0x11134);
   (0x11173, 0x11173); (0x11180, 0x11181); (0x111B6, 0x111BE);
   (0x111C9, 0x111CC); (0x111CF, 0x111CF); (0x1122F, 0x11231);
   (0x11234, 0x11234); (0x11236, 0x11237); (0x1123E, 0x1123E);
   (0x112DF, 0x112DF); (0x112E3, 0x112EA); (0x11300, 0x11301);
   (0x1133B, 0x1133C); (0x11340, 0x11340); (0x11366, 0x1136C);
   (0x11370, 0x11374); (0x11438, 0x1143F); (0x11442, 0x11444);
   (0x11446, 0x11446); (0x1145E, 0x1145E); (0x114B3, 0x114B8);
   (0x114BA, 0x114BA); (0x114BF, 0x114C0); (0x114C2, 0x114C3);
   (0x115B2, 0x115B5); (0x115BC, 0x115BD); (0x115BF, 0x115C0);
   (0x115DC, 0x115DD); (0x11633, 0x1163A); (0x1163D, 0x1163D);
   (0x1163F, 0x11640); (0x116AB, 0x116AB); (0x116AD, 0x116AD);
   (0x116B0, 0x116B5); (0x116B7, 0x116B7); (0x1171D, 0x1171F);
   (0x11722, 0x11725); (0x11727, 0x1172B); (0x1182F, 0x11837);
   (0x11839, 0x1183A); (0x1193B, 0x1193C); (0x1193E, 0x1193E);
   (0x11943, 0x11943); (0x119D4, 0x119D7); (0x119DA, 0x119DB);
   (0x119E0, 0x119E0); (0x11A01, 0x11A0A); (0x11A33, 0x11A38);
   (0x11A3B, 0x11A3E); (0x11A47, 0x11A47); (0x11A51, 0x11A56);
   (0x11A59, 0x11A5B); (0x11A8A, 0x11A96); (0x11A98, 0x11A99);
   (0x11C30, 0x11C36); (0x11C38, 0x11C3D); (0x11C3F, 0x11C3F);
   (0x11C92, 0x11CA7); (0x11CAA, 0x11CB0); (0x11CB2, 0x11CB3);
   (0x11CB5, 0x11CB6); (0x11D31, 0x11D36); (0x11D3A, 0x11D3A);
   (0x11D3C, 0x11D3D); (0x11D3F, 0x11D45); (0x11D47, 0x11D47);
   (0x11D90, 0x11D91); (0x11D95, 0x11D95); (0x11D97, 0x11D97);
   (0x11EF3, 0x11EF4); (0x13430, 0x13438); (0x16AF0, 0x16AF4);
   (0x16B30, 0x16B36); (0x16B40, 0x16B43); (0x16F4F, 0x16F4F);
   (0x16F8F, 0x16F9F); (0x16FE0, 0x16FE1); (0x16FE3, 0x16FE4);
   (0x1AFF0, 0x1AFF3); (0x1AFF5, 0x1AFFB); (0x1AFFD, 0x1AFFE);
   (0x1BC9D, 0x1BC9E); (0x1BCA0, 0x1BCA3); (0x1CF00, 0x1CF2D);
   (0x1CF30, 0x1CF46); (0x1D167, 0x1D169); (0x1D173, 0x1D182);
   (0x1D185, 0x1D18B); (0x1D1AA, 0x1D1AD); (0x1D242, 0x1D244);
   (0x1DA00, 0x1DA36); (0x1DA3B, 0x1DA6C); (0x1DA75, 0x1DA75);
   (0x1DA84, 0x1DA84); (0x1DA9B, 0x1DA9F); (0x1DAA1, 0x1DAAF);
   (0x1E000, 0x1E006); (0x1E008, 0x1E018); (0x1E01B, 0x1E021);
   (0x1E023, 0x1E024); (0x1E026, 0x1E02A); (0x1E130, 0x1E13D);
   (0x1E2AE, 0x1E2AE); (0x1E2EC, 0x1E2EF); (0x1E8D0, 0x1E8D6);
   (0x1E944, 0x1E94B); (0x1F3FB, 0x1F3FF); (0xE0001, 0xE0001);
   (0xE0020, 0xE007F); (0xE0100, 0xE01EF)
  ]%Z.

Definition within (ranges : list (Z * Z)) (c : Z) : bool :=
  existsb (fun '(first, last) => between first last c) ranges.

Fixpoint simpleLowercase (table : list (Z * Z * Z * Z)) (c : Z) : Z :=
  match table with
  | [] => c
  | (first, last, step, delta) :: rest =>
      if between first last c && ((c - first) mod step =? 0)%Z then (c + delta)%Z
      else simpleLowercase rest c
  end.

(** Going away from a capital sigma, over what is [Case_Ignorable]: is the
    first other code point [Cased]? *)
Fixpoint casedLetterNext (l : list Z) : bool :=
  match l with
  | [] => false
  | c :: rest => if within Case_Ignorable c then casedLetterNext rest
                 else within Cased c
  end.

(** The lower case of the code points [after], which follow [before] (held
    nearest first).  [SpecialCasing.txt] has two entries that are not bound
    to a language: U+0130 becomes two code points, and U+03A3 becomes the
    final sigma U+03C2 at the end of a word. *)
Fixpoint lowerCodePoints (before after : list Z) : list Z :=
  match after with
  | [] => []
  | c :: rest =>
      (if (c =? 0x130)%Z then [0x69; 0x307]%Z
       else if (c =? 0x3A3)%Z
       then if casedLetterNext before && negb (casedLetterNext rest)
            then [0x3C2]%Z else [0x3C3]%Z
       else [simpleLowercase Simple_Lowercase_Mapping c])
      ++ lowerCodePoints (c :: before) rest
  end.

(** [String.prototype.toLowerCase]: the locale-insensitive lower-case
    mapping of the Unicode Character Database, code point by code point. *)
Definition toLowerCase (s : string) : string :=
  fromCodePoints (lowerCodePoints [] (codePoints s)).

Fixpoint startsWith (s needle : string) : bool :=
  match needle, s with
  | EmptyString, _ => true
  | String _ _, EmptyString => false
  | String a needle', String b s' => Ascii.eqb a b && startsWith s' needle'
  end.

(** [s.includes(needle)]: [needle] occurs at some position of [s]. *)
Fixpoint includes (s needle : string) : bool :=
  startsWith s needle ||
  match s with
  | EmptyString => false
  | String _ rest => includes rest needle
  end.

(** The relation [includes] decides. *)
Definition Substring (needle s : string) : Prop :=
  exists before after, s = (before ++ needle ++ after)%string.

(** [TextEncoder.encode]: the UTF-8 bytes of a string. *)
Definition utf8 (s : string) : list byte := list_byte_of_string s.

End JsString.

(** ** Error taxonomy ([src/errors/crypto-error.ts]) *)

Inductive Category : Type :=
| key_derivation | encryption | decryption | validation | initialization.

(** An instance of [Error].  [CryptoErrorImpl] adds [code] and [category];
    errors of the host have neither. *)
Record ErrorObject : Type := mkErrorObject {
  name : string;
  message : string;
  code : option string;
  category : option Category
}.

(** A value of type [unknown], as a [catch] clause receives it. *)
Inductive unknown : Type :=
| JsError (e : ErrorObject)      (* [instanceof Error] holds *)
| JsStringValue (s : string)
| JsObject (properties : list (string * string))   (* any other object *)
| JsNull
| JsUndefined.

(** [new Error(message)] *)
Definition Error (msg : string) : ErrorObject :=
  {| name := "Error"; message := msg; code := None; category := None |}.

(** [new CryptoErrorImpl(message, code, category)] *)
Definition CryptoErrorImpl (msg c : string) (cat : Category) : ErrorObject :=
  {| name := "CryptoError"; message := msg; code := Some c; category := Some cat |}.

Definition createCryptoError (cat : Category) (c msg : string) : ErrorObject :=
  CryptoErrorImpl msg c cat.

Definition sanitizeErrorMessage (error : unknown) : string :=
  match error with
  | JsError e =>
      let lowered := JsString.toLowerCase e.(message) in
      if JsString.includes lowered "key"
         || JsString.includes lowered "password"
         || JsString.includes lowered "secret"
      then "Cryptographic operation failed"
      else e.(message)
  | _ => "Unknown cryptographic error"
  end.

(** The test of every [catch] clause of the services:
    [error instanceof Error && error.name === 'CryptoError']. *)
Definition isCryptoError (error : unknown) : bool :=
  match error with
  | JsError e => String.eqb e.(name) "CryptoError"
  | _ => false
  end.

(** ** The JavaScript runtime: completions, store, typed arrays *)

Definition bytes : Type := list byte.

(** A call returns or throws (for an [async] function: its promise is
    fulfilled or rejected). *)
Inductive Completion (A : Type) : Type :=
| Normal (a : A)
| Abrupt (e : unknown).
Arguments Normal {A} a.
Arguments Abrupt {A} e.

(** Calls into the host's cryptographic library, in the order they are made. *)
Inductive HostCall : Type :=
| call_randomBytes | call_getRandomValues
| call_pbkdf2 | call_createCipheriv | call_createDecipheriv
| call_update | call_final | call_getAuthTag | call_setAuthTag
| call_importKey | call_deriveBits | call_encrypt | call_decrypt.

Record World : Type := mkWorld {
  heap : list bytes;        (* the array buffers allocated so far, by identity *)
  entropy : nat -> byte;    (* the output of the host's CSPRNG *)
  drawn : nat;              (* how much of it has been handed out *)
  calls : list HostCall     (* log of the calls into the host library *)
}.

Definition Js (A : Type) : Type := World -> Completion A * World.

Definition ret {A} (a : A) : Js A := fun w => (Normal a, w).

Definition throw {A} (e : unknown) : Js A := fun w => (Abrupt e, w).

Definition bind {A B} (m : Js A) (k : A -> Js B) : Js B :=
  fun w =>
    match m w with
    | (Normal a, w') => k a w'
    | (Abrupt e, w') => (Abrupt e, w')
    end.

(** [try { body } catch (error) { handler }] *)
Definition try_catch {A} (body : Js A) (handler : unknown -> Js A) : Js A :=
  fun w =>
    match body w with
    | (Normal a, w') => (Normal a, w')
    | (Abrupt e, w') => handler e w'
    end.

Declare Scope js_scope.
Delimit Scope js_scope with js.
Notation "x <- m ;; k" := (bind m (fun x => k))
  (at level 61, m at next level, right associativity) : js_scope.
Notation "' p <- m ;; k" := (bind m (fun x => let p := x in k))
  (at level 61, p pattern, m at next level, right associativity) : js_scope.
Notation "m ;;; k" := (bind m (fun _ => k))
  (at level 61, right associativity) : js_scope.
Local Open Scope js_scope.

(** A [Uint8Array] (or a Node [Buffer], its subclass): a window on an array
    buffer.  An [ArrayBuffer] is known by its identity alone. *)
Definition ArrayBuffer : Type := nat.

Record Uint8Array : Type := mkUint8Array {
  buffer : ArrayBuffer;
  byteOffset : nat;
  byteLength : nat
}.

Module Store.

Definition content (h : list bytes) (a : Uint8Array) : bytes :=
  firstn a.(byteLength) (skipn a.(byteOffset) (nth a.(buffer) h [])).

(** The view lies inside an allocated buffer. *)
Definition valid (h : list bytes) (a : Uint8Array) : Prop :=
  (a.(buffer) < length h)%nat /\
  (a.(byteOffset) + a.(byteLength) <= length (nth a.(buffer) h []))%nat.

Definition overwrite (old : bytes) (pos : nat) (new : bytes) : bytes :=
  firstn pos old ++ new ++ skipn (pos + length new) old.

Fixpoint update (h : list bytes) (b : ArrayBuffer) (f : bytes -> bytes) : list bytes :=
  match h, b with
  | [], _ => []
  | x :: rest, O => f x :: rest
  | x :: rest, S b' => x :: update rest b' f
  end.

(** Two views share backing storage when they are windows on one buffer. *)
Definition shares_storage (a b : Uint8Array) : Prop := a.(buffer) = b.(buffer).

End Store.

Definition with_heap (w : World) (h : list bytes) : World :=
  {| heap := h; entropy := w.(entropy); drawn := w.(drawn); calls := w.(calls) |}.

Definition read (a : Uint8Array) : Js bytes :=
  fun w => (Normal (Store.content w.(heap) a), w).

(** A new array buffer holding [content], and the view of all of it. *)
Definition allocate (content : bytes) : Js Uint8Array :=
  fun w =>
    (Normal {| buffer := length w.(heap); byteOffset := 0; byteLength := length content |},
     with_heap w (w.(heap) ++ [content])).

Definition write (a : Uint8Array) (pos : nat) (new : bytes) : Js unit :=
  fun w =>
    (Normal tt,
     with_heap w (Store.update w.(heap) a.(buffer)
                    (fun old => Store.overwrite old (a.(byteOffset) + pos) new))).

(** The host is entered: the call is logged. *)
Definition host (c : HostCall) : Js unit :=
  fun w =>
    (Normal tt,
     {| heap := w.(heap); entropy := w.(entropy); drawn := w.(drawn);
        calls := w.(calls) ++ [c] |}).

(** The next [n] bytes of the CSPRNG. *)
Definition draw (n : nat) : Js bytes :=
  fun w =>
    (Normal (map w.(entropy) (seq w.(drawn) n)),
     {| heap := w.(heap); entropy := w.(entropy); drawn := w.(drawn) + n;
        calls := w.(calls) |}).

Definition RangeError (msg : string) : unknown :=
  JsError {| name := "RangeError"; message := msg; code := None; category := None |}.

Definition TypeError (msg : string) : unknown :=
  JsError {| name := "TypeError"; message := msg; code := None; category := None |}.

(** A [DOMException] of the given name. *)
Definition DOMException (nm msg : string) : unknown :=
  JsError {| name := nm; message := msg; code := None; category := None |}.

Module TypedArray.

(** [new Uint8Array(length)]: a new zero-filled buffer. *)
Definition new_of_length (length : Z) : Js Uint8Array :=
  if (length <? 0)%Z then throw (RangeError "Invalid typed array length")
  else allocate (repeat x00 (Z.to_nat length)).

(** [new Uint8Array(typedArray)], [Buffer.from(typedArray)]: the elements
    are copied into a new buffer. *)
Definition new_of_array (a : Uint8Array) : Js Uint8Array :=
  content <- read a ;; allocate content.

(** [new Uint8Array(arrayBuffer)]: a view of the whole buffer, no copy. *)
Definition new_of_buffer (b : ArrayBuffer) : Js Uint8Array :=
  fun w => (Normal {| buffer := b; byteOffset := 0;
                      byteLength := length (nth b w.(heap) []) |}, w).

(** A relative index of [slice], clamped to [0, len]. *)
Definition relative (len : nat) (i : Z) : nat :=
  if (i <? 0)%Z then Z.to_nat (Z.max 0 (Z.of_nat len + i))
  else Z.to_nat (Z.min i (Z.of_nat len)).

(** [a.slice(start, end)]: the elements are copied into a new buffer. *)
Definition slice (a : Uint8Array) (start : Z) (end_ : option Z) : Js Uint8Array :=
  let k := relative a.(byteLength) start in
  let final := match end_ with
               | Some e => relative a.(byteLength) e
               | None => a.(byteLength)
               end in
  content <- read a ;;
  allocate (firstn (final - k) (skipn k content)).

(** [target.set(source, offset)] *)
Definition set (target source : Uint8Array) (offset : nat) : Js unit :=
  if (target.(byteLength) <? offset + source.(byteLength))%nat
  then throw (RangeError "offset is out of bounds")
  else content <- read source ;; write target offset content.

(** [a.fill(value)] *)
Definition fill (a : Uint8Array) (value : byte) : Js unit :=
  write a 0 (repeat value a.(byteLength)).

End TypedArray.

(** [new TextEncoder().encode(s)] *)
Definition TextEncoder_encode (s : string) : Js Uint8Array :=
  allocate (JsString.utf8 s).

Fixpoint bytes_eqb (x y : bytes) : bool :=
  match x, y with
  | [], [] => true
  | a :: x', b :: y' => Byte.eqb a b && bytes_eqb x' y'
  | _, _ => false
  end.

(** ** The host's cryptographic primitives

    Supplied by the platform, not implemented by this repository:
    - [GCTR key iv x]: the counter-mode transformation of AES-GCM (one
      function for both directions);
    - [GTAG key iv c]: the 128-bit GCM authentication tag of ciphertext [c]
      (no additional data);
    - [PBKDF2 h password salt iterations dkLen]: PBKDF2 with HMAC over [h];
    - [refuses material]: the message of the error with which [importKey]
      rejects [material] as the raw key material of PBKDF2, if it does.  The
      Web Cryptography API gives a host no reason to (any byte string is key
      material); the host of the test-suite does, with "WebCrypto error". *)

Inductive Hash : Type := SHA256 | SHA512.

Record Primitives : Type := mkPrimitives {
  GCTR : bytes -> bytes -> bytes -> bytes;
  GTAG : bytes -> bytes -> bytes -> bytes;
  PBKDF2 : Hash -> bytes -> bytes -> Z -> Z -> bytes;
  refuses : bytes -> option string
}.

(** What the development relies on: counter mode keeps the length and undoes
    itself, the tag has 16 bytes, PBKDF2 yields the requested number of
    bytes. *)
Record Standard (P : Primitives) : Prop := mkStandard {
  GCTR_length : forall key iv x,
    length key = 32%nat -> length (P.(GCTR) key iv x) = length x;
  GCTR_involutive : forall key iv x,
    length key = 32%nat -> P.(GCTR) key iv (P.(GCTR) key iv x) = x;
  GTAG_length : forall key iv c,
    length key = 32%nat -> length (P.(GTAG) key iv c) = 16%nat;
  PBKDF2_length : forall h password salt iterations dkLen,
    (1 <= iterations)%Z -> (1 <= dkLen)%Z ->
    length (P.(PBKDF2) h password salt iterations dkLen) = Z.to_nat dkLen
}.

(** ** Node's [crypto] module, as the native backend calls it

    The calls [node-crypto.ts] imports from ['crypto'], after the module's
    documentation: which arguments are refused, what is computed, and that
    every result is a new [Buffer].  Errors of the host are plain [Error],
    [RangeError] or [TypeError] instances. *)

Module NodeCrypto.
Section Host.
Context (P : Primitives).

(** [crypto.randomBytes(size)]: a new [Buffer] of random bytes. *)
Definition randomBytes (size : Z) : Js Uint8Array :=
  host call_randomBytes ;;;
  if ((size <? 0) || (2 ^ 31 - 1 <? size))%Z
  then throw (RangeError "The value of size is out of range")
  else random <- draw (Z.to_nat size) ;; allocate random.

Definition digest (nm : string) : option Hash :=
  if nm =? "sha256" then Some SHA256
  else if nm =? "sha512" then Some SHA512
  else None.

(** The largest value of an argument that OpenSSL takes as a signed [int]. *)
Definition INT32_MAX : Z := 2 ^ 31 - 1.

(** [promisify(crypto.pbkdf2)(password, salt, iterations, keylen, digest)];
    a string password is taken as UTF-8.  [iterations] is validated as an
    integer of [1 .. 2^31 - 1] and [keylen] as one of [0 .. 2^31 - 1]; the
    derivation of zero bytes then fails in the library. *)
Definition pbkdf2 (password : string) (salt : Uint8Array)
    (iterations keylen : Z) (dig : string) : Js Uint8Array :=
  host call_pbkdf2 ;;;
  if ((iterations <? 1) || (INT32_MAX <? iterations))%Z
  then throw (RangeError "The value of iterations is out of range")
  else if ((keylen <? 0) || (INT32_MAX <? keylen))%Z
  then throw (RangeError "The value of keylen is out of range")
  else match digest dig with
       | None => throw (TypeError "Invalid digest")
       | Some h =>
           if (keylen =? 0)%Z then throw (JsError (Error "Deriving bits failed"))
           else
             s <- read salt ;;
             allocate (P.(PBKDF2) h (JsString.utf8 password) s iterations keylen)
       end.

(** [Buffer.from(typedArray)] copies. *)
Definition Buffer_from (a : Uint8Array) : Js Uint8Array :=
  TypedArray.new_of_array a.

(** [Buffer.concat([a, b])]: a new buffer. *)
Definition Buffer_concat (a b : Uint8Array) : Js Uint8Array :=
  x <- read a ;; y <- read b ;; allocate (x ++ y).

(** A [Cipher] / [Decipher] object: key and nonce, the input consumed so
    far, the expected tag (decipher only), and whether [final] has run. *)
Record Cipher : Type := mkCipher {
  cipher_key : bytes;
  cipher_iv : bytes;
  cipher_input : bytes;
  cipher_tag : option bytes;
  cipher_done : bool
}.

Definition create (c : HostCall) (algorithm : string) (key iv : Uint8Array)
    : Js Cipher :=
  host c ;;;
  k <- read key ;;
  n <- read iv ;;
  if negb (algorithm =? "aes-256-gcm") then throw (TypeError "Invalid cipher")
  else if negb (length k =? 32)%nat then throw (RangeError "Invalid key length")
  else if (length n =? 0)%nat then throw (TypeError "Invalid initialization vector")
  else ret {| cipher_key := k; cipher_iv := n; cipher_input := [];
              cipher_tag := None; cipher_done := false |}.

Definition createCipheriv := create call_createCipheriv.
Definition createDecipheriv := create call_createDecipheriv.

(** [cipher.update(chunk)], [decipher.update(chunk)]: counter mode emits
    the output for [chunk] at once. *)
Definition update (c : Cipher) (chunk : Uint8Array) : Js (Cipher * Uint8Array) :=
  host call_update ;;;
  if c.(cipher_done)
  then throw (JsError (Error "Trying to add data in unsupported state"))
  else
    x <- read chunk ;;
    let input := c.(cipher_input) ++ x in
    out <- allocate (skipn (length c.(cipher_input))
                       (P.(GCTR) c.(cipher_key) c.(cipher_iv) input)) ;;
    ret ({| cipher_key := c.(cipher_key); cipher_iv := c.(cipher_iv);
            cipher_input := input; cipher_tag := c.(cipher_tag);
            cipher_done := false |}, out).

Definition finished (c : Cipher) : Cipher :=
  {| cipher_key := c.(cipher_key); cipher_iv := c.(cipher_iv);
     cipher_input := c.(cipher_input); cipher_tag := c.(cipher_tag);
     cipher_done := true |}.

(** [cipher.final()]: GCM has no padding, nothing is left to emit. *)
Definition cipher_final (c : Cipher) : Js (Cipher * Uint8Array) :=
  host call_final ;;;
  if c.(cipher_done)
  then throw (JsError (Error "Unsupported state"))
  else out <- allocate [] ;; ret (finished c, out).

(** [cipher.getAuthTag()], after [final]. *)
Definition getAuthTag (c : Cipher) : Js Uint8Array :=
  host call_getAuthTag ;;;
  if negb c.(cipher_done)
  then throw (JsError (Error "Invalid state for operation getAuthTag"))
  else allocate (P.(GTAG) c.(cipher_key) c.(cipher_iv)
                   (P.(GCTR) c.(cipher_key) c.(cipher_iv) c.(cipher_input))).

Definition tag_length_ok (n : nat) : bool :=
  existsb (Nat.eqb n) [4; 8; 12; 13; 14; 15; 16]%nat.

(** [decipher.setAuthTag(tag)] *)
Definition setAuthTag (c : Cipher) (tag : Uint8Array) : Js Cipher :=
  host call_setAuthTag ;;;
  t <- read tag ;;
  if negb (tag_length_ok (length t))
  then throw (TypeError "Invalid authentication tag length")
  else ret {| cipher_key := c.(cipher_key); cipher_iv := c.(cipher_iv);
              cipher_input := c.(cipher_input); cipher_tag := Some t;
              cipher_done := c.(cipher_done) |}.

(** [decipher.final()]: the tag is verified here. *)
Definition decipher_final (c : Cipher) : Js (Cipher * Uint8Array) :=
  host call_final ;;;
  if c.(cipher_done)
  then throw (JsError (Error "Unsupported state"))
  else match c.(cipher_tag) with
       | Some t =>
           if bytes_eqb t (P.(GTAG) c.(cipher_key) c.(cipher_iv) c.(cipher_input))
           then out <- allocate [] ;; ret (finished c, out)
           else throw (JsError (Error "Unsupported state or unable to authenticate data"))
       | None =>
           throw (JsError (Error "Unsupported state or unable to authenticate data"))
       end.

End Host.
End NodeCrypto.

(** ** The WebCrypto interface ([crypto.subtle], [crypto.getRandomValues])

    The calls [web-crypto.ts] makes on the global [crypto], after the Web
    Cryptography API: a rejected promise carries a [DOMException]; a result
    is a new [ArrayBuffer]. *)

Module WebCrypto.
Section Host.
Context (P : Primitives).

Definition OperationError : unknown :=
  DOMException "OperationError" "The operation failed for an operation-specific reason".

Definition InvalidAccessError : unknown :=
  DOMException "InvalidAccessError"
    "The requested operation is not valid for the provided key".

(** [crypto.getRandomValues(array)] fills [array] in place. *)
Definition getRandomValues (array : Uint8Array) : Js unit :=
  host call_getRandomValues ;;;
  if (65536 <? Z.of_nat array.(byteLength))%Z
  then throw (DOMException "QuotaExceededError"
                "The requested length exceeds 65536 bytes")
  else random <- draw array.(byteLength) ;; write array 0 random.

(** A [CryptoKey]: opaque to the caller; the host keeps a copy of the bytes
    it was imported from. *)
Record CryptoKey : Type := mkCryptoKey {
  key_algorithm : string;
  key_data : bytes;
  key_usages : list string
}.

Definition allows (k : CryptoKey) (usage : string) : bool :=
  existsb (String.eqb usage) k.(key_usages).

(** [crypto.subtle.importKey('raw', keyData, algorithm, extractable, usages)] *)
Definition importKey (format : string) (keyData : Uint8Array)
    (algorithm : string) (extractable : bool) (usages : list string)
    : Js CryptoKey :=
  host call_importKey ;;;
  raw <- read keyData ;;
  if negb (format =? "raw")
  then throw (DOMException "NotSupportedError" "Unsupported format")
  else if algorithm =? "PBKDF2" then
    if extractable
    then throw (DOMException "SyntaxError" "PBKDF2 material cannot be extractable")
    else match P.(refuses) raw with
         | Some msg => throw (JsError (Error msg))
         | None =>
             ret {| key_algorithm := algorithm; key_data := raw; key_usages := usages |}
         end
  else if algorithm =? "AES-GCM" then
    if existsb (Nat.eqb (length raw)) [16; 24; 32]%nat
    then ret {| key_algorithm := algorithm; key_data := raw; key_usages := usages |}
    else throw (DOMException "DataError" "Invalid key length")
  else throw (DOMException "NotSupportedError" "Unrecognized algorithm name").

Definition hash (nm : string) : option Hash :=
  if nm =? "SHA-256" then Some SHA256
  else if nm =? "SHA-512" then Some SHA512
  else None.

(** [ToUint32]: how an argument declared [unsigned long] is taken when the
    interface does not enforce its range. *)
Definition ToUint32 (n : Z) : Z := n mod 2 ^ 32.

(** [crypto.subtle.deriveBits({name: 'PBKDF2', salt, iterations, hash},
    baseKey, length)].  [length] counts bits and is an [unsigned long]: a
    number outside [0 .. 2^32 - 1] wraps around.  [iterations] is an
    [EnforceRange] [unsigned long]: outside that range it is a [TypeError].
    Zero iterations are refused; zero bits are an empty buffer; a count
    above [2^31 - 1] is refused by the hosts that derive with OpenSSL, Node
    among them (browsers go on to [2^32 - 1]). *)
Definition deriveBits (salt : Uint8Array) (iterations : Z) (hashName : string)
    (baseKey : CryptoKey) (length : Z) : Js ArrayBuffer :=
  host call_deriveBits ;;;
  let length := ToUint32 length in
  if ((iterations <? 0) || (2 ^ 32 - 1 <? iterations))%Z
  then throw (TypeError "Value is outside the 'unsigned long' value range")
  else match hash hashName with
       | None => throw (DOMException "NotSupportedError" "Unrecognized algorithm name")
       | Some h =>
           if negb ((baseKey.(key_algorithm) =? "PBKDF2") && allows baseKey "deriveBits")
           then throw InvalidAccessError
           else if (iterations =? 0)%Z then throw OperationError
           else if (length =? 0)%Z then bits <- allocate [] ;; ret bits.(buffer)
           else if negb (length mod 8 =? 0)%Z then throw OperationError
           else if (2 ^ 31 - 1 <? iterations)%Z then throw OperationError
           else
             s <- read salt ;;
             bits <- allocate (P.(PBKDF2) h baseKey.(key_data) s iterations (length / 8)) ;;
             ret bits.(buffer)
       end.

(** [crypto.subtle.encrypt({name: 'AES-GCM', iv, tagLength}, key, data)]:
    ciphertext followed by the tag, in one new buffer. *)
Definition encrypt (algorithm : string) (iv : Uint8Array) (tagLength : Z)
    (key : CryptoKey) (data : Uint8Array) : Js ArrayBuffer :=
  host call_encrypt ;;;
  if negb ((algorithm =? "AES-GCM") && (key.(key_algorithm) =? "AES-GCM")
           && allows key "encrypt")
  then throw InvalidAccessError
  else if negb (tagLength =? 128)%Z then throw OperationError
  else
    n <- read iv ;;
    plaintext <- read data ;;
    let c := P.(GCTR) key.(key_data) n plaintext in
    out <- allocate (c ++ P.(GTAG) key.(key_data) n c) ;;
    ret out.(buffer).

(** [crypto.subtle.decrypt({name: 'AES-GCM', iv, tagLength}, key, data)]:
    [data] ends with the tag, which is verified. *)
Definition decrypt (algorithm : string) (iv : Uint8Array) (tagLength : Z)
    (key : CryptoKey) (data : Uint8Array) : Js ArrayBuffer :=
  host call_decrypt ;;;
  if negb ((algorithm =? "AES-GCM") && (key.(key_algorithm) =? "AES-GCM")
           && allows key "decrypt")
  then throw InvalidAccessError
  else if negb (tagLength =? 128)%Z then throw OperationError
  else
    n <- read iv ;;
    input <- read data ;;
    if (length input <? 16)%nat then throw OperationError
    else
      let c := firstn (length input - 16) input in
      let tag := skipn (length input - 16) input in
      if bytes_eqb tag (P.(GTAG) key.(key_data) n c)
      then out <- allocate (P.(GCTR) key.(key_data) n c) ;; ret out.(buffer)
      else throw OperationError.

End Host.
End WebCrypto.

(** ** Shared types ([src/types]) *)

(** [KeyDerivationParams] as [src/types] declares it: two [number]s, the
    tag ['pbkdf2'] and the name of the hash, ['sha256' | 'sha512'].  The
    numbers are integers here and the two literal types are strings: the
    type keeps no caller from passing zero, a negative count or, through a
    cast, another name. *)
Record KeyDerivationParams : Type := mkKeyDerivationParams {
  iterations : Z;
  keyLength : Z;
  algorithm : string;
  hashFunction : string
}.

(** [EncryptedData] as [src/types] declares it: four byte arrays. *)
Record EncryptedData : Type := mkEncryptedData {
  data : Uint8Array;
  iv : Uint8Array;
  salt : Uint8Array;
  authTag : Uint8Array
}.

Definition DEFAULT_KEY_DERIVATION_PARAMS : KeyDerivationParams :=
  {| iterations := 600000; keyLength := 32; algorithm := "pbkdf2";
     hashFunction := "sha256" |}.

(** ** Backend A ([src/services/node-crypto.ts]) *)

Module NodeCryptoService.
Section Service.
Context (P : Primitives).

Definition CIPHER_ALGORITHM : string := "aes-256-gcm".
Definition DEFAULT_IV_LENGTH : nat := 12.
Definition DEFAULT_SALT_LENGTH : nat := 32.
Definition AUTH_TAG_LENGTH : nat := 16.

Definition generateSalt (length : option Z) : Js Uint8Array :=
  let length := match length with
                | Some l => l
                | None => Z.of_nat DEFAULT_SALT_LENGTH
                end in
  try_catch
    (salt <- NodeCrypto.randomBytes length ;;
     TypedArray.new_of_array salt)
    (fun error =>
       let sanitizedMessage := sanitizeErrorMessage error in
       throw (JsError (createCryptoError initialization "SALT_GENERATION_FAILED"
                         sanitizedMessage))).

Definition generateIV (length : option Z) : Js Uint8Array :=
  let length := match length with
                | Some l => l
                | None => Z.of_nat DEFAULT_IV_LENGTH
                end in
  try_catch
    (iv <- NodeCrypto.randomBytes length ;;
     TypedArray.new_of_array iv)
    (fun error =>
       let sanitizedMessage := sanitizeErrorMessage error in
       throw (JsError (createCryptoError initialization "IV_GENERATION_FAILED"
                         sanitizedMessage))).

Definition deriveKey (password : string) (salt : Uint8Array)
    (params : KeyDerivationParams) : Js Uint8Array :=
  try_catch
    (if (String.length password =? 0)%nat
     then throw (JsError (createCryptoError validation "EMPTY_PASSWORD"
                            "Password cannot be empty"))
     else if (salt.(byteLength) =? 0)%nat
     then throw (JsError (createCryptoError validation "EMPTY_SALT"
                            "Salt cannot be empty"))
     else
       let hashAlgorithm :=
         if params.(hashFunction) =? "sha512" then "sha512" else "sha256" in
       saltBuffer <- NodeCrypto.Buffer_from salt ;;
       derivedKey <- NodeCrypto.pbkdf2 P password saltBuffer
                       params.(iterations) params.(keyLength) hashAlgorithm ;;
       TypedArray.new_of_array derivedKey)
    (fun error =>
       if isCryptoError error then throw error
       else
         let sanitizedMessage := sanitizeErrorMessage error in
         throw (JsError (createCryptoError key_derivation "DERIVATION_FAILED"
                           sanitizedMessage))).

Definition encrypt (data key : Uint8Array) : Js EncryptedData :=
  try_catch
    (if (data.(byteLength) =? 0)%nat
     then throw (JsError (createCryptoError validation "EMPTY_DATA"
                            "Data cannot be empty"))
     else if negb (key.(byteLength) =? 32)%nat
     then throw (JsError (createCryptoError validation "INVALID_KEY_LENGTH"
                            "Key must be 32 bytes for AES-256"))
     else
       iv <- generateIV None ;;
       salt <- generateSalt None ;;
       cipher <- NodeCrypto.createCipheriv CIPHER_ALGORITHM key iv ;;
       input <- NodeCrypto.Buffer_from data ;;
       ' (cipher, head) <- NodeCrypto.update P cipher input ;;
       ' (cipher, tail) <- NodeCrypto.cipher_final cipher ;;
       encrypted <- NodeCrypto.Buffer_concat head tail ;;
       authTag <- NodeCrypto.getAuthTag P cipher ;;
       data' <- TypedArray.new_of_array encrypted ;;
       iv' <- TypedArray.new_of_array iv ;;
       salt' <- TypedArray.new_of_array salt ;;
       authTag' <- TypedArray.new_of_array authTag ;;
       ret {| data := data'; iv := iv'; salt := salt'; authTag := authTag' |})
    (fun error =>
       if isCryptoError error then throw error
       else
         let sanitizedMessage := sanitizeErrorMessage error in
         throw (JsError (createCryptoError encryption "ENCRYPTION_FAILED"
                           sanitizedMessage))).

Definition decrypt (encryptedData : EncryptedData) (key : Uint8Array)
    : Js (option Uint8Array) :=
  try_catch
    (if negb (key.(byteLength) =? 32)%nat
     then throw (JsError (createCryptoError validation "INVALID_KEY_LENGTH"
                            "Key must be 32 bytes for AES-256"))
     else if (encryptedData.(data).(byteLength) =? 0)%nat
     then throw (JsError (createCryptoError validation "EMPTY_ENCRYPTED_DATA"
                            "Encrypted data cannot be empty"))
     else if negb (encryptedData.(iv).(byteLength) =? DEFAULT_IV_LENGTH)%nat
     then throw (JsError (createCryptoError validation "INVALID_IV_LENGTH"
                            "IV must be 12 bytes for AES-256-GCM"))
     else if negb (encryptedData.(authTag).(byteLength) =? AUTH_TAG_LENGTH)%nat
     then throw (JsError (createCryptoError validation "INVALID_AUTH_TAG_LENGTH"
                            "Auth tag must be 16 bytes for AES-256-GCM"))
     else
       decipher <- NodeCrypto.createDecipheriv CIPHER_ALGORITHM key
                     encryptedData.(iv) ;;
       tag <- NodeCrypto.Buffer_from encryptedData.(authTag) ;;
       decipher <- NodeCrypto.setAuthTag decipher tag ;;
       input <- NodeCrypto.Buffer_from encryptedData.(data) ;;
       ' (decipher, head) <- NodeCrypto.update P decipher input ;;
       ' (decipher, tail) <- NodeCrypto.decipher_final P decipher ;;
       decrypted <- NodeCrypto.Buffer_concat head tail ;;
       result <- TypedArray.new_of_array decrypted ;;
       ret (Some result))
    (fun error =>
       if isCryptoError error then throw error
       else ret None).

End Service.
End NodeCryptoService.

(** ** Backend B ([src/services/web-crypto.ts]) *)

Module WebCryptoService.
Section Service.
Context (P : Primitives).

Definition CIPHER_ALGORITHM : string := "AES-GCM".
Definition DEFAULT_IV_LENGTH : nat := 12.
Definition DEFAULT_SALT_LENGTH : nat := 32.
Definition AUTH_TAG_LENGTH : nat := 16.
Definition TAG_LENGTH_BITS : Z := 128.

Definition generateSalt (length : option Z) : Js Uint8Array :=
  let length := match length with
                | Some l => l
                | None => Z.of_nat DEFAULT_SALT_LENGTH
                end in
  try_catch
    (salt <- TypedArray.new_of_length length ;;
     WebCrypto.getRandomValues salt ;;;
     ret salt)
    (fun error =>
       let sanitizedMessage := sanitizeErrorMessage error in
       throw (JsError (createCryptoError initialization "SALT_GENERATION_FAILED"
                         sanitizedMessage))).

Definition generateIV (length : option Z) : Js Uint8Array :=
  let length := match length with
                | Some l => l
                | None => Z.of_nat DEFAULT_IV_LENGTH
                end in
  try_catch
    (iv <- TypedArray.new_of_length length ;;
     WebCrypto.getRandomValues iv ;;;
     ret iv)
    (fun error =>
       let sanitizedMessage := sanitizeErrorMessage error in
       throw (JsError (createCryptoError initialization "IV_GENERATION_FAILED"
                         sanitizedMessage))).

Definition deriveKey (password : string) (salt : Uint8Array)
    (params : KeyDerivationParams) : Js Uint8Array :=
  try_catch
    (if (String.length password =? 0)%nat
     then throw (JsError (createCryptoError validation "EMPTY_PASSWORD"
                            "Password cannot be empty"))
     else if (salt.(byteLength) =? 0)%nat
     then throw (JsError (createCryptoError validation "EMPTY_SALT"
                            "Salt cannot be empty"))
     else
       passwordBuffer <- TextEncoder_encode password ;;
       keyMaterial <- WebCrypto.importKey P "raw" passwordBuffer "PBKDF2" false
                        ["deriveBits"] ;;
       TypedArray.fill passwordBuffer x00 ;;;
       let hashAlgorithm :=
         if params.(hashFunction) =? "sha512" then "SHA-512" else "SHA-256" in
       derivedBits <- WebCrypto.deriveBits P salt params.(iterations)
                        hashAlgorithm keyMaterial (params.(keyLength) * 8) ;;
       TypedArray.new_of_buffer derivedBits)
    (fun error =>
       if isCryptoError error then throw error
       else
         let sanitizedMessage := sanitizeErrorMessage error in
         throw (JsError (createCryptoError key_derivation "DERIVATION_FAILED"
                           sanitizedMessage))).

Definition encrypt (data key : Uint8Array) : Js EncryptedData :=
  try_catch
    (if (data.(byteLength) =? 0)%nat
     then throw (JsError (createCryptoError validation "EMPTY_DATA"
                            "Data cannot be empty"))
     else if negb (key.(byteLength) =? 32)%nat
     then throw (JsError (createCryptoError validation "INVALID_KEY_LENGTH"
                            "Key must be 32 bytes for AES-256"))
     else
       iv <- generateIV None ;;
       salt <- generateSalt None ;;
       cryptoKey <- WebCrypto.importKey P "raw" key CIPHER_ALGORITHM false
                      ["encrypt"] ;;
       encryptedBuffer <- WebCrypto.encrypt P CIPHER_ALGORITHM iv
                            TAG_LENGTH_BITS cryptoKey data ;;
       encryptedArray <- TypedArray.new_of_buffer encryptedBuffer ;;
       encryptedData <- TypedArray.slice encryptedArray 0
                          (Some (- Z.of_nat AUTH_TAG_LENGTH)%Z) ;;
       authTag <- TypedArray.slice encryptedArray
                    (- Z.of_nat AUTH_TAG_LENGTH)%Z None ;;
       ret {| data := encryptedData; iv := iv; salt := salt; authTag := authTag |})
    (fun error =>
       if isCryptoError error then throw error
       else
         let sanitizedMessage := sanitizeErrorMessage error in
         throw (JsError (createCryptoError encryption "ENCRYPTION_FAILED"
                           sanitizedMessage))).

Definition decrypt (encryptedData : EncryptedData) (key : Uint8Array)
    : Js (option Uint8Array) :=
  try_catch
    (if negb (key.(byteLength) =? 32)%nat
     then throw (JsError (createCryptoError validation "INVALID_KEY_LENGTH"
                            "Key must be 32 bytes for AES-256"))
     else if (encryptedData.(data).(byteLength) =? 0)%nat
     then throw (JsError (createCryptoError validation "EMPTY_ENCRYPTED_DATA"
                            "Encrypted data cannot be empty"))
     else if negb (encryptedData.(iv).(byteLength) =? DEFAULT_IV_LENGTH)%nat
     then throw (JsError (createCryptoError validation "INVALID_IV_LENGTH"
                            "IV must be 12 bytes for AES-256-GCM"))
     else if negb (encryptedData.(authTag).(byteLength) =? AUTH_TAG_LENGTH)%nat
     then throw (JsError (createCryptoError validation "INVALID_AUTH_TAG_LENGTH"
                            "Auth tag must be 16 bytes for AES-256-GCM"))
     else
       cryptoKey <- WebCrypto.importKey P "raw" key CIPHER_ALGORITHM false
                      ["decrypt"] ;;
       combinedData <- TypedArray.new_of_length
                         (Z.of_nat (encryptedData.(data).(byteLength)
                                    + encryptedData.(authTag).(byteLength))) ;;
       TypedArray.set combinedData encryptedData.(data) 0 ;;;
       TypedArray.set combinedData encryptedData.(authTag)
         encryptedData.(data).(byteLength) ;;;
       decryptedBuffer <- WebCrypto.decrypt P CIPHER_ALGORITHM encryptedData.(iv)
                            TAG_LENGTH_BITS cryptoKey combinedData ;;
       result <- TypedArray.new_of_buffer decryptedBuffer ;;
       ret (Some result))
    (fun error =>
       if isCryptoError error then throw error
       else ret None).

End Service.
End WebCryptoService.

(** ** Selection factory ([src/services/crypto-factory.ts]) *)

(** The values the capability probes look at. *)
#[local] Set Warnings "-register-all".
Inductive JsValue : Type :=
| VUndefined
| VNull
| VBoolean (b : bool)
| VNumber (n : Z)
| VString (s : string)
| VFunction
| VObject (properties : list (string * JsValue)).

Definition typeof (v : JsValue) : string :=
  match v with
  | VUndefined => "undefined"
  | VNull => "object"
  | VBoolean _ => "boolean"
  | VNumber _ => "number"
  | VString _ => "string"
  | VFunction => "function"
  | VObject _ => "object"
  end.

Fixpoint lookup (properties : list (string * JsValue)) (key : string) : JsValue :=
  match properties with
  | [] => VUndefined
  | (k, v) :: rest => if k =? key then v else lookup rest key
  end.

(** [v.key]: reading a property of [undefined] or [null] throws. *)
Definition member (v : JsValue) (key : string) : Completion JsValue :=
  match v with
  | VUndefined =>
      Abrupt (TypeError ("Cannot read properties of undefined (reading '"
                         ++ key ++ "')")%string)
  | VNull =>
      Abrupt (TypeError ("Cannot read properties of null (reading '"
                         ++ key ++ "')")%string)
  | VObject properties => Normal (lookup properties key)
  | _ => Normal VUndefined
  end.

(** A global identifier: not declared, declared with a value, or (as the
    test-suite does for [process]) an accessor that throws. *)
Inductive Global (A : Type) : Type :=
| Undeclared
| Declared (value : A)
| Faulting (e : unknown).
Arguments Undeclared {A}.
Arguments Declared {A} value.
Arguments Faulting {A} e.

Record Globals : Type := mkGlobals {
  process : Global JsValue;
  crypto : Global JsValue
}.

Inductive CryptoService : Type :=
| NodeCryptoService_instance      (* [new NodeCryptoService()] *)
| WebCryptoService_instance.      (* [new WebCryptoService()] *)

Module DefaultCryptoServiceFactory.

(** No [try] block here: what reading [crypto] or a member of it throws
    leaves the probe. *)
Definition isWebCryptoAvailable (g : Globals) : Completion bool :=
  match g.(crypto) with
  | Undeclared => Normal false           (* [typeof crypto] is ['undefined'] *)
  | Faulting e => Abrupt e
  | Declared c =>
      if typeof c =? "undefined" then Normal false
      else
        match member c "subtle" with
        | Abrupt e => Abrupt e
        | Normal subtle =>
            if typeof subtle =? "undefined" then Normal false
            else
              match member c "getRandomValues" with
              | Abrupt e => Abrupt e
              | Normal getRandomValues =>
                  Normal (negb (typeof getRandomValues =? "undefined"))
              end
        end
  end.

(** The body of the [try] block of [isNodeEnvironment]. *)
Definition probe_process (g : Globals) : Completion bool :=
  match g.(process) with
  | Undeclared => Normal false           (* [typeof process] is ['undefined'] *)
  | Faulting e => Abrupt e
  | Declared p =>
      if typeof p =? "undefined" then Normal false
      else
        match member p "versions" with
        | Abrupt e => Abrupt e
        | Normal versions =>
            if negb (typeof versions =? "object") then Normal false
            else
              match versions with
              | VNull => Normal false
              | _ =>
                  match member versions "node" with
                  | Abrupt e => Abrupt e
                  | Normal node => Normal (typeof node =? "string")
                  end
              end
        end
  end.

Definition isNodeEnvironment (g : Globals) : bool :=
  match probe_process g with
  | Normal b => b
  | Abrupt _ => false
  end.

Definition createForEnvironment (g : Globals) (env : string)
    : Completion CryptoService :=
  if env =? "node" then
    if negb (isNodeEnvironment g)
    then Abrupt (JsError (createCryptoError initialization "ENVIRONMENT_MISMATCH"
                            "Node.js environment not detected"))
    else Normal NodeCryptoService_instance
  else if (env =? "browser") || (env =? "worker") then
    match isWebCryptoAvailable g with
    | Abrupt e => Abrupt e
    | Normal available =>
        if negb available
        then Abrupt (JsError (createCryptoError initialization "WEBCRYPTO_UNAVAILABLE"
                                "WebCrypto API not available in this environment"))
        else Normal WebCryptoService_instance
    end
  else
    Abrupt (JsError (createCryptoError initialization "UNKNOWN_ENVIRONMENT"
                       ("Unknown environment: " ++ env)%string)).

Definition createForPerformance (g : Globals) (level : string)
    : Completion CryptoService :=
  if level =? "high" then
    if isNodeEnvironment g then Normal NodeCryptoService_instance
    else
      match isWebCryptoAvailable g with
      | Abrupt e => Abrupt e
      | Normal true => Normal WebCryptoService_instance
      | Normal false =>
          Abrupt (JsError (createCryptoError initialization "NO_CRYPTO_AVAILABLE"
                             "No suitable crypto implementation available"))
      end
  else if (level =? "medium") || (level =? "low") then
    match isWebCryptoAvailable g with
    | Abrupt e => Abrupt e
    | Normal true => Normal WebCryptoService_instance
    | Normal false =>
        if isNodeEnvironment g then Normal NodeCryptoService_instance
        else Abrupt (JsError (createCryptoError initialization "NO_CRYPTO_AVAILABLE"
                               "No suitable crypto implementation available"))
    end
  else
    Abrupt (JsError (createCryptoError initialization "UNKNOWN_PERFORMANCE_LEVEL"
                       ("Unknown performance level: " ++ level)%string)).

End DefaultCryptoServiceFactory.

(** ** Calls on a service instance

    Both classes implement the one interface [CryptoService]:
    [service.deriveKey(...)], [service.encrypt(...)] and the like on what the
    factory returned run the method of the class that was instantiated. *)

Module Service.
Section Methods.
Context (P : Primitives).

Definition generateSalt (service : CryptoService) : option Z -> Js Uint8Array :=
  match service with
  | NodeCryptoService_instance => NodeCryptoService.generateSalt
  | WebCryptoService_instance => WebCryptoService.generateSalt
  end.

Definition generateIV (service : CryptoService) : option Z -> Js Uint8Array :=
  match service with
  | NodeCryptoService_instance => NodeCryptoService.generateIV
  | WebCryptoService_instance => WebCryptoService.generateIV
  end.

Definition deriveKey (service : CryptoService)
    : string -> Uint8Array -> KeyDerivationParams -> Js Uint8Array :=
  match service with
  | NodeCryptoService_instance => NodeCryptoService.deriveKey P
  | WebCryptoService_instance => WebCryptoService.deriveKey P
  end.

Definition encrypt (service : CryptoService)
    : Uint8Array -> Uint8Array -> Js EncryptedData :=
  match service with
  | NodeCryptoService_instance => NodeCryptoService.encrypt P
  | WebCryptoService_instance => WebCryptoService.encrypt P
  end.

Definition decrypt (service : CryptoService)
    : EncryptedData -> Uint8Array -> Js (option Uint8Array) :=
  match service with
  | NodeCryptoService_instance => NodeCryptoService.decrypt P
  | WebCryptoService_instance => WebCryptoService.decrypt P
  end.

End Methods.
End Service.


(** ** Vocabulary of the statements *)

(** What the capability probes detect. *)
Definition NodeRuntimePresent (g : Globals) : Prop :=
  exists properties versions node,
    g.(process) = Declared (VObject properties) /\
    lookup properties "versions" = VObject versions /\
    lookup versions "node" = VString node.

Definition WebCryptoPresent (g : Globals) : Prop :=
  exists properties,
    g.(crypto) = Declared (VObject properties) /\
    lookup properties "subtle" <> VUndefined /\
    lookup properties "getRandomValues" <> VUndefined.

(** The global [crypto] can be probed: it is not [null], and reading it does
    not throw. *)
Definition CryptoReadable (g : Globals) : Prop :=
  g.(crypto) <> Declared VNull /\ forall e, g.(crypto) <> Faulting e.

(** Parameters that every host takes: an iteration count that fits a signed
    32-bit integer, a key length whose count of bits fits an unsigned one. *)
Definition supported (params : KeyDerivationParams) : Prop :=
  (1 <= params.(iterations) <= 2 ^ 31 - 1)%Z /\
  (1 <= params.(keyLength) < 2 ^ 29)%Z.

(** The number of bytes a backend derives when it is asked for [keyLength]:
    the WebCrypto backend hands the host the count of bits, which the host
    takes as an unsigned 32-bit integer. *)
Definition derived_length (service : CryptoService) (params : KeyDerivationParams)
    : Z :=
  match service with
  | NodeCryptoService_instance => params.(keyLength)
  | WebCryptoService_instance => params.(keyLength) mod 2 ^ 29
  end.

(** The host imports the password as key material. *)
Definition importable (P : Primitives) (password : string) : Prop :=
  P.(refuses) (JsString.utf8 password) = None.

(** The lower-cased message names a secret. *)
Definition mentions_secret (msg : string) : Prop :=
  let lowered := JsString.toLowerCase msg in
  JsString.Substring "key" lowered \/
  JsString.Substring "password" lowered \/
  JsString.Substring "secret" lowered.

(** The store only gained buffers from [w] to [w']. *)
Definition grows (w w' : World) : Prop :=
  exists l, w'.(heap) = w.(heap) ++ l.

(** [a] is a view, created after [w], of a whole buffer that holds [c] in [w']. *)
Definition fresh (w w' : World) (a : Uint8Array) (c : bytes) : Prop :=
  grows w w' /\
  (length w.(heap) <= a.(buffer))%nat /\
  Store.valid w'.(heap) a /\
  Store.content w'.(heap) a = c /\
  a.(byteLength) = length c.

(** The CSPRNG output from position [from], [n] bytes long. *)
Definition csprng (w : World) (from n : nat) : bytes :=
  map w.(entropy) (seq from n).

(** Every array that exists in [w] is backed by another buffer than [a]. *)
Definition unshared (w : World) (a : Uint8Array) : Prop :=
  forall b, Store.valid w.(heap) b -> ~ Store.shares_storage a b.

Definition separate (e : EncryptedData) : Prop :=
  NoDup [e.(data).(buffer); e.(iv).(buffer); e.(salt).(buffer); e.(authTag).(buffer)].

(** What a successful [encrypt] of [plaintext] under [key], started in [w]
    and ended in [w'], returns: a nonce and a salt drawn from the CSPRNG at
    its position in [w], the ciphertext and its tag under that nonce, each in
    a buffer of its own that did not exist in [w]. *)
Record sealed (P : Primitives) (w w' : World) (plaintext key : bytes)
    (e : EncryptedData) : Prop := mkSealed {
  sealed_grows : grows w w';
  sealed_iv : Store.content w'.(heap) e.(iv) = csprng w w.(drawn) 12;
  sealed_salt : Store.content w'.(heap) e.(salt) = csprng w (w.(drawn) + 12) 32;
  sealed_data : Store.content w'.(heap) e.(data)
                = P.(GCTR) key (csprng w w.(drawn) 12) plaintext;
  sealed_authTag : Store.content w'.(heap) e.(authTag)
                   = P.(GTAG) key (csprng w w.(drawn) 12)
                       (P.(GCTR) key (csprng w w.(drawn) 12) plaintext);
  sealed_valid : Store.valid w'.(heap) e.(data) /\ Store.valid w'.(heap) e.(iv) /\
                 Store.valid w'.(heap) e.(salt) /\ Store.valid w'.(heap) e.(authTag);
  sealed_lengths : e.(data).(byteLength) = length plaintext /\
                   e.(iv).(byteLength) = 12%nat /\
                   e.(salt).(byteLength) = 32%nat /\
                   e.(authTag).(byteLength) = 16%nat;
  sealed_unshared : unshared w e.(data) /\ unshared w e.(iv) /\
                    unshared w e.(salt) /\ unshared w e.(authTag);
  sealed_separate : separate e
}.

(** [post m w Q]: the call [m], started in [w], ends in a completion and a
    world that satisfy [Q]. *)
Definition post {A} (m : Js A) (w : World)
    (Q : Completion A -> World -> Prop) : Prop :=
  Q (fst (m w)) (snd (m w)).

(** [a] is the view of the whole of the one buffer allocated since [w0]; that
    buffer holds [x] in [w]. *)
Definition newest (w0 w : World) (a : Uint8Array) (x : bytes) : Prop :=
  w.(heap) = w0.(heap) ++ [x] /\
  a = {| buffer := length w0.(heap); byteOffset := 0; byteLength := length x |}.

(** The outcome of a call is the rejection, with the given code and category
    [validation], of its input; the world is as it was before the call. *)
Definition rejected {A} (outcome : Completion A * World) (w : World)
    (code : string) : Prop :=
  exists msg,
    outcome = (Abrupt (JsError (createCryptoError validation code msg)), w).

(** What the returned record of a successful [encrypt] looks like. *)
Definition fresh_fields (w w' : World) (e : EncryptedData) : Prop :=
  (e.(iv).(byteLength) = 12%nat /\ e.(salt).(byteLength) = 32%nat /\
   e.(authTag).(byteLength) = 16%nat) /\
  (Store.content w'.(heap) e.(iv) = csprng w w.(drawn) 12 /\
   Store.content w'.(heap) e.(salt) = csprng w (w.(drawn) + 12) 32) /\
  separate e /\
  (unshared w e.(data) /\ unshared w e.(iv) /\
   unshared w e.(salt) /\ unshared w e.(authTag)).

(** The hash the parameters select: SHA-512 for ["sha512"], SHA-256 for
    every other value. *)
Definition selected_hash (params : KeyDerivationParams) : Hash :=
  if params.(hashFunction) =? "sha512" then SHA512 else SHA256.

(** A derivation either returns, or fails with DERIVATION_FAILED around the
    sanitized message of a value that is not a [CryptoError]. *)
Definition derived_or_wrapped {A} (outcome : Completion A * World) : Prop :=
  match fst outcome with
  | Normal _ => True
  | Abrupt x =>
      exists y, isCryptoError y = false /\
                x = JsError (createCryptoError key_derivation "DERIVATION_FAILED"
                               (sanitizeErrorMessage y))
  end.

(** Two calls ended alike: with arrays of the same bytes, or with the same
    thrown value. *)
Definition same_outcome (r1 r2 : Completion Uint8Array * World) : Prop :=
  match fst r1, fst r2 with
  | Normal a, Normal b =>
      Store.content (heap (snd r1)) a = Store.content (heap (snd r2)) b
  | Abrupt x, Abrupt y => x = y
  | _, _ => False
  end.

(** [always R ok m]: every run of [m], whether it returns or throws, relates
    the world it starts in to the world it ends in by [R], and throws
    nothing but values that satisfy [ok]. *)
Definition always {A} (R : World -> World -> Prop) (ok : unknown -> Prop)
    (m : Js A) : Prop :=
  forall w, R w (snd (m w)) /\
            match fst (m w) with
            | Normal _ => True
            | Abrupt e => ok e
            end.

(** How a run that started in [w0] ended: in a world that [R] relates to
    [w0], having returned, or thrown a value that satisfies [ok]. *)
Definition ended {A} (R : World -> World -> Prop) (ok : unknown -> Prop)
    (w0 : World) (r : Completion A) (w' : World) : Prop :=
  R w0 w' /\
  match r with
  | Normal _ => True
  | Abrupt e => ok e
  end.

(** The CSPRNG is where it was. *)
Definition same_randomness (w w' : World) : Prop :=
  entropy w' = entropy w /\ drawn w' = drawn w.

(** Every array of [w] is in [w'] where and what it was in [w]. *)
Definition untouched (w w' : World) : Prop :=
  forall a, Store.valid w.(heap) a ->
    Store.valid w'.(heap) a /\ Store.content w'.(heap) a = Store.content w.(heap) a.

(** An error of the host: not a [CryptoError], so a [catch] clause of the
    services does not rethrow it. *)
Definition host_failure (e : unknown) : Prop := isCryptoError e = false.

(** A [validation] error with one of the given codes. *)
Definition validation_error (codes : list string) (e : unknown) : Prop :=
  exists c msg, In c codes /\ e = JsError (createCryptoError validation c msg).

(** A failure wrapped by a [catch] clause: the given category and code around
    the sanitized message of what the host threw. *)
Definition wrapped (cat : Category) (c : string) (e : unknown) : Prop :=
  exists y, host_failure y /\
            e = JsError (createCryptoError cat c (sanitizeErrorMessage y)).

(** What the body of a [try] block of the services throws: an error of the
    host, or one of the block's own validation errors. *)
Definition host_or_validation (codes : list string) (e : unknown) : Prop :=
  host_failure e \/ validation_error codes e.

(** What leaves a method that rethrows its validation errors and wraps every
    other failure. *)
Definition validation_or_wrapped (codes : list string) (cat : Category)
    (c : string) (e : unknown) : Prop :=
  validation_error codes e \/ wrapped cat c e.

(** [a] is a new array of [n] random bytes: the next [n] bytes of the
    CSPRNG, in a buffer that backs no array of [w]; the CSPRNG moved on by
    [n], and the arrays of [w] are what they were. *)
Definition delivered (w w' : World) (a : Uint8Array) (n : nat) : Prop :=
  a.(byteLength) = n /\
  Store.valid w'.(heap) a /\
  Store.content w'.(heap) a = csprng w w.(drawn) n /\
  unshared w a /\
  untouched w w' /\
  w'.(entropy) = w.(entropy) /\
  w'.(drawn) = (w.(drawn) + n)%nat.

(** The errors [encrypt] rethrows as they are: its own validation errors,
    and those of the two generators it calls. *)
Definition encrypt_rethrows (e : unknown) : Prop :=
  validation_error ["EMPTY_DATA"; "INVALID_KEY_LENGTH"] e \/
  wrapped initialization "IV_GENERATION_FAILED" e \/
  wrapped initialization "SALT_GENERATION_FAILED" e.

(** What leaves [encrypt] by a throw. *)
Definition encrypt_throws (e : unknown) : Prop :=
  encrypt_rethrows e \/ wrapped encryption "ENCRYPTION_FAILED" e.

(** Two records hold the same bytes, field by field. *)
Definition same_record (w1 : World) (e1 : EncryptedData)
    (w2 : World) (e2 : EncryptedData) : Prop :=
  Store.content w1.(heap) e1.(data) = Store.content w2.(heap) e2.(data) /\
  Store.content w1.(heap) e1.(iv) = Store.content w2.(heap) e2.(iv) /\
  Store.content w1.(heap) e1.(salt) = Store.content w2.(heap) e2.(salt) /\
  Store.content w1.(heap) e1.(authTag) = Store.content w2.(heap) e2.(authTag).

(** Two calls of [decrypt] ended alike: the same error, [null] twice, or
    arrays of the same bytes. *)
Definition same_opening (r1 r2 : Completion (option Uint8Array) * World) : Prop :=
  match fst r1, fst r2 with
  | Normal (Some a), Normal (Some b) =>
      Store.content (heap (snd r1)) a = Store.content (heap (snd r2)) b
  | Normal None, Normal None => True
  | Abrupt x, Abrupt y => x = y
  | _, _ => False
  end.

(** ** A small instance, for the examples

    Stand-ins for the host's primitives with the algebraic shape the
    development asks for (they are not cryptography), and a world that holds
    a key of 32 bytes, a message, a salt and a second key. *)

Module Example.

Definition flip (b : byte) : byte :=
  let '(b0, (b1, (b2, (b3, (b4, (b5, (b6, b7))))))) := Byte.to_bits b in
  Byte.of_bits (negb b0, (b1, (b2, (b3, (b4, (b5, (b6, negb b7))))))).

Definition primitives : Primitives :=
  {| GCTR := fun key iv x => map flip x;
     GTAG := fun key iv c => firstn 16 (c ++ key);
     PBKDF2 := fun h password salt iterations dkLen =>
       firstn (Z.to_nat dkLen)
         (match h with SHA256 => x01 | SHA512 => x02 end
          :: repeat (hd x00 (password ++ salt)) (Z.to_nat dkLen));
     refuses := fun material => None |}.

(** The host of the test-suite's "should handle WebCrypto errors
    gracefully": its [importKey] rejects. *)
Definition rejecting : Primitives :=
  {| GCTR := GCTR primitives; GTAG := GTAG primitives; PBKDF2 := PBKDF2 primitives;
     refuses := fun material => Some "WebCrypto error" |}.

Definition world : World :=
  {| heap := [repeat x07 32; [x41; x42; x43]; [x73; x61; x6c; x74]; repeat x09 32];
     entropy := fun n => match Byte.of_nat (n mod 256) with
                         | Some b => b
                         | None => x00
                         end;
     drawn := 0;
     calls := [] |}.

Definition key : Uint8Array := {| buffer := 0; byteOffset := 0; byteLength := 32 |}.
Definition message : Uint8Array := {| buffer := 1; byteOffset := 0; byteLength := 3 |}.
Definition kdf_salt : Uint8Array := {| buffer := 2; byteOffset := 0; byteLength := 4 |}.
Definition short_key : Uint8Array := {| buffer := 0; byteOffset := 0; byteLength := 16 |}.
Definition other_key : Uint8Array := {| buffer := 3; byteOffset := 0; byteLength := 32 |}.
Definition empty : Uint8Array := {| buffer := 1; byteOffset := 0; byteLength := 0 |}.

Definition params : KeyDerivationParams :=
  {| iterations := 1; keyLength := 20; algorithm := "pbkdf2"; hashFunction := "sha256" |}.

(** A record whose tag does not belong to its ciphertext. *)
Definition forged : EncryptedData :=
  {| data := message;
     iv := {| buffer := 0; byteOffset := 0; byteLength := 12 |};
     salt := empty;
     authTag := {| buffer := 0; byteOffset := 16; byteLength := 16 |} |}.

(** What the native backend seals of [message] under [key] in [world], and
    the world it leaves. *)
Definition sealing : Completion EncryptedData * World :=
  NodeCryptoService.encrypt primitives message key world.

Definition vault : EncryptedData :=
  match fst sealing with
  | Normal e => e
  | Abrupt _ => forged
  end.

Definition vault_world : World := snd sealing.

(** A host with Node's [process] and a [crypto] global, and one with
    [crypto] alone. *)
Definition node_process : JsValue :=
  VObject [("versions", VObject [("node", VString "22.0.0")])].

Definition web_crypto : JsValue :=
  VObject [("subtle", VObject [("importKey", VFunction)]);
           ("getRandomValues", VFunction)].

Definition node_host : Globals :=
  {| process := Declared node_process; crypto := Declared web_crypto |}.

Definition worker_host : Globals :=
  {| process := Undeclared; crypto := Declared web_crypto |}.

(** The hosts of the test-suite that lack a backend: [process] replaced by
    an accessor that throws, [crypto] deleted. *)
Definition bare_host : Globals :=
  {| process := Faulting (JsError (Error "process is not defined"));
     crypto := Undeclared |}.

Definition node_only_host : Globals :=
  {| process := Declared node_process; crypto := Undeclared |}.

(** Hosts whose global [crypto] is [null]: under Node, and elsewhere. *)
Definition null_crypto_node_host : Globals :=
  {| process := Declared node_process; crypto := Declared VNull |}.

Definition null_crypto_host : Globals :=
  {| process := Undeclared; crypto := Declared VNull |}.

(** A host whose [process] is [null]. *)
Definition null_process_host : Globals :=
  {| process := Declared VNull; crypto := Undeclared |}.

End Example.

(** * Properties *)

(** ** Strings *)

Lemma startsWith_spec : forall needle s,
  JsString.startsWith s needle = true <-> exists after, s = (needle ++ after)%string.
Proof.
  induction needle as [|a needle IH]; intros s; cbn.
  - destruct s; split; intros; eauto.
  - destruct s as [|b s]; cbn.
    + split; [discriminate | intros [after H]; discriminate].
    + rewrite andb_true_iff, Ascii.eqb_eq, IH. split.
      * intros [-> [after ->]]. now exists after.
      * intros [after H]. injection H as -> ->. split; [reflexivity | now exists after].
Qed.

Lemma includes_spec : forall s needle,
  JsString.includes s needle = true <-> JsString.Substring needle s.
Proof.
  unfold JsString.Substring.
  induction s as [|c s IH]; intros needle.
  - cbn [JsString.includes]. rewrite orb_false_r, startsWith_spec. split.
    + intros [after H]. exists EmptyString, after. exact H.
    + intros [[|x before] [after H]]; [now exists after | discriminate].
  - cbn [JsString.includes]. rewrite orb_true_iff, startsWith_spec, IH. split.
    + intros [[after H] | (before & after & H)].
      * exists EmptyString, after. exact H.
      * exists (String c before), after. cbn. now rewrite H.
    + intros [[|x before] [after H]].
      * left. now exists after.
      * right. cbn in H. injection H as _ H. now exists before, after.
Qed.

Lemma mentions_secret_decide : forall msg,
  let lowered := JsString.toLowerCase msg in
  (JsString.includes lowered "key"
   || JsString.includes lowered "password"
   || JsString.includes lowered "secret") = true <-> mentions_secret msg.
Proof.
  intros msg lowered. unfold mentions_secret. fold lowered.
  rewrite !orb_true_iff, !includes_spec. tauto.
Qed.

(** [toLowerCase] goes by code point: capital sigma has two lower cases,
    U+0130 becomes two code points, the Kelvin sign U+212A becomes "k". *)
Example toLowerCase_unicode :
  let kelvin := String "226" (String "132" (String "170" "")) in
  JsString.toLowerCase "ΟΔΥΣΣΕΥΣ Σ ΑΣ." = "οδυσσευς σ ας." /\
  JsString.toLowerCase "İstanbul CLÉ" = "i̇stanbul clé" /\
  JsString.toLowerCase (kelvin ++ "EY")%string = "key" /\
  JsString.toLowerCase "Invalid KEY provided" = "invalid key provided".
Proof. vm_compute. repeat split. Qed.

(** ** Error taxonomy *)

(** C5: [sanitizeErrorMessage] answers "Cryptographic operation failed" for
    an [Error] whose lower-cased message contains "key", "password" or
    "secret", the message itself (unchanged) for any other [Error], and
    "Unknown cryptographic error" for every value that is not an [Error]. *)
Theorem sanitizeErrorMessage_cases :
  (forall e, mentions_secret e.(message) ->
             sanitizeErrorMessage (JsError e) = "Cryptographic operation failed") /\
  (forall e, ~ mentions_secret e.(message) ->
             sanitizeErrorMessage (JsError e) = e.(message)) /\
  (forall x, (forall e, x <> JsError e) ->
             sanitizeErrorMessage x = "Unknown cryptographic error").
Proof.
  repeat split.
  - intros e H. apply mentions_secret_decide in H. cbn in *. now rewrite H.
  - intros e H. cbn.
    destruct (_ || _ || _) eqn:E; [| reflexivity].
    exfalso. apply H. now apply mentions_secret_decide.
  - intros [e | s | properties | |] H; try reflexivity. now elim (H e).
Qed.

(** The scenario of the test-suite. *)
Example sanitizeErrorMessage_scenario :
  sanitizeErrorMessage (JsError (Error "Invalid key provided"))
    = "Cryptographic operation failed" /\
  sanitizeErrorMessage (JsError (Error "Password is too weak"))
    = "Cryptographic operation failed" /\
  sanitizeErrorMessage (JsError (Error "Invalid data format"))
    = "Invalid data format" /\
  sanitizeErrorMessage (JsStringValue "string error")
    = "Unknown cryptographic error" /\
  sanitizeErrorMessage JsNull = "Unknown cryptographic error".
Proof. repeat split. Qed.

(** ** Selection factory *)

Lemma typeof_undefined : forall v, (typeof v =? "undefined") = true <-> v = VUndefined.
Proof. intros []; cbn; split; intros; congruence. Qed.

Lemma typeof_object : forall v,
  (typeof v =? "object") = true <-> v = VNull \/ exists properties, v = VObject properties.
Proof.
  intros []; cbn; split; intros H; try discriminate; eauto;
    destruct H as [H | [? H]]; congruence.
Qed.

Lemma typeof_string : forall v, (typeof v =? "string") = true <-> exists s, v = VString s.
Proof.
  intros []; cbn; split; intros H; try discriminate; eauto; destruct H; congruence.
Qed.

Lemma isNodeEnvironment_spec : forall g,
  DefaultCryptoServiceFactory.isNodeEnvironment g = true <-> NodeRuntimePresent g.
Proof.
  intros g. unfold DefaultCryptoServiceFactory.isNodeEnvironment,
    DefaultCryptoServiceFactory.probe_process, NodeRuntimePresent.
  destruct (process g) as [|p|e].
  - split; [discriminate | intros (? & ? & ? & H & _); discriminate].
  - destruct p as [| | | | | |properties]; cbn;
      try (split; [discriminate | intros (? & ? & ? & H & _); discriminate]).
    destruct (lookup properties "versions") as [| | | | | |versions] eqn:V; cbn;
      try (split; [discriminate | intros (? & ? & ? & H & H' & _); congruence]).
    rewrite typeof_string. split.
    + intros [s H]. now exists properties, versions, s.
    + intros (? & ? & s & H & H' & H''). injection H as <-.
      rewrite V in H'. injection H' as <-. now exists s.
  - split; [discriminate | intros (? & ? & ? & H & _); discriminate].
Qed.

Lemma isNodeEnvironment_absent : forall g,
  ~ NodeRuntimePresent g -> DefaultCryptoServiceFactory.isNodeEnvironment g = false.
Proof.
  intros g H. destruct (DefaultCryptoServiceFactory.isNodeEnvironment g) eqn:E;
    [| reflexivity].
  now apply isNodeEnvironment_spec in E.
Qed.

(** What the probe of [crypto] comes to, by what the global is. *)
Lemma isWebCryptoAvailable_object : forall g properties,
  crypto g = Declared (VObject properties) ->
  DefaultCryptoServiceFactory.isWebCryptoAvailable g
  = Normal (negb (typeof (lookup properties "subtle") =? "undefined")
            && negb (typeof (lookup properties "getRandomValues") =? "undefined")).
Proof.
  intros g properties E. unfold DefaultCryptoServiceFactory.isWebCryptoAvailable.
  rewrite E. cbn.
  destruct (typeof (lookup properties "subtle") =? "undefined"); reflexivity.
Qed.

Lemma isWebCryptoAvailable_null : forall g,
  crypto g = Declared VNull ->
  DefaultCryptoServiceFactory.isWebCryptoAvailable g
  = Abrupt (TypeError "Cannot read properties of null (reading 'subtle')").
Proof.
  intros g E. unfold DefaultCryptoServiceFactory.isWebCryptoAvailable.
  now rewrite E.
Qed.

Lemma isWebCryptoAvailable_faulting : forall g e,
  crypto g = Faulting e ->
  DefaultCryptoServiceFactory.isWebCryptoAvailable g = Abrupt e.
Proof.
  intros g e E. unfold DefaultCryptoServiceFactory.isWebCryptoAvailable.
  now rewrite E.
Qed.

Lemma isWebCryptoAvailable_spec : forall g,
  DefaultCryptoServiceFactory.isWebCryptoAvailable g = Normal true
  <-> WebCryptoPresent g.
Proof.
  intros g. unfold WebCryptoPresent. split.
  - unfold DefaultCryptoServiceFactory.isWebCryptoAvailable.
    destruct (crypto g) as [|c|e] eqn:C; try discriminate.
    destruct c as [| | | | | |properties]; cbn; try discriminate.
    destruct (typeof (lookup properties "subtle") =? "undefined") eqn:S;
      [discriminate |].
    destruct (typeof (lookup properties "getRandomValues") =? "undefined") eqn:R;
      [discriminate |].
    intros _. exists properties. repeat split.
    + intros E. apply typeof_undefined in E. congruence.
    + intros E. apply typeof_undefined in E. congruence.
  - intros (properties & C & S & R).
    rewrite (isWebCryptoAvailable_object g properties C).
    destruct (typeof (lookup properties "subtle") =? "undefined") eqn:ES;
      [apply typeof_undefined in ES; contradiction |].
    destruct (typeof (lookup properties "getRandomValues") =? "undefined") eqn:ER;
      [apply typeof_undefined in ER; contradiction |].
    reflexivity.
Qed.

Lemma isWebCryptoAvailable_readable : forall g,
  CryptoReadable g ->
  exists available, DefaultCryptoServiceFactory.isWebCryptoAvailable g = Normal available.
Proof.
  intros g [N F]. unfold DefaultCryptoServiceFactory.isWebCryptoAvailable.
  destruct (crypto g) as [|c|e]; [eauto | | now elim (F e)].
  destruct c as [| | | | | |properties]; cbn; eauto; [now elim N |].
  destruct (typeof (lookup properties "subtle") =? "undefined"); eauto.
Qed.

Lemma isWebCryptoAvailable_absent : forall g,
  DefaultCryptoServiceFactory.isWebCryptoAvailable g = Normal false
  <-> CryptoReadable g /\ ~ WebCryptoPresent g.
Proof.
  intros g. split.
  - intros E. split.
    + split.
      * intros C. rewrite (isWebCryptoAvailable_null g C) in E. discriminate.
      * intros e C. rewrite (isWebCryptoAvailable_faulting g e C) in E. discriminate.
    + intros H. apply isWebCryptoAvailable_spec in H. congruence.
  - intros [R N]. destruct (isWebCryptoAvailable_readable g R) as [[|] E];
      [| exact E].
    apply isWebCryptoAvailable_spec in E. contradiction.
Qed.

Lemma isWebCryptoAvailable_throws : forall g e,
  DefaultCryptoServiceFactory.isWebCryptoAvailable g = Abrupt e
  <-> crypto g = Faulting e \/
      (crypto g = Declared VNull /\
       e = TypeError "Cannot read properties of null (reading 'subtle')").
Proof.
  intros g e. split.
  - unfold DefaultCryptoServiceFactory.isWebCryptoAvailable.
    destruct (crypto g) as [|c|x]; [discriminate | | intros [= ->]; now left].
    destruct c as [| | | | | |properties]; cbn; try discriminate.
    + intros [= <-]. right. split; reflexivity.
    + destruct (typeof (lookup properties "subtle") =? "undefined"); discriminate.
  - intros [C | [C ->]].
    + now apply isWebCryptoAvailable_faulting.
    + now apply isWebCryptoAvailable_null.
Qed.

Ltac probe :=
  repeat match goal with
         | H : NodeRuntimePresent _ |- _ => apply isNodeEnvironment_spec in H; rewrite H
         | H : WebCryptoPresent _ |- _ => apply isWebCryptoAvailable_spec in H; rewrite H
         | H : ~ NodeRuntimePresent _ |- _ => apply isNodeEnvironment_absent in H; rewrite H
         | R : CryptoReadable ?g, H : ~ WebCryptoPresent ?g |- _ =>
             pose proof (proj2 (isWebCryptoAvailable_absent g) (conj R H)) as E;
             clear H; rewrite E
         | H : crypto _ = Faulting _ |- _ =>
             apply isWebCryptoAvailable_faulting in H; rewrite H
         | H : crypto _ = Declared VNull |- _ =>
             apply isWebCryptoAvailable_null in H; rewrite H
         end.

(** C8: on a host whose global [crypto] is [null], [createForEnvironment]
    asked for "browser" or "worker" does not fail with
    initialization/WEBCRYPTO_UNAVAILABLE: although no WebCrypto is there to
    detect, the [TypeError] of the probe's own [crypto.subtle] leaves the
    factory, an error without category or code.  The probe has no [try]
    block.  Its sibling has one: on a host whose [process] is [null],
    "node" fails with ENVIRONMENT_MISMATCH, as the claim says. *)
Theorem createForEnvironment_null_crypto :
  ~ WebCryptoPresent Example.null_crypto_host /\
  (exists msg,
      DefaultCryptoServiceFactory.createForEnvironment Example.null_crypto_host
        "browser" = Abrupt (TypeError msg) /\
      DefaultCryptoServiceFactory.createForEnvironment Example.null_crypto_host
        "worker" = Abrupt (TypeError msg) /\
      isCryptoError (TypeError msg) = false) /\
  ~ NodeRuntimePresent Example.null_process_host /\
  DefaultCryptoServiceFactory.createForEnvironment Example.null_process_host "node"
  = Abrupt (JsError (createCryptoError initialization "ENVIRONMENT_MISMATCH"
                       "Node.js environment not detected")).
Proof.
  split; [| split; [| split]].
  - intros (properties & H & _). discriminate.
  - eexists. repeat split.
  - intros (properties & versions & node & H & _). discriminate.
  - reflexivity.
Qed.

(** C9: on a host whose global [crypto] is [null], [createForPerformance]
    neither falls back nor fails with initialization/NO_CRYPTO_AVAILABLE:
    under Node, where the native backend is there to fall back on, "medium"
    and "low" throw the [TypeError] of the probe's [crypto.subtle] ("high"
    returns the native backend: it asks for the runtime first); without
    Node, where neither capability is present, all three levels throw that
    [TypeError]. *)
Theorem createForPerformance_null_crypto :
  let create := DefaultCryptoServiceFactory.createForPerformance in
  (NodeRuntimePresent Example.null_crypto_node_host /\
   ~ WebCryptoPresent Example.null_crypto_node_host) /\
  (~ NodeRuntimePresent Example.null_crypto_host /\
   ~ WebCryptoPresent Example.null_crypto_host) /\
  create Example.null_crypto_node_host "high" = Normal NodeCryptoService_instance /\
  exists msg,
    create Example.null_crypto_node_host "medium" = Abrupt (TypeError msg) /\
    create Example.null_crypto_node_host "low" = Abrupt (TypeError msg) /\
    create Example.null_crypto_host "high" = Abrupt (TypeError msg) /\
    create Example.null_crypto_host "medium" = Abrupt (TypeError msg) /\
    create Example.null_crypto_host "low" = Abrupt (TypeError msg) /\
    isCryptoError (TypeError msg) = false.
Proof.
  cbv zeta. split; [| split; [| split]].
  - split.
    + exists [("versions", VObject [("node", VString "22.0.0")])],
        [("node", VString "22.0.0")], "22.0.0". repeat split.
    + intros (properties & H & _). discriminate.
  - split.
    + intros (properties & versions & node & H & _). discriminate.
    + intros (properties & H & _). discriminate.
  - reflexivity.
  - eexists. repeat split.
Qed.

(** X23: [createForEnvironment], host by host: "node" gives the native backend
    when the runtime's version metadata is there and fails with
    ENVIRONMENT_MISMATCH when it is not; "browser" and "worker" give the
    WebCrypto backend when [crypto.subtle] and [crypto.getRandomValues] are
    there, fail with WEBCRYPTO_UNAVAILABLE when [crypto] can be probed and
    they are not, and throw what the probe throws when it cannot: the error
    of the accessor, or the [TypeError] of reading a member of [null];
    every other tag fails with UNKNOWN_ENVIRONMENT. *)
Theorem createForEnvironment_cases : forall g env,
  let create := DefaultCryptoServiceFactory.createForEnvironment g env in
  (env = "node" ->
     (NodeRuntimePresent g -> create = Normal NodeCryptoService_instance) /\
     (~ NodeRuntimePresent g ->
        create = Abrupt (JsError (createCryptoError initialization
                   "ENVIRONMENT_MISMATCH" "Node.js environment not detected")))) /\
  (env = "browser" \/ env = "worker" ->
     (WebCryptoPresent g -> create = Normal WebCryptoService_instance) /\
     (CryptoReadable g -> ~ WebCryptoPresent g ->
        create = Abrupt (JsError (createCryptoError initialization
                   "WEBCRYPTO_UNAVAILABLE"
                   "WebCrypto API not available in this environment"))) /\
     (forall e, crypto g = Faulting e -> create = Abrupt e) /\
     (crypto g = Declared VNull -> exists msg, create = Abrupt (TypeError msg))) /\
  (env <> "node" -> env <> "browser" -> env <> "worker" ->
     create = Abrupt (JsError (createCryptoError initialization
                "UNKNOWN_ENVIRONMENT" ("Unknown environment: " ++ env)%string))).
Proof.
  intros g env create. subst create.
  unfold DefaultCryptoServiceFactory.createForEnvironment.
  split; [| split].
  - intros ->. cbn. split; intros H; probe; reflexivity.
  - intros [-> | ->]; cbn; (split; [| split; [| split]]); intros; probe;
      try eexists; reflexivity.
  - intros N B W.
    apply String.eqb_neq in N, B, W. now rewrite N, B, W.
Qed.

(** X24: [createForPerformance], host by host: "high" gives the native backend
    when the runtime is there, whatever [crypto] is; without the runtime it
    gives the WebCrypto backend when that is there, fails with
    NO_CRYPTO_AVAILABLE when [crypto] can be probed and it is not, and
    throws what the probe throws when it cannot.  "medium" and "low" probe
    [crypto] first: the WebCrypto backend when it is there; when [crypto]
    can be probed and it is not, the native backend, or NO_CRYPTO_AVAILABLE
    without the runtime; and what the probe throws when it cannot, with or
    without the runtime.  Every other level fails with
    UNKNOWN_PERFORMANCE_LEVEL. *)
Theorem createForPerformance_cases : forall g level,
  let create := DefaultCryptoServiceFactory.createForPerformance g level in
  let unavailable :=
    Abrupt (JsError (createCryptoError initialization "NO_CRYPTO_AVAILABLE"
              "No suitable crypto implementation available")) in
  (level = "high" ->
     (NodeRuntimePresent g -> create = Normal NodeCryptoService_instance) /\
     (~ NodeRuntimePresent g -> WebCryptoPresent g ->
        create = Normal WebCryptoService_instance) /\
     (~ NodeRuntimePresent g -> CryptoReadable g -> ~ WebCryptoPresent g ->
        create = unavailable) /\
     (~ NodeRuntimePresent g -> forall e, crypto g = Faulting e -> create = Abrupt e) /\
     (~ NodeRuntimePresent g -> crypto g = Declared VNull ->
        exists msg, create = Abrupt (TypeError msg))) /\
  (level = "medium" \/ level = "low" ->
     (WebCryptoPresent g -> create = Normal WebCryptoService_instance) /\
     (CryptoReadable g -> ~ WebCryptoPresent g -> NodeRuntimePresent g ->
        create = Normal NodeCryptoService_instance) /\
     (CryptoReadable g -> ~ WebCryptoPresent g -> ~ NodeRuntimePresent g ->
        create = unavailable) /\
     (forall e, crypto g = Faulting e -> create = Abrupt e) /\
     (crypto g = Declared VNull -> exists msg, create = Abrupt (TypeError msg))) /\
  (level <> "high" -> level <> "medium" -> level <> "low" ->
     create = Abrupt (JsError (createCryptoError initialization
                "UNKNOWN_PERFORMANCE_LEVEL"
                ("Unknown performance level: " ++ level)%string))).
Proof.
  intros g level create unavailable.
  subst create unavailable.
  unfold DefaultCryptoServiceFactory.createForPerformance.
  split; [| split].
  - intros ->. cbn. (split; [| split; [| split; [| split]]]); intros; probe;
      try eexists; reflexivity.
  - intros [-> | ->]; cbn; (split; [| split; [| split; [| split]]]);
      intros; probe; try eexists; reflexivity.
  - intros H M L.
    apply String.eqb_neq in H, M, L. now rewrite H, M, L.
Qed.

(** The hosts of the test-suite: [process] replaced by an accessor that
    throws and [crypto] deleted; a mocked [crypto] next to Node's [process];
    Node's [process] with [crypto] deleted. *)
Example factory_scenario :
  DefaultCryptoServiceFactory.createForEnvironment Example.bare_host "node"
    = Abrupt (JsError (createCryptoError initialization "ENVIRONMENT_MISMATCH"
                         "Node.js environment not detected")) /\
  DefaultCryptoServiceFactory.createForEnvironment Example.bare_host "browser"
    = Abrupt (JsError (createCryptoError initialization "WEBCRYPTO_UNAVAILABLE"
                         "WebCrypto API not available in this environment")) /\
  DefaultCryptoServiceFactory.createForPerformance Example.bare_host "high"
    = Abrupt (JsError (createCryptoError initialization "NO_CRYPTO_AVAILABLE"
                         "No suitable crypto implementation available")) /\
  DefaultCryptoServiceFactory.createForPerformance Example.bare_host "medium"
    = Abrupt (JsError (createCryptoError initialization "NO_CRYPTO_AVAILABLE"
                         "No suitable crypto implementation available")) /\
  DefaultCryptoServiceFactory.createForEnvironment Example.node_host "node"
    = Normal NodeCryptoService_instance /\
  DefaultCryptoServiceFactory.createForEnvironment Example.node_host "worker"
    = Normal WebCryptoService_instance /\
  DefaultCryptoServiceFactory.createForPerformance Example.node_host "high"
    = Normal NodeCryptoService_instance /\
  DefaultCryptoServiceFactory.createForPerformance Example.node_host "medium"
    = Normal WebCryptoService_instance /\
  DefaultCryptoServiceFactory.createForPerformance Example.node_only_host "medium"
    = Normal NodeCryptoService_instance /\
  DefaultCryptoServiceFactory.createForEnvironment Example.node_host "unknown"
    = Abrupt (JsError (createCryptoError initialization "UNKNOWN_ENVIRONMENT"
                         "Unknown environment: unknown")).
Proof. repeat split. Qed.

(** ** The store *)

Lemma bind_eq {A B} (m : Js A) (k : A -> Js B) w a w' :
  m w = (Normal a, w') -> bind m k w = k a w'.
Proof. intros E. unfold bind. now rewrite E. Qed.

Lemma bind_abrupt {A B} (m : Js A) (k : A -> Js B) w e w' :
  m w = (Abrupt e, w') -> bind m k w = (Abrupt e, w').
Proof. intros E. unfold bind. now rewrite E. Qed.

Lemma try_normal {A} (body : Js A) handler w a w' :
  body w = (Normal a, w') -> try_catch body handler w = (Normal a, w').
Proof. intros E. unfold try_catch. now rewrite E. Qed.

Lemma try_abrupt {A} (body : Js A) handler w e w' :
  body w = (Abrupt e, w') -> try_catch body handler w = handler e w'.
Proof. intros E. unfold try_catch. now rewrite E. Qed.

Lemma step_normal {A B} (m : Js A) (k : A -> Js B) w a w1 (Q : B -> World -> Prop) :
  m w = (Normal a, w1) ->
  (exists b w', k a w1 = (Normal b, w') /\ Q b w') ->
  exists b w', bind m k w = (Normal b, w') /\ Q b w'.
Proof. intros E H. now rewrite (bind_eq _ _ _ _ _ E). Qed.

Lemma step_try {A} (body : Js A) handler w (Q : A -> World -> Prop) :
  (exists b w', body w = (Normal b, w') /\ Q b w') ->
  exists b w', try_catch body handler w = (Normal b, w') /\ Q b w'.
Proof.
  intros (b & w' & E & H). exists b, w'. split; [now apply try_normal | exact H].
Qed.

Lemma post_bind {A B} (m : Js A) (k : A -> Js B) w a w1 Q :
  m w = (Normal a, w1) -> post (k a) w1 Q -> post (bind m k) w Q.
Proof. intros E H. unfold post in *. now rewrite (bind_eq _ _ _ _ _ E). Qed.

Lemma post_bind_abrupt {A B} (m : Js A) (k : A -> Js B) w e w1
    (Q : Completion B -> World -> Prop) :
  m w = (Abrupt e, w1) -> Q (Abrupt e) w1 -> post (bind m k) w Q.
Proof. intros E H. unfold post. now rewrite (bind_abrupt _ _ _ _ _ E). Qed.

Lemma post_try {A} (body : Js A) handler w (Q : Completion A -> World -> Prop) :
  post body w (fun r w1 => match r with
                           | Normal a => Q (Normal a) w1
                           | Abrupt e => post (handler e) w1 Q
                           end) ->
  post (try_catch body handler) w Q.
Proof.
  unfold post, try_catch. destruct (body w) as [[a | e] w1]; cbn; auto.
Qed.

Lemma post_elim {A} (m : Js A) w Q :
  post m w Q -> exists r w', m w = (r, w') /\ Q r w'.
Proof.
  unfold post. intros H. exists (fst (m w)), (snd (m w)).
  split; [apply surjective_pairing | exact H].
Qed.

Lemma grows_refl : forall w, grows w w.
Proof. intros w. exists []. now rewrite app_nil_r. Qed.

Lemma grows_trans : forall w1 w2 w3, grows w1 w2 -> grows w2 w3 -> grows w1 w3.
Proof.
  intros w1 w2 w3 [l E] [l' E']. exists (l ++ l'). now rewrite E', E, app_assoc.
Qed.

Lemma grows_length : forall w w', grows w w' -> (length (heap w) <= length (heap w'))%nat.
Proof. intros w w' [l E]. rewrite E, length_app. lia. Qed.

Lemma valid_grows : forall w w' a,
  grows w w' -> Store.valid (heap w) a -> Store.valid (heap w') a.
Proof.
  intros w w' a [l E] [B L]. unfold Store.valid. rewrite E, length_app.
  rewrite app_nth1 by exact B. lia.
Qed.

Lemma content_grows : forall w w' a,
  grows w w' -> Store.valid (heap w) a ->
  Store.content (heap w') a = Store.content (heap w) a.
Proof.
  intros w w' a [l E] [B L]. unfold Store.content. rewrite E.
  now rewrite app_nth1 by exact B.
Qed.

Lemma content_length : forall h a,
  Store.valid h a -> length (Store.content h a) = byteLength a.
Proof.
  intros h a [B L]. unfold Store.content. rewrite length_firstn, length_skipn. lia.
Qed.

Lemma valid_bound : forall h a, Store.valid h a -> (buffer a < length h)%nat.
Proof. now intros h a [B _]. Qed.

Lemma fresh_weaken : forall w0 w w' a c,
  grows w0 w -> fresh w w' a c -> fresh w0 w' a c.
Proof.
  intros w0 w w' a c G (G' & N & V & C & L). repeat split; try assumption.
  - eapply grows_trans; eassumption.
  - apply grows_length in G. lia.
  - apply V.
  - apply V.
Qed.

Lemma allocate_spec : forall c w,
  exists a w', allocate c w = (Normal a, w') /\ fresh w w' a c /\
               entropy w' = entropy w /\ drawn w' = drawn w.
Proof.
  intros c w. eexists. eexists. split; [reflexivity |].
  repeat split; cbn.
  - now exists [c].
  - lia.
  - rewrite length_app. cbn. lia.
  - now rewrite nth_middle.
  - unfold Store.content. cbn. rewrite nth_middle. cbn. apply firstn_all.
Qed.

Lemma new_of_array_spec : forall a w,
  exists b w', TypedArray.new_of_array a w = (Normal b, w') /\
               fresh w w' b (Store.content (heap w) a) /\
               entropy w' = entropy w /\ drawn w' = drawn w.
Proof.
  intros a w. unfold TypedArray.new_of_array.
  destruct (allocate_spec (Store.content (heap w) a) w) as (b & w' & E & F).
  exists b, w'. split; [| exact F].
  now rewrite (bind_eq (read a) _ w (Store.content (heap w) a) w eq_refl).
Qed.

(** Forward reasoning: the facts known in [w] are carried to [w'] along
    [G : grows w w']. *)
Ltac carry G :=
  match type of G with
  | grows ?w ?w' =>
      repeat match goal with
             | V : Store.valid (heap w) ?a, C : Store.content (heap w) ?a = _ |- _ =>
                 rewrite <- (content_grows w w' a G V) in C
             end;
      repeat match goal with
             | V : Store.valid (heap w) ?a |- _ => apply (valid_grows w w' a G) in V
             end
  end.

(** One monadic step whose specification is
    [exists a w', m w = (Normal a, w') /\ facts]. *)
Ltac step spec a w' E F :=
  destruct spec as (a & w' & E & F);
  apply (step_normal _ _ _ _ _ _ E); clear E; cbv beta iota.

Ltac pstep spec a w' E F :=
  destruct spec as (a & w' & E & F);
  apply (post_bind _ _ _ _ _ _ E); clear E; cbv beta iota.

(** [grows w w'] along a chain of steps in the context. *)
Ltac chain :=
  repeat first [ assumption | eapply grows_trans; [eassumption |] ].

(** The pieces of [fresh w w' a c], with the bounds on the buffer identity. *)
Ltac open_fresh F G V C L :=
  let N := fresh "N" in
  let U := fresh "U" in
  let S := fresh "S" in
  destruct F as (G & N & V & C & L);
  pose proof (valid_bound _ _ V) as U;
  pose proof (grows_length _ _ G) as S.

Lemma grows_same : forall w w', heap w' = heap w -> grows w w'.
Proof. intros w w' E. exists []. now rewrite app_nil_r. Qed.

Lemma fresh_same : forall w0 w w' a c,
  heap w = heap w0 -> fresh w w' a c -> fresh w0 w' a c.
Proof.
  intros w0 w w' a c E F. eapply fresh_weaken; [| exact F]. now apply grows_same.
Qed.

Lemma csprng_length : forall w from n, length (csprng w from n) = n.
Proof. intros. unfold csprng. now rewrite length_map, length_seq. Qed.

(** ** Backend A: the host calls *)

Section NodeHost.
Context (P : Primitives).

Lemma randomBytes_spec : forall size w,
  (0 <= size <= 2 ^ 31 - 1)%Z ->
  exists a w', NodeCrypto.randomBytes size w = (Normal a, w') /\
               fresh w w' a (csprng w (drawn w) (Z.to_nat size)) /\
               entropy w' = entropy w /\
               drawn w' = (drawn w + Z.to_nat size)%nat.
Proof.
  intros size w R. unfold NodeCrypto.randomBytes.
  rewrite (bind_eq (host _) _ w tt _ eq_refl).
  replace ((size <? 0) || (2 ^ 31 - 1 <? size))%Z with false
    by (symmetry; apply orb_false_iff; split; apply Z.ltb_ge; lia).
  rewrite (bind_eq (draw _) _ _ _ _ eq_refl).
  match goal with
  | |- context [allocate ?c ?w1] =>
      destruct (allocate_spec c w1) as (a & w' & E & F & He & Hd)
  end.
  exists a, w'. split; [exact E |]. split; [| split].
  - eapply fresh_same; [| exact F]. reflexivity.
  - exact He.
  - exact Hd.
Qed.

Lemma Buffer_concat_spec : forall a b w,
  exists r w', NodeCrypto.Buffer_concat a b w = (Normal r, w') /\
               fresh w w' r (Store.content (heap w) a ++ Store.content (heap w) b).
Proof.
  intros a b w. unfold NodeCrypto.Buffer_concat.
  rewrite (bind_eq (read a) _ w _ w eq_refl).
  rewrite (bind_eq (read b) _ w _ w eq_refl).
  destruct (allocate_spec (Store.content (heap w) a ++ Store.content (heap w) b) w)
    as (r & w' & E & F & _).
  now exists r, w'.
Qed.

Lemma create_spec : forall c key iv w,
  length (Store.content (heap w) key) = 32%nat ->
  Store.content (heap w) iv <> [] ->
  exists cipher w',
    NodeCrypto.create c "aes-256-gcm" key iv w = (Normal cipher, w') /\
    heap w' = heap w /\
    cipher = {| NodeCrypto.cipher_key := Store.content (heap w) key;
                NodeCrypto.cipher_iv := Store.content (heap w) iv;
                NodeCrypto.cipher_input := [];
                NodeCrypto.cipher_tag := None;
                NodeCrypto.cipher_done := false |}.
Proof.
  intros c key iv w K N. unfold NodeCrypto.create.
  rewrite (bind_eq (host _) _ w tt _ eq_refl).
  rewrite (bind_eq (read key) _ _ _ _ eq_refl).
  rewrite (bind_eq (read iv) _ _ _ _ eq_refl).
  cbn [heap negb String.eqb Ascii.eqb Bool.eqb].
  rewrite K. cbn [Nat.eqb negb].
  destruct (Store.content (heap w) iv) eqn:E; [contradiction |].
  cbn [length Nat.eqb]. eexists. eexists. repeat split.
Qed.

Lemma update_spec : forall c chunk w,
  NodeCrypto.cipher_done c = false ->
  NodeCrypto.cipher_input c = [] ->
  exists out w',
    NodeCrypto.update P c chunk w =
      (Normal ({| NodeCrypto.cipher_key := NodeCrypto.cipher_key c;
                  NodeCrypto.cipher_iv := NodeCrypto.cipher_iv c;
                  NodeCrypto.cipher_input := Store.content (heap w) chunk;
                  NodeCrypto.cipher_tag := NodeCrypto.cipher_tag c;
                  NodeCrypto.cipher_done := false |}, out), w') /\
    fresh w w' out (P.(GCTR) (NodeCrypto.cipher_key c) (NodeCrypto.cipher_iv c)
                      (Store.content (heap w) chunk)).
Proof.
  intros c chunk w D I. unfold NodeCrypto.update.
  rewrite (bind_eq (host _) _ w tt _ eq_refl). rewrite D, I.
  rewrite (bind_eq (read chunk) _ _ _ _ eq_refl). cbn [app length skipn heap].
  match goal with
  | |- context [bind (allocate ?x) _ ?w1] =>
      destruct (allocate_spec x w1) as (out & w' & E & F & _)
  end.
  exists out, w'. split; [| eapply fresh_same; [| exact F]; reflexivity].
  now rewrite (bind_eq _ _ _ _ _ E).
Qed.

Lemma cipher_final_spec : forall c w,
  NodeCrypto.cipher_done c = false ->
  exists out w',
    NodeCrypto.cipher_final c w = (Normal (NodeCrypto.finished c, out), w') /\
    fresh w w' out [].
Proof.
  intros c w D. unfold NodeCrypto.cipher_final.
  rewrite (bind_eq (host _) _ w tt _ eq_refl). rewrite D.
  match goal with
  | |- context [bind (allocate ?x) _ ?w1] =>
      destruct (allocate_spec x w1) as (out & w' & E & F & _)
  end.
  exists out, w'. split; [| eapply fresh_same; [| exact F]; reflexivity].
  now rewrite (bind_eq _ _ _ _ _ E).
Qed.

Lemma getAuthTag_spec : forall c w,
  NodeCrypto.cipher_done c = true ->
  exists tag w',
    NodeCrypto.getAuthTag P c w = (Normal tag, w') /\
    fresh w w' tag
      (P.(GTAG) (NodeCrypto.cipher_key c) (NodeCrypto.cipher_iv c)
         (P.(GCTR) (NodeCrypto.cipher_key c) (NodeCrypto.cipher_iv c)
            (NodeCrypto.cipher_input c))).
Proof.
  intros c w D. unfold NodeCrypto.getAuthTag.
  rewrite (bind_eq (host _) _ w tt _ eq_refl). rewrite D. cbn [negb].
  match goal with
  | |- context [allocate ?x ?w1] =>
      destruct (allocate_spec x w1) as (tag & w' & E & F & _)
  end.
  exists tag, w'. split; [exact E | eapply fresh_same; [| exact F]; reflexivity].
Qed.

Lemma setAuthTag_spec : forall c tag w,
  length (Store.content (heap w) tag) = 16%nat ->
  exists d w',
    NodeCrypto.setAuthTag c tag w = (Normal d, w') /\
    heap w' = heap w /\
    d = {| NodeCrypto.cipher_key := NodeCrypto.cipher_key c;
           NodeCrypto.cipher_iv := NodeCrypto.cipher_iv c;
           NodeCrypto.cipher_input := NodeCrypto.cipher_input c;
           NodeCrypto.cipher_tag := Some (Store.content (heap w) tag);
           NodeCrypto.cipher_done := NodeCrypto.cipher_done c |}.
Proof.
  intros c tag w L. unfold NodeCrypto.setAuthTag.
  rewrite (bind_eq (host _) _ w tt _ eq_refl).
  rewrite (bind_eq (read tag) _ _ _ _ eq_refl). cbn [heap]. rewrite L.
  eexists. eexists. repeat split.
Qed.

Lemma generateIV_node_spec : forall w,
  exists a w', NodeCryptoService.generateIV None w = (Normal a, w') /\
               fresh w w' a (csprng w (drawn w) 12) /\
               entropy w' = entropy w /\ drawn w' = (drawn w + 12)%nat.
Proof.
  intros w. unfold NodeCryptoService.generateIV.
  destruct (randomBytes_spec (Z.of_nat NodeCryptoService.DEFAULT_IV_LENGTH) w)
    as (b & w1 & E1 & F1 & He1 & Hd1); [cbn; lia |].
  destruct (new_of_array_spec b w1) as (a & w2 & E2 & F2 & He2 & Hd2).
  exists a, w2. split.
  - apply try_normal. now rewrite (bind_eq _ _ _ _ _ E1).
  - destruct F1 as (G1 & _ & _ & C1 & _). rewrite C1 in F2.
    split; [eapply fresh_weaken; eassumption |].
    split; [congruence | now rewrite Hd2, Hd1].
Qed.

Lemma generateSalt_node_spec : forall w,
  exists a w', NodeCryptoService.generateSalt None w = (Normal a, w') /\
               fresh w w' a (csprng w (drawn w) 32) /\
               entropy w' = entropy w /\ drawn w' = (drawn w + 32)%nat.
Proof.
  intros w. unfold NodeCryptoService.generateSalt.
  destruct (randomBytes_spec (Z.of_nat NodeCryptoService.DEFAULT_SALT_LENGTH) w)
    as (b & w1 & E1 & F1 & He1 & Hd1); [cbn; lia |].
  destruct (new_of_array_spec b w1) as (a & w2 & E2 & F2 & He2 & Hd2).
  exists a, w2. split.
  - apply try_normal. now rewrite (bind_eq _ _ _ _ _ E1).
  - destruct F1 as (G1 & _ & _ & C1 & _). rewrite C1 in F2.
    split; [eapply fresh_weaken; eassumption |].
    split; [congruence | now rewrite Hd2, Hd1].
Qed.

End NodeHost.

(** ** Backend A: [encrypt] and [decrypt] *)

Section NodeService.
Context (P : Primitives) (std : Standard P).

Lemma unshared_fresh : forall w a,
  (length (heap w) <= buffer a)%nat -> unshared w a.
Proof.
  intros w a N b [B _] S. unfold Store.shares_storage in S. lia.
Qed.

Lemma encrypt_node_spec : forall plain key w,
  Store.valid (heap w) plain -> Store.valid (heap w) key ->
  byteLength plain <> 0%nat -> byteLength key = 32%nat ->
  exists e w',
    NodeCryptoService.encrypt P plain key w = (Normal e, w') /\
    sealed P w w' (Store.content (heap w) plain) (Store.content (heap w) key) e.
Proof.
  intros plain key w Vd Vk Nd Nk.
  pose proof (content_length _ _ Vk) as Lk. rewrite Nk in Lk.
  pose proof (content_length _ _ Vd) as Ld.
  remember (Store.content (heap w) plain) as pt eqn:Cd. symmetry in Cd.
  remember (Store.content (heap w) key) as k eqn:Ck. symmetry in Ck.
  unfold NodeCryptoService.encrypt. apply step_try.
  apply Nat.eqb_neq in Nd. rewrite Nd.
  rewrite Nk. cbn [Nat.eqb negb].
  (* iv, salt *)
  step (generateIV_node_spec w) iv0 w1 E1 F1. destruct F1 as (F1 & He1 & Hd1).
  open_fresh F1 G1 V1 C1 L1. carry G1.
  step (generateSalt_node_spec w1) salt0 w2 E2 F2. destruct F2 as (F2 & He2 & Hd2).
  open_fresh F2 G2 V2 C2 L2. carry G2.
  assert (C2' : csprng w1 (drawn w1) 32 = csprng w (drawn w + 12) 32)
    by (unfold csprng; now rewrite He1, Hd1).
  rewrite C2' in C2, L2. clear C2' He1 Hd1 He2 Hd2.
  rewrite csprng_length in L1, L2.
  (* the cipher *)
  unfold NodeCrypto.createCipheriv, NodeCryptoService.CIPHER_ALGORITHM.
  assert (K3 : length (Store.content (heap w2) key) = 32%nat) by now rewrite Ck.
  assert (N3 : Store.content (heap w2) iv0 <> []).
  { rewrite C1. intros E. apply (f_equal (@length byte)) in E.
    rewrite csprng_length in E. discriminate. }
  step (create_spec call_createCipheriv key iv0 w2 K3 N3) cipher w3 E3 F3.
  destruct F3 as (H3 & ->). rewrite Ck, C1.
  pose proof (grows_same _ _ H3) as G3. carry G3.
  pose proof (grows_length _ _ G3) as S3.
  unfold NodeCrypto.Buffer_from.
  step (new_of_array_spec plain w3) input w4 E4 F4. destruct F4 as (F4 & _).
  rewrite Cd in F4. open_fresh F4 G4 V4 C4 L4. carry G4.
  step (update_spec P {| NodeCrypto.cipher_key := k;
                         NodeCrypto.cipher_iv := csprng w (drawn w) 12;
                         NodeCrypto.cipher_input := [];
                         NodeCrypto.cipher_tag := None;
                         NodeCrypto.cipher_done := false |} input w4 eq_refl eq_refl)
    out1 w5 E5 F5.
  cbn [NodeCrypto.cipher_key NodeCrypto.cipher_iv NodeCrypto.cipher_tag] in F5 |- *.
  rewrite C4 in F5 |- *. open_fresh F5 G5 V5 C5 L5. carry G5.
  match goal with
  | |- context [NodeCrypto.cipher_final ?c] =>
      step (cipher_final_spec c w5 eq_refl) out2 w6 E6 F6
  end.
  open_fresh F6 G6 V6 C6 L6. carry G6.
  step (Buffer_concat_spec out1 out2 w6) encrypted w7 E7 F7.
  rewrite C5, C6, app_nil_r in F7. open_fresh F7 G7 V7 C7 L7. carry G7.
  match goal with
  | |- context [NodeCrypto.getAuthTag P ?c] =>
      step (getAuthTag_spec P c w7 eq_refl) tag w8 E8 F8
  end.
  cbn [NodeCrypto.finished NodeCrypto.cipher_key NodeCrypto.cipher_iv
       NodeCrypto.cipher_input] in F8.
  open_fresh F8 G8 V8 C8 L8. carry G8.
  (* the copies that are returned *)
  step (new_of_array_spec encrypted w8) data' w9 E9 F9. destruct F9 as (F9 & _).
  rewrite C7 in F9. open_fresh F9 G9 V9 C9 L9. carry G9.
  step (new_of_array_spec iv0 w9) iv' w10 E10 F10. destruct F10 as (F10 & _).
  rewrite C1 in F10. open_fresh F10 G10 V10 C10 L10. carry G10.
  step (new_of_array_spec salt0 w10) salt' w11 E11 F11. destruct F11 as (F11 & _).
  rewrite C2 in F11. open_fresh F11 G11 V11 C11 L11. carry G11.
  step (new_of_array_spec tag w11) authTag' w12 E12 F12. destruct F12 as (F12 & _).
  rewrite C8 in F12. open_fresh F12 G12 V12 C12 L12. carry G12.
  eexists. eexists. split; [reflexivity |].
  rewrite csprng_length in L10, L11.
  rewrite (GCTR_length P std) in L9 by exact Lk.
  rewrite (GTAG_length P std) in L12 by exact Lk.
  constructor; cbn [data iv salt authTag]; try assumption.
  - chain.
  - auto.
  - auto.
  - repeat split; apply unshared_fresh; lia.
  - unfold separate. cbn [data iv salt authTag].
    repeat constructor; cbn [In]; lia.
Qed.

End NodeService.

Lemma bytes_eqb_spec : forall x y, bytes_eqb x y = true <-> x = y.
Proof.
  induction x as [|a x IH]; intros [|b y]; cbn; split; intros H;
    try reflexivity; try discriminate.
  - apply andb_true_iff in H as [H1 H2].
    apply Byte.byte_dec_bl in H1. apply IH in H2. congruence.
  - injection H as -> ->. apply andb_true_iff. split.
    + now apply Byte.byte_dec_lb.
    + now apply IH.
Qed.

Lemma bytes_eqb_neq : forall x y, x <> y -> bytes_eqb x y = false.
Proof.
  intros x y H. destruct (bytes_eqb x y) eqn:E; [| reflexivity].
  now apply bytes_eqb_spec in E.
Qed.

Section NodeDecrypt.
Context (P : Primitives).

Lemma decipher_final_ok : forall c t w,
  NodeCrypto.cipher_done c = false ->
  NodeCrypto.cipher_tag c = Some t ->
  t = P.(GTAG) (NodeCrypto.cipher_key c) (NodeCrypto.cipher_iv c)
        (NodeCrypto.cipher_input c) ->
  exists out w',
    NodeCrypto.decipher_final P c w = (Normal (NodeCrypto.finished c, out), w') /\
    fresh w w' out [].
Proof.
  intros c t w D T E. unfold NodeCrypto.decipher_final.
  rewrite (bind_eq (host _) _ w tt _ eq_refl). rewrite D, T.
  replace (bytes_eqb t _) with true by (symmetry; now apply bytes_eqb_spec).
  match goal with
  | |- context [bind (allocate ?x) _ ?w1] =>
      destruct (allocate_spec x w1) as (out & w' & A & F & _)
  end.
  exists out, w'. split; [| eapply fresh_same; [| exact F]; reflexivity].
  now rewrite (bind_eq _ _ _ _ _ A).
Qed.

Lemma decipher_final_fail : forall c t w,
  NodeCrypto.cipher_done c = false ->
  NodeCrypto.cipher_tag c = Some t ->
  t <> P.(GTAG) (NodeCrypto.cipher_key c) (NodeCrypto.cipher_iv c)
         (NodeCrypto.cipher_input c) ->
  exists w',
    NodeCrypto.decipher_final P c w =
      (Abrupt (JsError (Error "Unsupported state or unable to authenticate data")),
       w') /\
    heap w' = heap w.
Proof.
  intros c t w D T E. unfold NodeCrypto.decipher_final.
  rewrite (bind_eq (host _) _ w tt _ eq_refl). rewrite D, T.
  rewrite (bytes_eqb_neq _ _ E). eexists. split; reflexivity.
Qed.

(** [decrypt] on a well-shaped input: the plaintext in a new buffer when the
    tag verifies, [null] when it does not; never an error. *)
Lemma decrypt_node_spec : forall e key w,
  Store.valid (heap w) e.(data) -> Store.valid (heap w) e.(iv) ->
  Store.valid (heap w) e.(authTag) -> Store.valid (heap w) key ->
  byteLength key = 32%nat -> byteLength e.(data) <> 0%nat ->
  byteLength e.(iv) = 12%nat -> byteLength e.(authTag) = 16%nat ->
  let k := Store.content (heap w) key in
  let n := Store.content (heap w) e.(iv) in
  let c := Store.content (heap w) e.(data) in
  let t := Store.content (heap w) e.(authTag) in
  post (NodeCryptoService.decrypt P e key) w
    (fun r w' =>
       grows w w' /\
       (t = P.(GTAG) k n c ->
          exists a, r = Normal (Some a) /\ fresh w w' a (P.(GCTR) k n c)) /\
       (t <> P.(GTAG) k n c -> r = Normal None)).
Proof.
  intros e key w Vd Vi Vt Vk Nk Nd Ni Nt k n c t.
  pose proof (content_length _ _ Vk) as Lk. rewrite Nk in Lk.
  pose proof (content_length _ _ Vi) as Li. rewrite Ni in Li.
  pose proof (content_length _ _ Vt) as Lt. rewrite Nt in Lt.
  assert (Ck : Store.content (heap w) key = k) by reflexivity.
  assert (Ci : Store.content (heap w) (iv e) = n) by reflexivity.
  assert (Cd : Store.content (heap w) (data e) = c) by reflexivity.
  assert (Ct : Store.content (heap w) (authTag e) = t) by reflexivity.
  fold k in Lk. fold n in Li. fold t in Lt.
  clearbody k n c t.
  unfold NodeCryptoService.decrypt. apply post_try.
  apply Nat.eqb_neq in Nd. rewrite Nd, Nk, Ni, Nt. cbn [Nat.eqb negb
    NodeCryptoService.DEFAULT_IV_LENGTH NodeCryptoService.AUTH_TAG_LENGTH].
  unfold NodeCrypto.createDecipheriv, NodeCryptoService.CIPHER_ALGORITHM.
  assert (K1 : length (Store.content (heap w) key) = 32%nat) by now rewrite Ck.
  assert (N1 : Store.content (heap w) (iv e) <> []).
  { rewrite Ci. intros E. rewrite E in Li. discriminate. }
  pstep (create_spec call_createDecipheriv key (iv e) w K1 N1) decipher w1 E1 F1.
  destruct F1 as (H1 & ->). rewrite Ck, Ci.
  pose proof (grows_same _ _ H1) as G1. carry G1.
  unfold NodeCrypto.Buffer_from.
  pstep (new_of_array_spec (authTag e) w1) tag w2 E2 F2. destruct F2 as (F2 & _).
  rewrite Ct in F2. open_fresh F2 G2 V2 C2 L2. carry G2.
  assert (T2 : length (Store.content (heap w2) tag) = 16%nat) by now rewrite C2.
  match goal with
  | |- context [NodeCrypto.setAuthTag ?d tag] =>
      pstep (setAuthTag_spec d tag w2 T2) tagged w2' E2' F2'
  end.
  destruct F2' as (H2' & ->).
  cbn [NodeCrypto.cipher_key NodeCrypto.cipher_iv NodeCrypto.cipher_input
       NodeCrypto.cipher_done]. rewrite C2.
  pose proof (grows_same _ _ H2') as G2'. carry G2'.
  pstep (new_of_array_spec (data e) w2') input w3 E3 F3. destruct F3 as (F3 & _).
  rewrite Cd in F3. open_fresh F3 G3 V3 C3 L3. carry G3.
  match goal with
  | |- context [NodeCrypto.update P ?d input] =>
      pstep (update_spec P d input w3 eq_refl eq_refl) out1 w4 E4 F4
  end.
  cbn [NodeCrypto.cipher_key NodeCrypto.cipher_iv NodeCrypto.cipher_tag] in F4 |- *.
  rewrite C3 in F4 |- *. open_fresh F4 G4 V4 C4 L4. carry G4.
  destruct (list_eq_dec Byte.byte_eq_dec t (P.(GTAG) k n c)) as [Y | Y].
  - (* the tag verifies *)
    match goal with
    | |- context [NodeCrypto.decipher_final P ?d] =>
        pstep (decipher_final_ok d t w4 eq_refl eq_refl Y) out2 w5 E5 F5
    end.
    open_fresh F5 G5 V5 C5 L5. carry G5.
    pstep (Buffer_concat_spec out1 out2 w5) decrypted w6 E6 F6.
    rewrite C4, C5, app_nil_r in F6. open_fresh F6 G6 V6 C6 L6. carry G6.
    pstep (new_of_array_spec decrypted w6) res w7 E7 F7. destruct F7 as (F7 & _).
    rewrite C6 in F7.
    assert (G : grows w w6) by chain.
    pose proof (fresh_weaken _ _ _ _ _ G F7) as F.
    unfold post, ret. cbn [fst snd]. split; [apply F |]. split.
    + intros _. now exists res.
    + intros Z. contradiction.
  - (* it does not *)
    match goal with
    | |- context [NodeCrypto.decipher_final P ?d] =>
        destruct (decipher_final_fail d t w4 eq_refl eq_refl Y) as (w5 & E5 & H5)
    end.
    apply (post_bind_abrupt _ _ _ _ _ _ E5).
    unfold post, ret. cbn [isCryptoError Error name String.eqb Ascii.eqb Bool.eqb fst snd].
    pose proof (grows_same _ _ H5) as G5.
    split; [chain |]. split.
    + intros Z. contradiction.
    + reflexivity.
Qed.

End NodeDecrypt.

(** ** Backend B: the host calls *)

Lemma update_last : forall h x f, Store.update (h ++ [x]) (length h) f = h ++ [f x].
Proof. induction h as [|y h IH]; intros x f; cbn; [reflexivity | now rewrite IH]. Qed.

Lemma overwrite_length : forall old pos new,
  (pos + length new <= length old)%nat ->
  length (Store.overwrite old pos new) = length old.
Proof.
  intros old pos new H. unfold Store.overwrite.
  rewrite !length_app, length_firstn, length_skipn. lia.
Qed.

Lemma overwrite_all : forall old new,
  length new = length old -> Store.overwrite old 0 new = new.
Proof.
  intros old new H. unfold Store.overwrite. cbn [firstn app Nat.add].
  rewrite skipn_all2 by lia. apply app_nil_r.
Qed.

Lemma overwrite_two : forall d t,
  Store.overwrite (Store.overwrite (repeat x00 (length d + length t)) 0 d) (length d) t
  = d ++ t.
Proof.
  intros d t. unfold Store.overwrite. cbn [firstn app Nat.add].
  rewrite firstn_app, firstn_all, Nat.sub_diag. cbn [firstn]. rewrite app_nil_r.
  rewrite skipn_all2 with (n := (length d + length t)%nat).
  - now rewrite app_nil_r.
  - rewrite length_app, length_skipn, repeat_length. lia.
Qed.

Lemma newest_fresh : forall w0 w a x,
  newest w0 w a x ->
  fresh w0 w a x /\ nth (buffer a) (heap w) [] = x.
Proof.
  intros w0 w a x [H ->]. cbn [buffer]. rewrite H, nth_middle.
  split; [| reflexivity].
  repeat split; cbn [buffer byteOffset byteLength].
  - now exists [x].
  - lia.
  - rewrite H, length_app. cbn. lia.
  - rewrite H, nth_middle. lia.
  - unfold Store.content. cbn [buffer byteOffset byteLength].
    rewrite H, nth_middle. cbn [skipn]. apply firstn_all.
Qed.

Lemma newest_grows : forall w0 w a x, newest w0 w a x -> grows w0 w.
Proof. intros w0 w a x [H _]. now exists [x]. Qed.

Lemma new_of_length_spec : forall n w,
  (0 <= n)%Z ->
  exists a w', TypedArray.new_of_length n w = (Normal a, w') /\
               newest w w' a (repeat x00 (Z.to_nat n)) /\
               entropy w' = entropy w /\ drawn w' = drawn w.
Proof.
  intros n w H. unfold TypedArray.new_of_length.
  replace (n <? 0)%Z with false by (symmetry; apply Z.ltb_ge; lia).
  eexists. eexists. split; [reflexivity |]. repeat split.
Qed.

Lemma write_newest : forall w0 w a x pos new,
  newest w0 w a x -> (pos + length new <= length x)%nat ->
  exists w', write a pos new w = (Normal tt, w') /\
             newest w0 w' a (Store.overwrite x pos new) /\
             entropy w' = entropy w /\ drawn w' = drawn w.
Proof.
  intros w0 w a x pos new [H ->] B. unfold write. eexists. split; [reflexivity |].
  cbn [heap buffer byteOffset entropy drawn with_heap]. split; [| split; reflexivity].
  split.
  - now rewrite H, update_last.
  - now rewrite overwrite_length.
Qed.

Lemma getRandomValues_spec : forall w0 w a x,
  newest w0 w a x -> (Z.of_nat (length x) <= 65536)%Z ->
  exists w', WebCrypto.getRandomValues a w = (Normal tt, w') /\
             newest w0 w' a (csprng w (drawn w) (length x)) /\
             entropy w' = entropy w /\ drawn w' = (drawn w + length x)%nat.
Proof.
  intros w0 w a x N B. unfold WebCrypto.getRandomValues.
  rewrite (bind_eq (host _) _ w tt _ eq_refl).
  assert (La : byteLength a = length x) by (destruct N as [_ ->]; reflexivity).
  rewrite La.
  replace (65536 <? Z.of_nat (length x))%Z with false
    by (symmetry; apply Z.ltb_ge; lia).
  rewrite (bind_eq (draw _) _ _ _ _ eq_refl).
  match goal with
  | |- context [write a 0 ?r ?w1] =>
      destruct (write_newest w0 w1 a x 0 r) as (w' & E & N' & He & Hd)
  end.
  - destruct N as [H ->]. split; [exact H | reflexivity].
  - rewrite length_map, length_seq. lia.
  - exists w'. split; [exact E |]. split; [| split; [exact He | exact Hd]].
    rewrite overwrite_all in N' by now rewrite length_map, length_seq.
    exact N'.
Qed.

Lemma set_newest : forall w0 w target x source offset,
  newest w0 w target x -> Store.valid (heap w0) source ->
  (offset + byteLength source <= length x)%nat ->
  exists w', TypedArray.set target source offset w = (Normal tt, w') /\
             newest w0 w' target
               (Store.overwrite x offset (Store.content (heap w0) source)).
Proof.
  intros w0 w target x source offset N V B. unfold TypedArray.set.
  assert (La : byteLength target = length x) by (destruct N as [_ ->]; reflexivity).
  rewrite La.
  replace (length x <? offset + byteLength source)%nat with false
    by (symmetry; apply Nat.ltb_ge; lia).
  rewrite (bind_eq (read source) _ _ _ _ eq_refl).
  rewrite (content_grows w0 w source (newest_grows _ _ _ _ N) V).
  destruct (write_newest w0 w target x offset (Store.content (heap w0) source) N)
    as (w' & E & N' & _).
  - now rewrite content_length.
  - now exists w'.
Qed.

Lemma generateIV_web_spec : forall w,
  exists a w', WebCryptoService.generateIV None w = (Normal a, w') /\
               fresh w w' a (csprng w (drawn w) 12) /\
               entropy w' = entropy w /\ drawn w' = (drawn w + 12)%nat.
Proof.
  intros w. unfold WebCryptoService.generateIV. apply step_try.
  destruct (new_of_length_spec (Z.of_nat WebCryptoService.DEFAULT_IV_LENGTH) w)
    as (a & w1 & E1 & N1 & He1 & Hd1); [cbn; lia |].
  apply (step_normal _ _ _ _ _ _ E1).
  destruct (getRandomValues_spec w w1 a _ N1) as (w2 & E2 & N2 & He2 & Hd2);
    [rewrite repeat_length; unfold WebCryptoService.DEFAULT_IV_LENGTH,
       WebCryptoService.DEFAULT_SALT_LENGTH; lia |].
  apply (step_normal _ _ _ _ _ _ E2).
  exists a, w2. split; [reflexivity |].
  rewrite repeat_length, Nat2Z.id in N2, Hd2.
  unfold csprng in N2. rewrite He1, Hd1 in N2.
  split; [apply (newest_fresh _ _ _ _ N2) |].
  split; [congruence | now rewrite Hd2, Hd1].
Qed.

Lemma generateSalt_web_spec : forall w,
  exists a w', WebCryptoService.generateSalt None w = (Normal a, w') /\
               fresh w w' a (csprng w (drawn w) 32) /\
               entropy w' = entropy w /\ drawn w' = (drawn w + 32)%nat.
Proof.
  intros w. unfold WebCryptoService.generateSalt. apply step_try.
  destruct (new_of_length_spec (Z.of_nat WebCryptoService.DEFAULT_SALT_LENGTH) w)
    as (a & w1 & E1 & N1 & He1 & Hd1); [cbn; lia |].
  apply (step_normal _ _ _ _ _ _ E1).
  destruct (getRandomValues_spec w w1 a _ N1) as (w2 & E2 & N2 & He2 & Hd2);
    [rewrite repeat_length; unfold WebCryptoService.DEFAULT_IV_LENGTH,
       WebCryptoService.DEFAULT_SALT_LENGTH; lia |].
  apply (step_normal _ _ _ _ _ _ E2).
  exists a, w2. split; [reflexivity |].
  rewrite repeat_length, Nat2Z.id in N2, Hd2.
  unfold csprng in N2. rewrite He1, Hd1 in N2.
  split; [apply (newest_fresh _ _ _ _ N2) |].
  split; [congruence | now rewrite Hd2, Hd1].
Qed.

Lemma importKey_aes_spec : forall P key usages w,
  length (Store.content (heap w) key) = 32%nat ->
  exists k w',
    WebCrypto.importKey P "raw" key "AES-GCM" false usages w = (Normal k, w') /\
    heap w' = heap w /\
    k = {| WebCrypto.key_algorithm := "AES-GCM";
           WebCrypto.key_data := Store.content (heap w) key;
           WebCrypto.key_usages := usages |}.
Proof.
  intros P key usages w L. unfold WebCrypto.importKey.
  rewrite (bind_eq (host _) _ w tt _ eq_refl).
  rewrite (bind_eq (read key) _ _ _ _ eq_refl).
  cbn [heap negb String.eqb Ascii.eqb Bool.eqb]. rewrite L.
  eexists. eexists. repeat split.
Qed.

Lemma importKey_pbkdf2_spec : forall P material usages w,
  P.(refuses) (Store.content (heap w) material) = None ->
  exists k w',
    WebCrypto.importKey P "raw" material "PBKDF2" false usages w = (Normal k, w') /\
    heap w' = heap w /\
    k = {| WebCrypto.key_algorithm := "PBKDF2";
           WebCrypto.key_data := Store.content (heap w) material;
           WebCrypto.key_usages := usages |}.
Proof.
  intros P material usages w A. unfold WebCrypto.importKey.
  rewrite (bind_eq (host _) _ w tt _ eq_refl).
  rewrite (bind_eq (read material) _ _ _ _ eq_refl).
  cbn [negb String.eqb Ascii.eqb Bool.eqb heap]. rewrite A.
  eexists. eexists. repeat split.
Qed.

Lemma importKey_pbkdf2_refused : forall P material usages w msg,
  P.(refuses) (Store.content (heap w) material) = Some msg ->
  exists w',
    WebCrypto.importKey P "raw" material "PBKDF2" false usages w
    = (Abrupt (JsError (Error msg)), w') /\
    heap w' = heap w.
Proof.
  intros P material usages w msg A. unfold WebCrypto.importKey.
  rewrite (bind_eq (host _) _ w tt _ eq_refl).
  rewrite (bind_eq (read material) _ _ _ _ eq_refl).
  cbn [negb String.eqb Ascii.eqb Bool.eqb heap]. rewrite A.
  eexists. split; reflexivity.
Qed.

Lemma allocate_buffer_spec : forall c w,
  exists a w', allocate c w = (Normal a, w') /\ fresh w w' a c /\
               TypedArray.new_of_buffer (buffer a) w' = (Normal a, w').
Proof.
  intros c w.
  eexists. eexists. split; [reflexivity |].
  assert (N : newest w (with_heap w (heap w ++ [c]))
                {| buffer := length (heap w); byteOffset := 0; byteLength := length c |} c)
    by (split; reflexivity).
  destruct (newest_fresh _ _ _ _ N) as [F H]. split; [exact F |].
  unfold TypedArray.new_of_buffer. now rewrite H.
Qed.

Lemma slice_spec : forall a start end_ w,
  exists b w',
    TypedArray.slice a start end_ w = (Normal b, w') /\
    fresh w w' b
      (let k := TypedArray.relative (byteLength a) start in
       let final := match end_ with
                    | Some e => TypedArray.relative (byteLength a) e
                    | None => byteLength a
                    end in
       firstn (final - k) (skipn k (Store.content (heap w) a))).
Proof.
  intros a start end_ w. unfold TypedArray.slice.
  rewrite (bind_eq (read a) _ _ _ _ eq_refl).
  match goal with
  | |- context [allocate ?c] => destruct (allocate_spec c w) as (b & w' & E & F & _)
  end.
  now exists b, w'.
Qed.

Lemma relative_zero : forall len, TypedArray.relative len 0 = 0%nat.
Proof. intros len. unfold TypedArray.relative. cbn. lia. Qed.

Lemma relative_back : forall len n,
  (n <= len)%nat -> (0 < n)%nat ->
  TypedArray.relative len (- Z.of_nat n) = (len - n)%nat.
Proof.
  intros len n H H0. unfold TypedArray.relative.
  replace (- Z.of_nat n <? 0)%Z with true by (symmetry; apply Z.ltb_lt; lia).
  lia.
Qed.

Section WebHost.
Context (P : Primitives).

Lemma subtle_encrypt_spec : forall n k plain w,
  exists a w',
    WebCrypto.encrypt P "AES-GCM" n 128
      {| WebCrypto.key_algorithm := "AES-GCM"; WebCrypto.key_data := k;
         WebCrypto.key_usages := ["encrypt"] |} plain w
      = (Normal (buffer a), w') /\
    fresh w w' a
      (P.(GCTR) k (Store.content (heap w) n) (Store.content (heap w) plain)
       ++ P.(GTAG) k (Store.content (heap w) n)
            (P.(GCTR) k (Store.content (heap w) n) (Store.content (heap w) plain))) /\
    TypedArray.new_of_buffer (buffer a) w' = (Normal a, w').
Proof.
  intros n k plain w. unfold WebCrypto.encrypt.
  rewrite (bind_eq (host _) _ w tt _ eq_refl).
  cbn [negb andb String.eqb Ascii.eqb Bool.eqb WebCrypto.allows WebCrypto.key_usages
       WebCrypto.key_algorithm WebCrypto.key_data existsb orb Z.eqb Pos.eqb].
  rewrite (bind_eq (read n) _ _ _ _ eq_refl).
  rewrite (bind_eq (read plain) _ _ _ _ eq_refl).
  cbn [heap].
  match goal with
  | |- context [allocate ?c ] =>
      match goal with
      | |- context [bind _ _ ?w1] =>
          destruct (allocate_buffer_spec c w1) as (a & w' & E & F & V)
      end
  end.
  exists a, w'. split; [now rewrite (bind_eq _ _ _ _ _ E) |].
  split; [| exact V]. eapply fresh_same; [| exact F]. reflexivity.
Qed.

Lemma subtle_decrypt_ok : forall n k input c t w,
  Store.content (heap w) input = c ++ t -> length t = 16%nat ->
  t = P.(GTAG) k (Store.content (heap w) n) c ->
  exists a w',
    WebCrypto.decrypt P "AES-GCM" n 128
      {| WebCrypto.key_algorithm := "AES-GCM"; WebCrypto.key_data := k;
         WebCrypto.key_usages := ["decrypt"] |} input w
      = (Normal (buffer a), w') /\
    fresh w w' a (P.(GCTR) k (Store.content (heap w) n) c) /\
    TypedArray.new_of_buffer (buffer a) w' = (Normal a, w').
Proof.
  intros n k input c t w C L T. unfold WebCrypto.decrypt.
  rewrite (bind_eq (host _) _ w tt _ eq_refl).
  cbn [negb andb String.eqb Ascii.eqb Bool.eqb WebCrypto.allows WebCrypto.key_usages
       WebCrypto.key_algorithm WebCrypto.key_data existsb orb Z.eqb Pos.eqb].
  rewrite (bind_eq (read n) _ _ _ _ eq_refl).
  rewrite (bind_eq (read input) _ _ _ _ eq_refl).
  cbn [heap]. rewrite C, length_app, L.
  replace (length c + 16 <? 16)%nat with false by (symmetry; apply Nat.ltb_ge; lia).
  replace (length c + 16 - 16)%nat with (length c) by lia.
  rewrite firstn_app, firstn_all, Nat.sub_diag, app_nil_r.
  rewrite skipn_app, skipn_all, Nat.sub_diag. cbn [firstn skipn app].
  replace (bytes_eqb t _) with true by (symmetry; now apply bytes_eqb_spec).
  match goal with
  | |- context [allocate ?x ] =>
      match goal with
      | |- context [bind _ _ ?w1] =>
          destruct (allocate_buffer_spec x w1) as (a & w' & E & F & V)
      end
  end.
  exists a, w'. split; [now rewrite (bind_eq _ _ _ _ _ E) |].
  split; [| exact V]. eapply fresh_same; [| exact F]. reflexivity.
Qed.

Lemma subtle_decrypt_fail : forall n k input c t w,
  Store.content (heap w) input = c ++ t -> length t = 16%nat ->
  t <> P.(GTAG) k (Store.content (heap w) n) c ->
  exists w',
    WebCrypto.decrypt P "AES-GCM" n 128
      {| WebCrypto.key_algorithm := "AES-GCM"; WebCrypto.key_data := k;
         WebCrypto.key_usages := ["decrypt"] |} input w
      = (Abrupt WebCrypto.OperationError, w') /\
    heap w' = heap w.
Proof.
  intros n k input c t w C L T. unfold WebCrypto.decrypt.
  rewrite (bind_eq (host _) _ w tt _ eq_refl).
  cbn [negb andb String.eqb Ascii.eqb Bool.eqb WebCrypto.allows WebCrypto.key_usages
       WebCrypto.key_algorithm WebCrypto.key_data existsb orb Z.eqb Pos.eqb].
  rewrite (bind_eq (read n) _ _ _ _ eq_refl).
  rewrite (bind_eq (read input) _ _ _ _ eq_refl).
  cbn [heap]. rewrite C, length_app, L.
  replace (length c + 16 <? 16)%nat with false by (symmetry; apply Nat.ltb_ge; lia).
  replace (length c + 16 - 16)%nat with (length c) by lia.
  rewrite firstn_app, firstn_all, Nat.sub_diag, app_nil_r.
  rewrite skipn_app, skipn_all, Nat.sub_diag. cbn [firstn skipn app].
  rewrite (bytes_eqb_neq _ _ T).
  eexists. split; reflexivity.
Qed.

End WebHost.

(** ** Backend B: [encrypt] and [decrypt] *)

Section WebService.
Context (P : Primitives) (std : Standard P).

Lemma encrypt_web_spec : forall plain key w,
  Store.valid (heap w) plain -> Store.valid (heap w) key ->
  byteLength plain <> 0%nat -> byteLength key = 32%nat ->
  exists e w',
    WebCryptoService.encrypt P plain key w = (Normal e, w') /\
    sealed P w w' (Store.content (heap w) plain) (Store.content (heap w) key) e.
Proof.
  intros plain key w Vd Vk Nd Nk.
  pose proof (content_length _ _ Vk) as Lk. rewrite Nk in Lk.
  pose proof (content_length _ _ Vd) as Ld.
  remember (Store.content (heap w) plain) as pt eqn:Cd. symmetry in Cd.
  remember (Store.content (heap w) key) as k eqn:Ck. symmetry in Ck.
  unfold WebCryptoService.encrypt. apply step_try.
  apply Nat.eqb_neq in Nd. rewrite Nd.
  rewrite Nk. cbn [Nat.eqb negb].
  (* iv, salt *)
  step (generateIV_web_spec w) iv0 w1 E1 F1. destruct F1 as (F1 & He1 & Hd1).
  open_fresh F1 G1 V1 C1 L1. carry G1.
  step (generateSalt_web_spec w1) salt0 w2 E2 F2. destruct F2 as (F2 & He2 & Hd2).
  open_fresh F2 G2 V2 C2 L2. carry G2.
  assert (C2' : csprng w1 (drawn w1) 32 = csprng w (drawn w + 12) 32)
    by (unfold csprng; now rewrite He1, Hd1).
  rewrite C2' in C2, L2. clear C2' He1 Hd1 He2 Hd2.
  rewrite csprng_length in L1, L2.
  (* the key and the cipher *)
  unfold WebCryptoService.CIPHER_ALGORITHM, WebCryptoService.TAG_LENGTH_BITS,
    WebCryptoService.AUTH_TAG_LENGTH.
  assert (K3 : length (Store.content (heap w2) key) = 32%nat) by now rewrite Ck.
  step (importKey_aes_spec P key ["encrypt"] w2 K3) cryptoKey w3 E3 F3.
  destruct F3 as (H3 & ->). rewrite Ck.
  pose proof (grows_same _ _ H3) as G3. carry G3.
  pose proof (grows_length _ _ G3) as S3.
  step (subtle_encrypt_spec P iv0 k plain w3) whole w4 E4 F4.
  destruct F4 as (F4 & B4). rewrite C1, Cd in F4.
  open_fresh F4 G4 V4 C4 L4. carry G4.
  apply (step_normal _ _ _ _ _ _ B4). clear B4.
  set (c := GCTR P k (csprng w (drawn w) 12) pt) in *.
  set (t := GTAG P k (csprng w (drawn w) 12) c) in *.
  assert (Lc : length c = length pt) by (apply (GCTR_length P std); exact Lk).
  assert (Lt : length t = 16%nat) by (apply (GTAG_length P std); exact Lk).
  rewrite length_app, Lt in L4.
  (* the two slices *)
  step (slice_spec whole 0 (Some (- Z.of_nat 16)%Z) w4) data' w5 E5 F5.
  cbv zeta in F5.
  rewrite relative_zero, relative_back, C4, L4 in F5 by lia.
  replace (length c + 16 - 16 - 0)%nat with (length c) in F5 by lia.
  cbn [skipn] in F5. rewrite firstn_app, firstn_all, Nat.sub_diag in F5.
  cbn [firstn] in F5. rewrite app_nil_r in F5.
  open_fresh F5 G5 V5 C5 L5. carry G5.
  step (slice_spec whole (- Z.of_nat 16)%Z None w5) authTag' w6 E6 F6.
  cbv zeta in F6.
  rewrite relative_back, C4, L4 in F6 by lia.
  replace (length c + 16 - (length c + 16 - 16))%nat with 16%nat in F6 by lia.
  replace (length c + 16 - 16)%nat with (length c) in F6 by lia.
  rewrite skipn_app, skipn_all, Nat.sub_diag in F6. cbn [skipn app] in F6.
  rewrite <- Lt, firstn_all in F6.
  open_fresh F6 G6 V6 C6 L6. carry G6.
  eexists. eexists. split; [reflexivity |].
  constructor; cbn [data iv salt authTag]; try assumption.
  - chain.
  - auto.
  - repeat split; congruence.
  - repeat split; apply unshared_fresh; lia.
  - unfold separate. cbn [data iv salt authTag].
    repeat constructor; cbn [In]; lia.
Qed.

End WebService.

Section WebDecrypt.
Context (P : Primitives).

Lemma decrypt_web_spec : forall e key w,
  Store.valid (heap w) e.(data) -> Store.valid (heap w) e.(iv) ->
  Store.valid (heap w) e.(authTag) -> Store.valid (heap w) key ->
  byteLength key = 32%nat -> byteLength e.(data) <> 0%nat ->
  byteLength e.(iv) = 12%nat -> byteLength e.(authTag) = 16%nat ->
  let k := Store.content (heap w) key in
  let n := Store.content (heap w) e.(iv) in
  let c := Store.content (heap w) e.(data) in
  let t := Store.content (heap w) e.(authTag) in
  post (WebCryptoService.decrypt P e key) w
    (fun r w' =>
       grows w w' /\
       (t = P.(GTAG) k n c ->
          exists a, r = Normal (Some a) /\ fresh w w' a (P.(GCTR) k n c)) /\
       (t <> P.(GTAG) k n c -> r = Normal None)).
Proof.
  intros e key w Vd Vi Vt Vk Nk Nd Ni Nt k n c t.
  pose proof (content_length _ _ Vk) as Lk. rewrite Nk in Lk.
  pose proof (content_length _ _ Vd) as Ld.
  pose proof (content_length _ _ Vt) as Lt.
  assert (Ck : Store.content (heap w) key = k) by reflexivity.
  assert (Ci : Store.content (heap w) (iv e) = n) by reflexivity.
  assert (Cd : Store.content (heap w) (data e) = c) by reflexivity.
  assert (Ct : Store.content (heap w) (authTag e) = t) by reflexivity.
  fold k in Lk. fold c in Ld. fold t in Lt.
  clearbody k n c t.
  unfold WebCryptoService.decrypt. apply post_try.
  pose proof Nd as Nd'. apply Nat.eqb_neq in Nd'. rewrite Nd', Nk, Ni.
  pose proof Nt as Nt'. apply Nat.eqb_eq in Nt'.
  unfold WebCryptoService.AUTH_TAG_LENGTH at 1. rewrite Nt'.
  cbn [Nat.eqb negb WebCryptoService.DEFAULT_IV_LENGTH].
  unfold WebCryptoService.CIPHER_ALGORITHM, WebCryptoService.TAG_LENGTH_BITS.
  assert (K1 : length (Store.content (heap w) key) = 32%nat) by now rewrite Ck.
  pstep (importKey_aes_spec P key ["decrypt"] w K1) cryptoKey w1 E1 F1.
  destruct F1 as (H1 & ->). rewrite Ck.
  pose proof (grows_same _ _ H1) as G1. carry G1.
  (* the ciphertext and the tag, joined in a new buffer *)
  pstep (new_of_length_spec
           (Z.of_nat (byteLength (data e) + byteLength (authTag e))) w1
           (Nat2Z.is_nonneg _)) combined w2 E2 F2.
  destruct F2 as (N2 & _). rewrite Nat2Z.id, <- Ld, <- Lt in N2.
  destruct (set_newest w1 w2 combined _ (data e) 0 N2 Vd) as (w3 & E3 & N3).
  { rewrite repeat_length. lia. }
  apply (post_bind _ _ _ _ _ _ E3). clear E3.
  destruct (set_newest w1 w3 combined _ (authTag e) (byteLength (data e)) N3 Vt)
    as (w4 & E4 & N4).
  { rewrite Cd, overwrite_length; rewrite repeat_length; lia. }
  apply (post_bind _ _ _ _ _ _ E4). clear E4.
  rewrite Cd, Ct, <- Ld, overwrite_two in N4.
  destruct (newest_fresh _ _ _ _ N4) as [F4 _].
  pose proof (newest_grows _ _ _ _ N4) as G4. carry G4.
  destruct F4 as (_ & _ & _ & C4 & _).
  assert (Lt' : length t = 16%nat) by congruence.
  assert (G : grows w w4) by chain.
  destruct (list_eq_dec Byte.byte_eq_dec t (P.(GTAG) k n c)) as [Y | Y].
  - (* the tag verifies *)
    rewrite <- Ci in Y.
    pstep (subtle_decrypt_ok P (iv e) k combined c t w4 C4 Lt' Y) plain w5 E5 F5.
    destruct F5 as (F5 & B5). rewrite Ci in F5, Y.
    apply (post_bind _ _ _ _ _ _ B5). clear B5.
    pose proof (fresh_weaken _ _ _ _ _ G F5) as F.
    unfold post, ret. cbn [fst snd]. split; [apply F |]. split.
    + intros _. now exists plain.
    + intros Z. contradiction.
  - (* it does not *)
    rewrite <- Ci in Y.
    destruct (subtle_decrypt_fail P (iv e) k combined c t w4 C4 Lt' Y)
      as (w5 & E5 & H5).
    rewrite Ci in Y.
    apply (post_bind_abrupt _ _ _ _ _ _ E5).
    unfold post, ret. cbn [fst snd]. split; [| split].
    + eapply grows_trans; [exact G | now apply grows_same].
    + intros Z. contradiction.
    + reflexivity.
Qed.

End WebDecrypt.

(** ** The example instance *)

Lemma flip_involutive : forall b, Example.flip (Example.flip b) = b.
Proof. intros b. destruct b; reflexivity. Qed.

Lemma standard_example : Standard Example.primitives.
Proof.
  constructor; cbn [GCTR GTAG PBKDF2 Example.primitives].
  - intros key iv x _. apply length_map.
  - intros key iv x _. rewrite map_map. rewrite <- (map_id x) at 2.
    apply map_ext. apply flip_involutive.
  - intros key iv c H. rewrite length_firstn, length_app. lia.
  - intros h password salt iterations dkLen _ H.
    rewrite length_firstn. cbn [length]. rewrite repeat_length. lia.
Qed.

Lemma valid_example :
  Store.valid (heap Example.world) Example.key /\
  Store.valid (heap Example.world) Example.message /\
  Store.valid (heap Example.world) Example.kdf_salt.
Proof. repeat split; cbn; lia. Qed.

(** ** Round trip *)

Section RoundTrip.
Context (P : Primitives) (std : Standard P).

(** What [encrypt] sealed, [decrypt] opens, in either backend. *)
Lemma sealed_opens : forall w w1 plain key e,
  Store.valid (heap w) plain -> Store.valid (heap w) key ->
  byteLength plain <> 0%nat -> byteLength key = 32%nat ->
  sealed P w w1 (Store.content (heap w) plain) (Store.content (heap w) key) e ->
  (exists r w2, NodeCryptoService.decrypt P e key w1 = (Normal (Some r), w2) /\
                Store.content (heap w2) r = Store.content (heap w) plain) /\
  (exists r w2, WebCryptoService.decrypt P e key w1 = (Normal (Some r), w2) /\
                Store.content (heap w2) r = Store.content (heap w) plain).
Proof.
  intros w w1 plain key e Vp Vk Np Nk
    [G Ci Cs Cd Ct (Vd & Vi & Vs & Vt) (Ld & Li & Ls & Lt) _ _].
  pose proof (content_length _ _ Vk) as Lk. rewrite Nk in Lk.
  pose proof (content_length _ _ Vp) as Lp.
  pose proof (valid_grows _ _ _ G Vk) as Vk1.
  pose proof (content_grows _ _ _ G Vk) as Ck1.
  assert (Nd : byteLength (data e) <> 0%nat) by lia.
  assert (T : Store.content (heap w1) (authTag e)
              = GTAG P (Store.content (heap w1) key) (Store.content (heap w1) (iv e))
                  (Store.content (heap w1) (data e)))
    by now rewrite Ct, Ck1, Ci, Cd.
  assert (R : GCTR P (Store.content (heap w1) key) (Store.content (heap w1) (iv e))
                (Store.content (heap w1) (data e)) = Store.content (heap w) plain)
    by (rewrite Ck1, Ci, Cd; apply (GCTR_involutive P std); exact Lk).
  split.
  - pose proof (decrypt_node_spec P e key w1 Vd Vi Vt Vk1 Nk Nd Li Lt) as H.
    cbv zeta in H. apply post_elim in H. destruct H as (r & w2 & E & _ & Y & _).
    destruct (Y T) as (a & -> & F). exists a, w2. split; [exact E |].
    destruct F as (_ & _ & _ & C & _). now rewrite C.
  - pose proof (decrypt_web_spec P e key w1 Vd Vi Vt Vk1 Nk Nd Li Lt) as H.
    cbv zeta in H. apply post_elim in H. destruct H as (r & w2 & E & _ & Y & _).
    destruct (Y T) as (a & -> & F). exists a, w2. split; [exact E |].
    destruct F as (_ & _ & _ & C & _). now rewrite C.
Qed.

End RoundTrip.

(** C1: for every non-empty [data] and every key of 32 bytes, [encrypt]
    succeeds and [decrypt] of its result under the same key returns a
    present value holding the bytes of [data], in the native backend and in
    the WebCrypto backend. *)
Theorem decrypt_encrypt_roundtrip : forall P, Standard P ->
  forall plain key w,
    Store.valid (heap w) plain -> Store.valid (heap w) key ->
    byteLength plain <> 0%nat -> byteLength key = 32%nat ->
    (exists e w1 r w2,
        NodeCryptoService.encrypt P plain key w = (Normal e, w1) /\
        NodeCryptoService.decrypt P e key w1 = (Normal (Some r), w2) /\
        Store.content (heap w2) r = Store.content (heap w) plain) /\
    (exists e w1 r w2,
        WebCryptoService.encrypt P plain key w = (Normal e, w1) /\
        WebCryptoService.decrypt P e key w1 = (Normal (Some r), w2) /\
        Store.content (heap w2) r = Store.content (heap w) plain).
Proof.
  intros P std plain key w Vp Vk Np Nk. split.
  - destruct (encrypt_node_spec P std plain key w Vp Vk Np Nk) as (e & w1 & E & S).
    destruct (sealed_opens P std w w1 plain key e Vp Vk Np Nk S)
      as [(r & w2 & D & C) _].
    now exists e, w1, r, w2.
  - destruct (encrypt_web_spec P std plain key w Vp Vk Np Nk) as (e & w1 & E & S).
    destruct (sealed_opens P std w w1 plain key e Vp Vk Np Nk S)
      as [_ (r & w2 & D & C)].
    now exists e, w1, r, w2.
Qed.

Lemma decrypt_encrypt_roundtrip_witness :
  (exists e w1 r w2,
      NodeCryptoService.encrypt Example.primitives Example.message Example.key
        Example.world = (Normal e, w1) /\
      NodeCryptoService.decrypt Example.primitives e Example.key w1
        = (Normal (Some r), w2) /\
      Store.content (heap w2) r = [x41; x42; x43]) /\
  (exists e w1 r w2,
      WebCryptoService.encrypt Example.primitives Example.message Example.key
        Example.world = (Normal e, w1) /\
      WebCryptoService.decrypt Example.primitives e Example.key w1
        = (Normal (Some r), w2) /\
      Store.content (heap w2) r = [x41; x42; x43]).
Proof.
  apply (decrypt_encrypt_roundtrip Example.primitives standard_example
           Example.message Example.key Example.world).
  - vm_compute; lia.
  - vm_compute; lia.
  - vm_compute; lia.
  - reflexivity.
Defined.

(** ** Authentication failure *)

(** C2: on a well-shaped input (key of 32 bytes, non-empty ciphertext, nonce
    of 12 bytes, tag of 16 bytes), when the tag is not the AES-256-GCM tag
    of the ciphertext under the given key and nonce -- a wrong key, an
    altered ciphertext or an altered tag -- [decrypt] returns [null] and
    throws nothing, in both backends. *)
Theorem decrypt_authentication_failure : forall P e key w,
  Store.valid (heap w) e.(data) -> Store.valid (heap w) e.(iv) ->
  Store.valid (heap w) e.(authTag) -> Store.valid (heap w) key ->
  byteLength key = 32%nat -> byteLength e.(data) <> 0%nat ->
  byteLength e.(iv) = 12%nat -> byteLength e.(authTag) = 16%nat ->
  Store.content (heap w) e.(authTag)
    <> P.(GTAG) (Store.content (heap w) key) (Store.content (heap w) e.(iv))
         (Store.content (heap w) e.(data)) ->
  (exists w', NodeCryptoService.decrypt P e key w = (Normal None, w')) /\
  (exists w', WebCryptoService.decrypt P e key w = (Normal None, w')).
Proof.
  intros P e key w Vd Vi Vt Vk Nk Nd Ni Nt T. split.
  - pose proof (decrypt_node_spec P e key w Vd Vi Vt Vk Nk Nd Ni Nt) as H.
    cbv zeta in H. apply post_elim in H. destruct H as (r & w' & E & _ & _ & N).
    exists w'. now rewrite E, (N T).
  - pose proof (decrypt_web_spec P e key w Vd Vi Vt Vk Nk Nd Ni Nt) as H.
    cbv zeta in H. apply post_elim in H. destruct H as (r & w' & E & _ & _ & N).
    exists w'. now rewrite E, (N T).
Qed.

Lemma decrypt_authentication_failure_witness :
  (exists w', NodeCryptoService.decrypt Example.primitives Example.forged
                Example.key Example.world = (Normal None, w')) /\
  (exists w', WebCryptoService.decrypt Example.primitives Example.forged
                Example.key Example.world = (Normal None, w')).
Proof.
  apply (decrypt_authentication_failure Example.primitives Example.forged
           Example.key Example.world).
  - vm_compute; lia.
  - vm_compute; lia.
  - vm_compute; lia.
  - vm_compute; lia.
  - reflexivity.
  - vm_compute; lia.
  - reflexivity.
  - reflexivity.
  - vm_compute. discriminate.
Defined.

(** The cases of the test-suite: what was encrypted is opened with another
    key, after a byte of the ciphertext was altered, after a byte of the tag
    was altered. *)
Example tampering_scenario :
  match NodeCryptoService.encrypt Example.primitives Example.message Example.key
          Example.world with
  | (Normal e, w) =>
      let altered_data := snd (write e.(data) 0 [x00] w) in
      let altered_tag := snd (write e.(authTag) 15 [xff] w) in
      fst (NodeCryptoService.decrypt Example.primitives e Example.other_key w)
        = Normal None /\
      fst (WebCryptoService.decrypt Example.primitives e Example.other_key w)
        = Normal None /\
      fst (NodeCryptoService.decrypt Example.primitives e Example.key altered_data)
        = Normal None /\
      fst (WebCryptoService.decrypt Example.primitives e Example.key altered_data)
        = Normal None /\
      fst (NodeCryptoService.decrypt Example.primitives e Example.key altered_tag)
        = Normal None /\
      fst (WebCryptoService.decrypt Example.primitives e Example.key altered_tag)
        = Normal None
  | _ => False
  end.
Proof. vm_compute. repeat split. Qed.

(** A well-shaped input never makes [decrypt] throw: the result is the
    plaintext or [null]. *)
Lemma decrypt_never_throws : forall P e key w,
  Store.valid (heap w) e.(data) -> Store.valid (heap w) e.(iv) ->
  Store.valid (heap w) e.(authTag) -> Store.valid (heap w) key ->
  byteLength key = 32%nat -> byteLength e.(data) <> 0%nat ->
  byteLength e.(iv) = 12%nat -> byteLength e.(authTag) = 16%nat ->
  (exists r w', NodeCryptoService.decrypt P e key w = (Normal r, w')) /\
  (exists r w', WebCryptoService.decrypt P e key w = (Normal r, w')).
Proof.
  intros P e key w Vd Vi Vt Vk Nk Nd Ni Nt.
  set (t := Store.content (heap w) (authTag e)).
  set (g := P.(GTAG) (Store.content (heap w) key) (Store.content (heap w) e.(iv))
              (Store.content (heap w) e.(data))).
  split.
  - pose proof (decrypt_node_spec P e key w Vd Vi Vt Vk Nk Nd Ni Nt) as H.
    cbv zeta in H. apply post_elim in H. destruct H as (r & w' & E & _ & Y & N).
    rewrite E. destruct (list_eq_dec Byte.byte_eq_dec t g) as [T | T].
    + destruct (Y T) as (a & -> & _). eauto.
    + rewrite (N T). eauto.
  - pose proof (decrypt_web_spec P e key w Vd Vi Vt Vk Nk Nd Ni Nt) as H.
    cbv zeta in H. apply post_elim in H. destruct H as (r & w' & E & _ & Y & N).
    rewrite E. destruct (list_eq_dec Byte.byte_eq_dec t g) as [T | T].
    + destruct (Y T) as (a & -> & _). eauto.
    + rewrite (N T). eauto.
Qed.

(** ** Validation in [decrypt] *)

Lemma decrypt_bad_key : forall P e key w,
  byteLength key <> 32%nat ->
  rejected (NodeCryptoService.decrypt P e key w) w "INVALID_KEY_LENGTH" /\
  rejected (WebCryptoService.decrypt P e key w) w "INVALID_KEY_LENGTH".
Proof.
  intros P e key w H. apply Nat.eqb_neq in H.
  unfold rejected, NodeCryptoService.decrypt, WebCryptoService.decrypt, try_catch.
  rewrite H. cbn. split; eexists; reflexivity.
Qed.

Lemma decrypt_empty_data : forall P e key w,
  byteLength key = 32%nat -> byteLength e.(data) = 0%nat ->
  rejected (NodeCryptoService.decrypt P e key w) w "EMPTY_ENCRYPTED_DATA" /\
  rejected (WebCryptoService.decrypt P e key w) w "EMPTY_ENCRYPTED_DATA".
Proof.
  intros P e key w K H.
  unfold rejected, NodeCryptoService.decrypt, WebCryptoService.decrypt, try_catch.
  rewrite K, H. cbn. split; eexists; reflexivity.
Qed.

Lemma decrypt_bad_iv : forall P e key w,
  byteLength key = 32%nat -> byteLength e.(data) <> 0%nat ->
  byteLength e.(iv) <> 12%nat ->
  rejected (NodeCryptoService.decrypt P e key w) w "INVALID_IV_LENGTH" /\
  rejected (WebCryptoService.decrypt P e key w) w "INVALID_IV_LENGTH".
Proof.
  intros P e key w K D H. apply Nat.eqb_neq in D, H.
  unfold rejected, NodeCryptoService.decrypt, WebCryptoService.decrypt, try_catch,
    NodeCryptoService.DEFAULT_IV_LENGTH, WebCryptoService.DEFAULT_IV_LENGTH.
  rewrite K, D, H. cbn. split; eexists; reflexivity.
Qed.

Lemma decrypt_bad_tag : forall P e key w,
  byteLength key = 32%nat -> byteLength e.(data) <> 0%nat ->
  byteLength e.(iv) = 12%nat -> byteLength e.(authTag) <> 16%nat ->
  rejected (NodeCryptoService.decrypt P e key w) w "INVALID_AUTH_TAG_LENGTH" /\
  rejected (WebCryptoService.decrypt P e key w) w "INVALID_AUTH_TAG_LENGTH".
Proof.
  intros P e key w K D I H. apply Nat.eqb_neq in D, H.
  unfold rejected, NodeCryptoService.decrypt, WebCryptoService.decrypt, try_catch,
    NodeCryptoService.DEFAULT_IV_LENGTH, WebCryptoService.DEFAULT_IV_LENGTH,
    NodeCryptoService.AUTH_TAG_LENGTH, WebCryptoService.AUTH_TAG_LENGTH.
  rewrite K, D, I, H. cbn. split; eexists; reflexivity.
Qed.

Lemma rejected_is_thrown : forall A (outcome : Completion A * World) w code,
  rejected outcome w code ->
  (forall a w', outcome <> (Normal a, w')) /\ calls (snd outcome) = calls w.
Proof.
  intros A outcome w code [msg ->]. split; [discriminate | reflexivity].
Qed.

(** C3: [decrypt] throws a [validation] error -- never returning [null] --
    whenever the key has not 32 bytes (INVALID_KEY_LENGTH), the ciphertext is
    empty (EMPTY_ENCRYPTED_DATA), the nonce has not 12 bytes
    (INVALID_IV_LENGTH) or the tag has not 16 bytes
    (INVALID_AUTH_TAG_LENGTH), in both backends; the checks run in this
    order, the first that fails gives the code, and the world is left as it
    was: nothing was allocated, drawn from the CSPRNG or asked of the host's
    cryptographic library. *)
Theorem decrypt_validation : forall P e key w,
  let node := NodeCryptoService.decrypt P e key w in
  let web := WebCryptoService.decrypt P e key w in
  let bad_key := byteLength key <> 32%nat in
  let no_data := byteLength e.(data) = 0%nat in
  let bad_iv := byteLength e.(iv) <> 12%nat in
  let bad_tag := byteLength e.(authTag) <> 16%nat in
  (bad_key \/ no_data \/ bad_iv \/ bad_tag ->
     exists code,
       In code ["INVALID_KEY_LENGTH"; "EMPTY_ENCRYPTED_DATA";
                "INVALID_IV_LENGTH"; "INVALID_AUTH_TAG_LENGTH"] /\
       rejected node w code /\ rejected web w code /\
       (forall a w', node <> (Normal a, w') /\ web <> (Normal a, w')) /\
       calls (snd node) = calls w /\ calls (snd web) = calls w) /\
  (bad_key ->
     rejected node w "INVALID_KEY_LENGTH" /\ rejected web w "INVALID_KEY_LENGTH") /\
  (~ bad_key -> no_data ->
     rejected node w "EMPTY_ENCRYPTED_DATA" /\
     rejected web w "EMPTY_ENCRYPTED_DATA") /\
  (~ bad_key -> ~ no_data -> bad_iv ->
     rejected node w "INVALID_IV_LENGTH" /\ rejected web w "INVALID_IV_LENGTH") /\
  (~ bad_key -> ~ no_data -> ~ bad_iv -> bad_tag ->
     rejected node w "INVALID_AUTH_TAG_LENGTH" /\
     rejected web w "INVALID_AUTH_TAG_LENGTH").
Proof.
  intros P e key w node web bad_key no_data bad_iv bad_tag.
  subst node web bad_key no_data bad_iv bad_tag.
  assert (Hk := decrypt_bad_key P e key w).
  assert (Hd := decrypt_empty_data P e key w).
  assert (Hi := decrypt_bad_iv P e key w).
  assert (Ht := decrypt_bad_tag P e key w).
  destruct (Nat.eq_dec (byteLength key) 32) as [K | K];
  destruct (Nat.eq_dec (byteLength (data e)) 0) as [D | D];
  destruct (Nat.eq_dec (byteLength (iv e)) 12) as [I | I];
  destruct (Nat.eq_dec (byteLength (authTag e)) 16) as [T | T];
  (split; [| repeat split; intros; try contradiction; try lia;
             solve [apply Hk; assumption | apply Hd; assumption
                   | apply Hi; assumption | apply Ht; assumption]]);
  intros H;
  match goal with
  | K : byteLength key <> 32%nat |- _ =>
      exists "INVALID_KEY_LENGTH"; destruct (Hk K) as [R1 R2]
  | D : byteLength (data e) = 0%nat |- _ =>
      exists "EMPTY_ENCRYPTED_DATA"; destruct (Hd K D) as [R1 R2]
  | I : byteLength (iv e) <> 12%nat |- _ =>
      exists "INVALID_IV_LENGTH"; destruct (Hi K D I) as [R1 R2]
  | T : byteLength (authTag e) <> 16%nat |- _ =>
      exists "INVALID_AUTH_TAG_LENGTH"; destruct (Ht K D I T) as [R1 R2]
  | _ => exfalso; tauto
  end;
  (split; [cbn; tauto |]);
  destruct (rejected_is_thrown _ _ _ _ R1) as [A1 C1];
  destruct (rejected_is_thrown _ _ _ _ R2) as [A2 C2];
  repeat split; auto.
Qed.

(** The inputs of the test-suite: a key of 16 bytes; an empty ciphertext. *)
Example decrypt_validation_scenario :
  NodeCryptoService.decrypt Example.primitives Example.forged Example.short_key
    Example.world
  = (Abrupt (JsError (createCryptoError validation "INVALID_KEY_LENGTH"
                        "Key must be 32 bytes for AES-256")), Example.world) /\
  WebCryptoService.decrypt Example.primitives
    {| data := Example.empty; iv := iv Example.forged; salt := Example.empty;
       authTag := authTag Example.forged |} Example.key Example.world
  = (Abrupt (JsError (createCryptoError validation "EMPTY_ENCRYPTED_DATA"
                        "Encrypted data cannot be empty")), Example.world).
Proof. split; reflexivity. Qed.

(** ** The record returned by [encrypt] *)

Lemma sealed_fresh_fields : forall P w w' plaintext key e,
  sealed P w w' plaintext key e -> fresh_fields w w' e.
Proof.
  intros P w w' plaintext key e [G Ci Cs Cd Ct V (Ld & L) U S].
  unfold fresh_fields. auto.
Qed.

(** C7: a successful [encrypt] (non-empty data, key of 32 bytes) returns a
    nonce of 12 bytes, a salt of 32 bytes and a tag of 16 bytes; nonce and
    salt are the next 12 and the following 32 bytes of the host's CSPRNG,
    whatever the caller passed; the four fields lie in four different
    buffers, none of which backs an array that existed before the call (the
    inputs among them). *)
Theorem encrypt_fresh_fields : forall P, Standard P ->
  forall plain key w,
    Store.valid (heap w) plain -> Store.valid (heap w) key ->
    byteLength plain <> 0%nat -> byteLength key = 32%nat ->
    (exists e w',
        NodeCryptoService.encrypt P plain key w = (Normal e, w') /\
        fresh_fields w w' e /\
        (forall field, In field [e.(data); e.(iv); e.(salt); e.(authTag)] ->
           ~ Store.shares_storage field plain /\ ~ Store.shares_storage field key)) /\
    (exists e w',
        WebCryptoService.encrypt P plain key w = (Normal e, w') /\
        fresh_fields w w' e /\
        (forall field, In field [e.(data); e.(iv); e.(salt); e.(authTag)] ->
           ~ Store.shares_storage field plain /\ ~ Store.shares_storage field key)).
Proof.
  intros P std plain key w Vp Vk Np Nk.
  assert (inputs : forall w' e, fresh_fields w w' e ->
            forall field, In field [e.(data); e.(iv); e.(salt); e.(authTag)] ->
              ~ Store.shares_storage field plain /\ ~ Store.shares_storage field key).
  { intros w' e (_ & _ & _ & Ud & Ui & Us & Ut) field [<- | [<- | [<- | [<- | []]]]];
      auto. }
  split.
  - destruct (encrypt_node_spec P std plain key w Vp Vk Np Nk) as (e & w' & E & S).
    apply sealed_fresh_fields in S. exists e, w'. eauto.
  - destruct (encrypt_web_spec P std plain key w Vp Vk Np Nk) as (e & w' & E & S).
    apply sealed_fresh_fields in S. exists e, w'. eauto.
Qed.

Lemma encrypt_fresh_fields_witness :
  (exists e w',
      NodeCryptoService.encrypt Example.primitives Example.message Example.key
        Example.world = (Normal e, w') /\
      fresh_fields Example.world w' e /\
      (forall field, In field [e.(data); e.(iv); e.(salt); e.(authTag)] ->
         ~ Store.shares_storage field Example.message /\
         ~ Store.shares_storage field Example.key)) /\
  (exists e w',
      WebCryptoService.encrypt Example.primitives Example.message Example.key
        Example.world = (Normal e, w') /\
      fresh_fields Example.world w' e /\
      (forall field, In field [e.(data); e.(iv); e.(salt); e.(authTag)] ->
         ~ Store.shares_storage field Example.message /\
         ~ Store.shares_storage field Example.key)).
Proof.
  apply (encrypt_fresh_fields Example.primitives standard_example
           Example.message Example.key Example.world).
  - vm_compute; lia.
  - vm_compute; lia.
  - vm_compute; lia.
  - reflexivity.
Defined.

(** ** The salt of an encrypted record *)

(** C10: [decrypt] does not look at the [salt] field: two records that
    differ in nothing but their salt (of any length, empty or not) get the
    same answer -- the same error, [null] or plaintext -- from the same
    key, in both backends. *)
Theorem decrypt_ignores_salt : forall P d n t salt1 salt2 key w,
  NodeCryptoService.decrypt P
    {| data := d; iv := n; salt := salt1; authTag := t |} key w
  = NodeCryptoService.decrypt P
      {| data := d; iv := n; salt := salt2; authTag := t |} key w /\
  WebCryptoService.decrypt P
    {| data := d; iv := n; salt := salt1; authTag := t |} key w
  = WebCryptoService.decrypt P
      {| data := d; iv := n; salt := salt2; authTag := t |} key w.
Proof. intros. split; reflexivity. Qed.

(** ** Key derivation *)

Lemma newest_same : forall w0 w w' a x,
  heap w' = heap w -> newest w0 w a x -> newest w0 w' a x.
Proof. intros w0 w w' a x E [H ->]. split; [congruence | reflexivity]. Qed.

Section DeriveKey.
Context (P : Primitives).

Lemma pbkdf2_spec : forall password salt iterations keylen params w,
  (1 <= iterations <= 2 ^ 31 - 1)%Z -> (1 <= keylen <= 2 ^ 31 - 1)%Z ->
  exists a w',
    NodeCrypto.pbkdf2 P password salt iterations keylen
      (if params.(hashFunction) =? "sha512" then "sha512" else "sha256") w
      = (Normal a, w') /\
    fresh w w' a (P.(PBKDF2) (selected_hash params) (JsString.utf8 password)
                    (Store.content (heap w) salt) iterations keylen).
Proof.
  intros password salt iterations keylen params w I K.
  unfold NodeCrypto.pbkdf2, NodeCrypto.INT32_MAX.
  rewrite (bind_eq (host _) _ w tt _ eq_refl).
  replace (iterations <? 1)%Z with false by (symmetry; apply Z.ltb_ge; lia).
  replace (2 ^ 31 - 1 <? iterations)%Z with false by (symmetry; apply Z.ltb_ge; lia).
  replace (keylen <? 0)%Z with false by (symmetry; apply Z.ltb_ge; lia).
  replace (2 ^ 31 - 1 <? keylen)%Z with false by (symmetry; apply Z.ltb_ge; lia).
  cbn [orb]. unfold selected_hash.
  destruct (hashFunction params =? "sha512"); cbn [NodeCrypto.digest String.eqb
    Ascii.eqb Bool.eqb];
    replace (keylen =? 0)%Z with false by (symmetry; apply Z.eqb_neq; lia);
    rewrite (bind_eq (read salt) _ _ _ _ eq_refl); cbn [heap];
    match goal with
    | |- context [allocate ?c ?w1] =>
        destruct (allocate_spec c w1) as (a & w' & E & F & _)
    end;
    exists a, w'; (split; [exact E | eapply fresh_same; [| exact F]; reflexivity]).
Qed.

Lemma deriveKey_node_spec : forall password salt params w,
  String.length password <> 0%nat ->
  Store.valid (heap w) salt -> byteLength salt <> 0%nat ->
  (1 <= params.(iterations) <= 2 ^ 31 - 1)%Z ->
  (1 <= params.(keyLength) <= 2 ^ 31 - 1)%Z ->
  exists a w',
    NodeCryptoService.deriveKey P password salt params w = (Normal a, w') /\
    fresh w w' a (P.(PBKDF2) (selected_hash params) (JsString.utf8 password)
                    (Store.content (heap w) salt)
                    params.(iterations) params.(keyLength)).
Proof.
  intros password salt params w Np Vs Ns I K.
  remember (Store.content (heap w) salt) as s eqn:Cs. symmetry in Cs.
  unfold NodeCryptoService.deriveKey. apply step_try.
  apply Nat.eqb_neq in Np, Ns. rewrite Np, Ns. cbv zeta.
  unfold NodeCrypto.Buffer_from.
  step (new_of_array_spec salt w) saltBuffer w1 E1 F1. destruct F1 as (F1 & _).
  rewrite Cs in F1. open_fresh F1 G1 V1 C1 L1. carry G1.
  step (pbkdf2_spec password saltBuffer (iterations params) (keyLength params)
          params w1 I K) derivedKey w2 E2 F2.
  rewrite C1 in F2. open_fresh F2 G2 V2 C2 L2. carry G2.
  destruct (new_of_array_spec derivedKey w2) as (a & w3 & E3 & F3 & _).
  rewrite C2 in F3. exists a, w3. split; [exact E3 |].
  eapply fresh_weaken; [| exact F3]. chain.
Qed.

(** The count of bits of a key of [n] bytes, as an [unsigned long]. *)
Lemma ToUint32_bits : forall n,
  WebCrypto.ToUint32 (n * 8) = (n mod 2 ^ 29 * 8)%Z.
Proof.
  intros n. unfold WebCrypto.ToUint32.
  change (2 ^ 32)%Z with (2 ^ 29 * 8)%Z.
  apply Z.mul_mod_distr_r; lia.
Qed.

Lemma deriveBits_spec : forall salt iterations keyLength material params w,
  (1 <= iterations <= 2 ^ 31 - 1)%Z -> (1 <= keyLength mod 2 ^ 29)%Z ->
  exists a w',
    WebCrypto.deriveBits P salt iterations
      (if params.(hashFunction) =? "sha512" then "SHA-512" else "SHA-256")
      {| WebCrypto.key_algorithm := "PBKDF2"; WebCrypto.key_data := material;
         WebCrypto.key_usages := ["deriveBits"] |} (keyLength * 8) w
      = (Normal (buffer a), w') /\
    fresh w w' a (P.(PBKDF2) (selected_hash params) material
                    (Store.content (heap w) salt) iterations
                    (keyLength mod 2 ^ 29)) /\
    TypedArray.new_of_buffer (buffer a) w' = (Normal a, w').
Proof.
  intros salt iterations keyLength material params w I K.
  unfold WebCrypto.deriveBits. cbv zeta. rewrite ToUint32_bits.
  rewrite (bind_eq (host _) _ w tt _ eq_refl).
  replace (iterations <? 0)%Z with false by (symmetry; apply Z.ltb_ge; lia).
  replace (2 ^ 32 - 1 <? iterations)%Z with false by (symmetry; apply Z.ltb_ge; lia).
  replace (iterations =? 0)%Z with false by (symmetry; apply Z.eqb_neq; lia).
  replace (2 ^ 31 - 1 <? iterations)%Z with false by (symmetry; apply Z.ltb_ge; lia).
  replace (keyLength mod 2 ^ 29 * 8 =? 0)%Z with false
    by (symmetry; apply Z.eqb_neq; lia).
  rewrite Z.mod_mul by lia. rewrite Z.div_mul by lia.
  cbn [orb]. unfold selected_hash.
  destruct (hashFunction params =? "sha512"); cbn [WebCrypto.hash String.eqb
    Ascii.eqb Bool.eqb negb andb WebCrypto.allows WebCrypto.key_usages
    WebCrypto.key_algorithm WebCrypto.key_data existsb orb Z.eqb];
    rewrite (bind_eq (read salt) _ _ _ _ eq_refl); cbn [heap];
    match goal with
    | |- context [allocate ?c] =>
        match goal with
        | |- context [bind _ _ ?w1] =>
            destruct (allocate_buffer_spec c w1) as (a & w' & E & F & V)
        end
    end;
    exists a, w';
    (split; [now rewrite (bind_eq _ _ _ _ _ E) |]);
    (split; [eapply fresh_same; [| exact F]; reflexivity | exact V]).
Qed.

Lemma deriveKey_web_spec : forall password salt params w,
  String.length password <> 0%nat ->
  Store.valid (heap w) salt -> byteLength salt <> 0%nat ->
  importable P password ->
  (1 <= params.(iterations) <= 2 ^ 31 - 1)%Z ->
  (1 <= params.(keyLength) mod 2 ^ 29)%Z ->
  exists a w',
    WebCryptoService.deriveKey P password salt params w = (Normal a, w') /\
    fresh w w' a (P.(PBKDF2) (selected_hash params) (JsString.utf8 password)
                    (Store.content (heap w) salt)
                    params.(iterations) (params.(keyLength) mod 2 ^ 29)).
Proof.
  intros password salt params w Np Vs Ns A I K.
  remember (Store.content (heap w) salt) as s eqn:Cs. symmetry in Cs.
  unfold WebCryptoService.deriveKey. apply step_try.
  apply Nat.eqb_neq in Np, Ns. rewrite Np, Ns.
  (* the password, encoded, imported, and wiped *)
  assert (N1 : newest w (with_heap w (heap w ++ [JsString.utf8 password]))
                 {| buffer := length (heap w); byteOffset := 0;
                    byteLength := length (JsString.utf8 password) |}
                 (JsString.utf8 password)) by (split; reflexivity).
  apply (step_normal (TextEncoder_encode password) _ w _ _ _ eq_refl).
  set (passwordBuffer := {| buffer := length (heap w) |}) in *.
  set (w1 := with_heap w _) in *.
  destruct (newest_fresh _ _ _ _ N1) as [(_ & _ & _ & C1 & _) _].
  assert (A1 : refuses P (Store.content (heap w1) passwordBuffer) = None)
    by (rewrite C1; exact A).
  step (importKey_pbkdf2_spec P passwordBuffer ["deriveBits"] w1 A1) keyMaterial w2 E2 F2.
  destruct F2 as (H2 & ->). rewrite C1.
  pose proof (newest_same _ _ _ _ _ H2 N1) as N2.
  destruct (write_newest w w2 passwordBuffer _ 0
              (repeat x00 (byteLength passwordBuffer)) N2) as (w3 & E3 & N3 & _).
  { rewrite repeat_length. cbn. lia. }
  unfold TypedArray.fill. apply (step_normal _ _ _ _ _ _ E3). cbv zeta.
  (* the derivation reads the salt, which is where it was *)
  pose proof (newest_grows _ _ _ _ N3) as G3. carry G3.
  step (deriveBits_spec salt (iterations params) (keyLength params)
          (JsString.utf8 password) params w3 I K) bits w4 E4 F4.
  destruct F4 as (F4 & B4). rewrite Cs in F4.
  exists bits, w4. split; [exact B4 |].
  eapply fresh_weaken; [exact G3 | exact F4].
Qed.

End DeriveKey.

Section DeriveKeyStable.
Context (P : Primitives).

Lemma importKey_randomness : forall format keyData algorithm extractable usages w,
  same_randomness w
    (snd (WebCrypto.importKey P format keyData algorithm extractable usages w)).
Proof.
  intros. unfold WebCrypto.importKey, bind, host, read, throw, ret.
  cbn [heap].
  repeat match goal with
         | |- context [if ?c then _ else _] => destruct c
         | |- context [match refuses P ?x with _ => _ end] => destruct (refuses P x)
         end; split; reflexivity.
Qed.

(** The WebCrypto backend up to the derivation.  The password is encoded
    into a new buffer, which [importKey] reads; when the host takes it the
    buffer is wiped and the derivation runs in the world [w3]; when the host
    refuses it the call is over, and the buffer keeps the password. *)
Lemma deriveKey_web_accepted : forall password salt params w,
  String.length password <> 0%nat -> byteLength salt <> 0%nat ->
  importable P password ->
  exists w3,
    heap w3 = heap w ++ [repeat x00 (length (JsString.utf8 password))] /\
    same_randomness w w3 /\
    WebCryptoService.deriveKey P password salt params w
    = try_catch
        (derivedBits <- WebCrypto.deriveBits P salt params.(iterations)
                          (if params.(hashFunction) =? "sha512"
                           then "SHA-512" else "SHA-256")
                          {| WebCrypto.key_algorithm := "PBKDF2";
                             WebCrypto.key_data := JsString.utf8 password;
                             WebCrypto.key_usages := ["deriveBits"] |}
                          (params.(keyLength) * 8) ;;
         TypedArray.new_of_buffer derivedBits)
        (fun error =>
           if isCryptoError error then throw error
           else
             let sanitizedMessage := sanitizeErrorMessage error in
             throw (JsError (createCryptoError key_derivation "DERIVATION_FAILED"
                               sanitizedMessage))) w3.
Proof.
  intros password salt params w Np Ns A. apply Nat.eqb_neq in Np, Ns.
  assert (N1 : newest w (with_heap w (heap w ++ [JsString.utf8 password]))
                 {| buffer := length (heap w); byteOffset := 0;
                    byteLength := length (JsString.utf8 password) |}
                 (JsString.utf8 password)) by (split; reflexivity).
  set (passwordBuffer := {| buffer := length (heap w) |}) in *.
  set (w1 := with_heap w _) in *.
  destruct (newest_fresh _ _ _ _ N1) as [(_ & _ & _ & C1 & _) _].
  assert (A1 : refuses P (Store.content (heap w1) passwordBuffer) = None)
    by (rewrite C1; exact A).
  destruct (importKey_pbkdf2_spec P passwordBuffer ["deriveBits"] w1 A1)
    as (keyMaterial & w2 & E2 & H2 & ->).
  assert (R2 : same_randomness w w2).
  { pose proof (importKey_randomness "raw" passwordBuffer "PBKDF2" false
                  ["deriveBits"] w1) as R.
    rewrite E2 in R. exact R. }
  pose proof (newest_same _ _ _ _ _ H2 N1) as N2.
  destruct (write_newest w w2 passwordBuffer _ 0
              (repeat x00 (byteLength passwordBuffer)) N2) as (w3 & E3 & N3 & He & Hd).
  { rewrite repeat_length. cbn. lia. }
  rewrite overwrite_all in N3 by (rewrite repeat_length; reflexivity).
  exists w3. split; [exact (proj1 N3) |]. split.
  { destruct R2 as [He2 Hd2]. split; congruence. }
  unfold WebCryptoService.deriveKey, try_catch. rewrite Np, Ns.
  rewrite (bind_eq (TextEncoder_encode password) _ w passwordBuffer w1 eq_refl).
  rewrite (bind_eq _ _ _ _ _ E2).
  unfold TypedArray.fill. rewrite (bind_eq _ _ _ _ _ E3). cbv zeta.
  rewrite C1. reflexivity.
Qed.

Lemma deriveKey_web_refused : forall password salt params w msg,
  String.length password <> 0%nat -> byteLength salt <> 0%nat ->
  P.(refuses) (JsString.utf8 password) = Some msg ->
  exists w2,
    heap w2 = heap w ++ [JsString.utf8 password] /\
    same_randomness w w2 /\
    WebCryptoService.deriveKey P password salt params w
    = (Abrupt (JsError (createCryptoError key_derivation "DERIVATION_FAILED"
                          (sanitizeErrorMessage (JsError (Error msg))))), w2).
Proof.
  intros password salt params w msg Np Ns A. apply Nat.eqb_neq in Np, Ns.
  assert (N1 : newest w (with_heap w (heap w ++ [JsString.utf8 password]))
                 {| buffer := length (heap w); byteOffset := 0;
                    byteLength := length (JsString.utf8 password) |}
                 (JsString.utf8 password)) by (split; reflexivity).
  set (passwordBuffer := {| buffer := length (heap w) |}) in *.
  set (w1 := with_heap w _) in *.
  destruct (newest_fresh _ _ _ _ N1) as [(_ & _ & _ & C1 & _) _].
  assert (A1 : refuses P (Store.content (heap w1) passwordBuffer) = Some msg)
    by (rewrite C1; exact A).
  destruct (importKey_pbkdf2_refused P passwordBuffer ["deriveBits"] w1 msg A1)
    as (w2 & E2 & H2).
  exists w2. split; [exact H2 |]. split.
  { pose proof (importKey_randomness "raw" passwordBuffer "PBKDF2" false
                  ["deriveBits"] w1) as R.
    rewrite E2 in R. exact R. }
  unfold WebCryptoService.deriveKey, try_catch. rewrite Np, Ns.
  rewrite (bind_eq (TextEncoder_encode password) _ w passwordBuffer w1 eq_refl).
  rewrite (bind_abrupt _ _ _ _ _ E2). reflexivity.
Qed.

(** A key length that is a multiple of [2^29]: no bits are asked for. *)
Lemma deriveBits_nothing : forall salt iterations keyLength material params w,
  (1 <= iterations <= 2 ^ 32 - 1)%Z -> (keyLength mod 2 ^ 29 = 0)%Z ->
  exists a w',
    WebCrypto.deriveBits P salt iterations
      (if params.(hashFunction) =? "sha512" then "SHA-512" else "SHA-256")
      {| WebCrypto.key_algorithm := "PBKDF2"; WebCrypto.key_data := material;
         WebCrypto.key_usages := ["deriveBits"] |} (keyLength * 8) w
      = (Normal (buffer a), w') /\
    fresh w w' a [] /\
    TypedArray.new_of_buffer (buffer a) w' = (Normal a, w').
Proof.
  intros salt iterations keyLength material params w I K.
  unfold WebCrypto.deriveBits. cbv zeta. rewrite ToUint32_bits, K.
  rewrite (bind_eq (host _) _ w tt _ eq_refl).
  replace (iterations <? 0)%Z with false by (symmetry; apply Z.ltb_ge; lia).
  replace (2 ^ 32 - 1 <? iterations)%Z with false by (symmetry; apply Z.ltb_ge; lia).
  replace (iterations =? 0)%Z with false by (symmetry; apply Z.eqb_neq; lia).
  cbn [orb].
  destruct (hashFunction params =? "sha512"); cbn [WebCrypto.hash String.eqb
    Ascii.eqb Bool.eqb negb andb WebCrypto.allows WebCrypto.key_usages
    WebCrypto.key_algorithm WebCrypto.key_data existsb orb Z.eqb Z.mul];
    match goal with
    | |- context [bind _ _ ?w1] =>
        destruct (allocate_buffer_spec [] w1) as (a & w' & E & F & V)
    end;
    exists a, w';
    (split; [now rewrite (bind_eq _ _ _ _ _ E) |]);
    (split; [eapply fresh_same; [| exact F]; reflexivity | exact V]).
Qed.

Lemma deriveKey_node_stable : forall password params w1 w2 salt1 salt2,
  Store.valid (heap w1) salt1 -> Store.valid (heap w2) salt2 ->
  Store.content (heap w1) salt1 = Store.content (heap w2) salt2 ->
  same_outcome (NodeCryptoService.deriveKey P password salt1 params w1)
               (NodeCryptoService.deriveKey P password salt2 params w2).
Proof.
  intros password params w1 w2 salt1 salt2 V1 V2 C.
  assert (L : byteLength salt1 = byteLength salt2)
    by now rewrite <- (content_length _ _ V1), <- (content_length _ _ V2), C.
  destruct (Nat.eq_dec (String.length password) 0) as [Np | Np];
    [| destruct (Nat.eq_dec (byteLength salt1) 0) as [Ns | Ns]].
  - unfold same_outcome, NodeCryptoService.deriveKey, try_catch. now rewrite Np.
  - apply Nat.eqb_neq in Np.
    unfold same_outcome, NodeCryptoService.deriveKey, try_catch.
    now rewrite Np, <- L, Ns.
  - destruct ((iterations params <? 1) || (2 ^ 31 - 1 <? iterations params))%Z eqn:I;
      [| destruct ((keyLength params <? 0) || (2 ^ 31 - 1 <? keyLength params))%Z eqn:K;
         [| destruct (keyLength params =? 0)%Z eqn:K0]].
    + apply Nat.eqb_neq in Np, Ns.
      unfold same_outcome, NodeCryptoService.deriveKey, try_catch, bind,
        NodeCrypto.Buffer_from, TypedArray.new_of_array, NodeCrypto.pbkdf2,
        NodeCrypto.INT32_MAX, bind, host, read, allocate, throw.
      now rewrite Np, <- L, Ns, I.
    + apply Nat.eqb_neq in Np, Ns.
      unfold same_outcome, NodeCryptoService.deriveKey, try_catch, bind,
        NodeCrypto.Buffer_from, TypedArray.new_of_array, NodeCrypto.pbkdf2,
        NodeCrypto.INT32_MAX, bind, host, read, allocate, throw.
      now rewrite Np, <- L, Ns, I, K.
    + apply Nat.eqb_neq in Np, Ns.
      unfold same_outcome, NodeCryptoService.deriveKey, try_catch, bind,
        NodeCrypto.Buffer_from, TypedArray.new_of_array, NodeCrypto.pbkdf2,
        NodeCrypto.INT32_MAX, bind, host, read, allocate, throw.
      rewrite Np, <- L, Ns, I, K.
      destruct (hashFunction params =? "sha512"); cbn; now rewrite K0.
    + assert (Ns2 : byteLength salt2 <> 0%nat) by congruence.
      apply orb_false_iff in I, K. destruct I as [I1 I2], K as [K1 K2].
      apply Z.ltb_ge in I1, I2, K1, K2. apply Z.eqb_neq in K0.
      assert (I' : (1 <= iterations params <= 2 ^ 31 - 1)%Z) by lia.
      assert (K' : (1 <= keyLength params <= 2 ^ 31 - 1)%Z) by lia.
      destruct (deriveKey_node_spec P password salt1 params w1 Np V1 Ns I' K')
        as (a & w1' & E1 & _ & _ & _ & C1 & _).
      destruct (deriveKey_node_spec P password salt2 params w2 Np V2 Ns2 I' K')
        as (b & w2' & E2 & _ & _ & _ & C2 & _).
      unfold same_outcome. rewrite E1, E2. cbn [fst snd]. now rewrite C1, C2, C.
Qed.

(** The derivation proper, in two worlds that hold the same salt. *)
Lemma derivation_stable : forall material params w1 w2 salt1 salt2,
  Store.content (heap w1) salt1 = Store.content (heap w2) salt2 ->
  let derivation salt :=
    try_catch
      (derivedBits <- WebCrypto.deriveBits P salt params.(iterations)
                        (if params.(hashFunction) =? "sha512"
                         then "SHA-512" else "SHA-256")
                        {| WebCrypto.key_algorithm := "PBKDF2";
                           WebCrypto.key_data := material;
                           WebCrypto.key_usages := ["deriveBits"] |}
                        (params.(keyLength) * 8) ;;
       TypedArray.new_of_buffer derivedBits)
      (fun error =>
         if isCryptoError error then throw error
         else
           let sanitizedMessage := sanitizeErrorMessage error in
           throw (JsError (createCryptoError key_derivation "DERIVATION_FAILED"
                             sanitizedMessage))) in
  same_outcome (derivation salt1 w1) (derivation salt2 w2).
Proof.
  intros material params w1 w2 salt1 salt2 C derivation. subst derivation.
  destruct ((iterations params <? 0) || (2 ^ 32 - 1 <? iterations params))%Z eqn:I;
    [| destruct (iterations params =? 0)%Z eqn:I0;
       [| destruct (Z.eq_dec (keyLength params mod 2 ^ 29) 0) as [K | K];
          [| destruct (2 ^ 31 - 1 <? iterations params)%Z eqn:I31]]].
  - unfold same_outcome, try_catch, bind, WebCrypto.deriveBits, bind, host, throw.
    now rewrite I.
  - unfold same_outcome, try_catch, bind, WebCrypto.deriveBits, bind, host, throw.
    rewrite I, I0.
    destruct (hashFunction params =? "sha512"); reflexivity.
  - apply orb_false_iff in I. destruct I as [I1 I2].
    apply Z.ltb_ge in I1, I2. apply Z.eqb_neq in I0.
    assert (I' : (1 <= iterations params <= 2 ^ 32 - 1)%Z) by lia.
    destruct (deriveBits_nothing salt1 (iterations params) (keyLength params)
                material params w1 I' K) as (a & w1' & E1 & F1 & B1).
    destruct (deriveBits_nothing salt2 (iterations params) (keyLength params)
                material params w2 I' K) as (b & w2' & E2 & F2 & B2).
    unfold same_outcome, try_catch.
    rewrite (bind_eq _ _ _ _ _ E1), (bind_eq _ _ _ _ _ E2), B1, B2. cbn [fst snd].
    destruct F1 as (_ & _ & _ & -> & _). destruct F2 as (_ & _ & _ & -> & _).
    reflexivity.
  - unfold same_outcome, try_catch, bind, WebCrypto.deriveBits, bind, host, throw.
    cbv zeta. rewrite ToUint32_bits, I, I0, I31, Z.mod_mul by lia.
    replace (keyLength params mod 2 ^ 29 * 8 =? 0)%Z with false
      by (symmetry; apply Z.eqb_neq; lia).
    destruct (hashFunction params =? "sha512"); reflexivity.
  - apply orb_false_iff in I. destruct I as [I1 I2].
    apply Z.ltb_ge in I1, I2, I31. apply Z.eqb_neq in I0.
    assert (I' : (1 <= iterations params <= 2 ^ 31 - 1)%Z) by lia.
    assert (K' : (1 <= keyLength params mod 2 ^ 29)%Z).
    { pose proof (Z.mod_pos_bound (keyLength params) (2 ^ 29)). lia. }
    destruct (deriveBits_spec P salt1 (iterations params) (keyLength params)
                material params w1 I' K') as (a & w1' & E1 & F1 & B1).
    destruct (deriveBits_spec P salt2 (iterations params) (keyLength params)
                material params w2 I' K') as (b & w2' & E2 & F2 & B2).
    unfold same_outcome, try_catch.
    rewrite (bind_eq _ _ _ _ _ E1), (bind_eq _ _ _ _ _ E2), B1, B2. cbn [fst snd].
    destruct F1 as (_ & _ & _ & -> & _). destruct F2 as (_ & _ & _ & -> & _).
    now rewrite C.
Qed.

Lemma deriveKey_web_stable : forall password params w1 w2 salt1 salt2,
  Store.valid (heap w1) salt1 -> Store.valid (heap w2) salt2 ->
  Store.content (heap w1) salt1 = Store.content (heap w2) salt2 ->
  same_outcome (WebCryptoService.deriveKey P password salt1 params w1)
               (WebCryptoService.deriveKey P password salt2 params w2).
Proof.
  intros password params w1 w2 salt1 salt2 V1 V2 C.
  assert (L : byteLength salt1 = byteLength salt2)
    by now rewrite <- (content_length _ _ V1), <- (content_length _ _ V2), C.
  destruct (Nat.eq_dec (String.length password) 0) as [Np | Np];
    [| destruct (Nat.eq_dec (byteLength salt1) 0) as [Ns | Ns]].
  - unfold same_outcome, WebCryptoService.deriveKey, try_catch. now rewrite Np.
  - apply Nat.eqb_neq in Np.
    unfold same_outcome, WebCryptoService.deriveKey, try_catch.
    now rewrite Np, <- L, Ns.
  - assert (Ns2 : byteLength salt2 <> 0%nat) by congruence.
    destruct (refuses P (JsString.utf8 password)) as [msg |] eqn:A.
    + destruct (deriveKey_web_refused password salt1 params w1 msg Np Ns A)
        as (w1' & _ & _ & ->).
      destruct (deriveKey_web_refused password salt2 params w2 msg Np Ns2 A)
        as (w2' & _ & _ & ->).
      reflexivity.
    + destruct (deriveKey_web_accepted password salt1 params w1 Np Ns A)
        as (w1' & H1 & _ & ->).
      destruct (deriveKey_web_accepted password salt2 params w2 Np Ns2 A)
        as (w2' & H2 & _ & ->).
      apply derivation_stable.
      assert (G1 : grows w1 w1') by (eexists; exact H1).
      assert (G2 : grows w2 w2') by (eexists; exact H2).
      now rewrite (content_grows _ _ _ G1 V1), (content_grows _ _ _ G2 V2).
Qed.

End DeriveKeyStable.

(** C6: [deriveKey] is deterministic: two calls on the same password, salt
    bytes and parameters end alike whatever the state of the store, of the
    CSPRNG and of the log of host calls, in either backend.  For a non-empty
    password that the host imports, a non-empty salt, an iteration count of
    [1 .. 2^31 - 1] and a key length of [1 .. 2^29 - 1] the call succeeds,
    and its result holds the [keyLength] bytes PBKDF2 assigns to (password,
    salt, iterations, keyLength, hash), the same in the native backend as in
    the WebCrypto backend; the hash is SHA-512 for "sha512" and SHA-256 for
    any other value.  (Beyond these bounds the hosts have limits of their
    own, and the two backends part.) *)
Theorem deriveKey_deterministic : forall P, Standard P ->
  forall password params,
    (forall w1 w2 salt1 salt2,
        Store.valid (heap w1) salt1 -> Store.valid (heap w2) salt2 ->
        Store.content (heap w1) salt1 = Store.content (heap w2) salt2 ->
        same_outcome (NodeCryptoService.deriveKey P password salt1 params w1)
                     (NodeCryptoService.deriveKey P password salt2 params w2) /\
        same_outcome (WebCryptoService.deriveKey P password salt1 params w1)
                     (WebCryptoService.deriveKey P password salt2 params w2)) /\
    (forall s,
        String.length password <> 0%nat -> s <> [] ->
        importable P password -> supported params ->
        let derived :=
          P.(PBKDF2) (if params.(hashFunction) =? "sha512" then SHA512 else SHA256)
            (JsString.utf8 password) s params.(iterations) params.(keyLength) in
        length derived = Z.to_nat params.(keyLength) /\
        forall w salt,
          Store.valid (heap w) salt -> Store.content (heap w) salt = s ->
          (exists a w',
              NodeCryptoService.deriveKey P password salt params w = (Normal a, w') /\
              Store.content (heap w') a = derived) /\
          (exists a w',
              WebCryptoService.deriveKey P password salt params w = (Normal a, w') /\
              Store.content (heap w') a = derived)).
Proof.
  intros P std password params. split.
  - intros w1 w2 salt1 salt2 V1 V2 C. split.
    + now apply deriveKey_node_stable.
    + now apply deriveKey_web_stable.
  - intros s Np Ns A [I K] derived. split.
    + apply (PBKDF2_length P std); lia.
    + intros w salt Vs Cs.
      assert (Nl : byteLength salt <> 0%nat).
      { rewrite <- (content_length _ _ Vs), Cs.
        destruct s; [congruence | discriminate]. }
      assert (K0 : (1 <= keyLength params <= 2 ^ 31 - 1)%Z) by lia.
      assert (M : (keyLength params mod 2 ^ 29 = keyLength params)%Z)
        by (apply Z.mod_small; lia).
      assert (K1 : (1 <= keyLength params mod 2 ^ 29)%Z) by (rewrite M; lia).
      split.
      * destruct (deriveKey_node_spec P password salt params w Np Vs Nl I K0)
          as (a & w' & E & _ & _ & _ & C & _).
        exists a, w'. split; [exact E |]. now rewrite C, Cs.
      * destruct (deriveKey_web_spec P password salt params w Np Vs Nl A I K1)
          as (a & w' & E & _ & _ & _ & C & _).
        exists a, w'. split; [exact E |]. now rewrite C, Cs, M.
Qed.

Lemma deriveKey_deterministic_witness :
  let derived :=
    PBKDF2 Example.primitives SHA256 (JsString.utf8 "password")
      [x73; x61; x6c; x74] 600000 32 in
  length derived = 32%nat /\
  forall w salt,
    Store.valid (heap w) salt ->
    Store.content (heap w) salt = [x73; x61; x6c; x74] ->
    (exists a w',
        NodeCryptoService.deriveKey Example.primitives "password" salt
          DEFAULT_KEY_DERIVATION_PARAMS w = (Normal a, w') /\
        Store.content (heap w') a = derived) /\
    (exists a w',
        WebCryptoService.deriveKey Example.primitives "password" salt
          DEFAULT_KEY_DERIVATION_PARAMS w = (Normal a, w') /\
        Store.content (heap w') a = derived).
Proof.
  apply (deriveKey_deterministic Example.primitives standard_example
           "password" DEFAULT_KEY_DERIVATION_PARAMS).
  - discriminate.
  - discriminate.
  - reflexivity.
  - unfold supported. cbn. lia.
Defined.

(** Where the claim as the specification words it stops holding.  A key
    length of [2^29 + 4] bytes is [2^32 + 32] bits: the WebCrypto backend
    returns 4 bytes.  An iteration count of [2^31] is refused by the native
    backend's host: there is no key.  Nor is there one on the host of the
    test-suite whose [importKey] rejects, whatever the parameters. *)
Lemma deriveKey_beyond_host_limits :
  let wide := {| iterations := 1; keyLength := 2 ^ 29 + 4; algorithm := "pbkdf2";
                 hashFunction := "sha256" |} in
  let long := {| iterations := 2 ^ 31; keyLength := 32; algorithm := "pbkdf2";
                 hashFunction := "sha256" |} in
  (exists k w',
      WebCryptoService.deriveKey Example.primitives "password" Example.kdf_salt
        wide Example.world = (Normal k, w') /\
      byteLength k = 4%nat /\
      Z.of_nat (byteLength k) <> keyLength wide) /\
  (exists msg w',
      NodeCryptoService.deriveKey Example.primitives "password" Example.kdf_salt
        long Example.world
      = (Abrupt (JsError (createCryptoError key_derivation "DERIVATION_FAILED" msg)),
         w')) /\
  (exists msg w',
      WebCryptoService.deriveKey Example.rejecting "password" Example.kdf_salt
        DEFAULT_KEY_DERIVATION_PARAMS Example.world
      = (Abrupt (JsError (createCryptoError key_derivation "DERIVATION_FAILED" msg)),
         w')).
Proof.
  cbv zeta. split.
  - match goal with
    | |- exists k w', ?run = _ /\ _ =>
        exists (match fst run with Normal k => k | Abrupt _ => Example.empty end),
          (snd run)
    end.
    split; [vm_compute; reflexivity |].
    split; [vm_compute; reflexivity | vm_compute; discriminate].
  - split;
      match goal with
      | |- exists msg w', ?run = _ =>
          exists (match fst run with
                  | Abrupt (JsError e) => message e
                  | _ => EmptyString
                  end), (snd run)
      end;
      vm_compute; reflexivity.
Qed.

(** Both backends on the inputs of the known-vector scenario, and a second
    call in the world the first one left. *)
Example deriveKey_scenario :
  let node := NodeCryptoService.deriveKey Example.primitives "password"
                Example.kdf_salt Example.params Example.world in
  let web := WebCryptoService.deriveKey Example.primitives "password"
               Example.kdf_salt Example.params (snd node) in
  match fst node, fst web with
  | Normal a, Normal b =>
      Store.content (heap (snd web)) a = Store.content (heap (snd web)) b /\
      byteLength a = 20%nat /\ ~ Store.shares_storage a b
  | _, _ => False
  end.
Proof. vm_compute. repeat split. discriminate. Qed.

Lemma sanitizeErrorMessage_safe : forall x, ~ mentions_secret (sanitizeErrorMessage x).
Proof.
  assert (constant : forall s,
            (JsString.includes (JsString.toLowerCase s) "key"
             || JsString.includes (JsString.toLowerCase s) "password"
             || JsString.includes (JsString.toLowerCase s) "secret") = false ->
            ~ mentions_secret s).
  { intros s E H. apply mentions_secret_decide in H. cbv zeta in H. congruence. }
  intros [e | s | properties | |]; try (apply constant; reflexivity).
  unfold sanitizeErrorMessage. cbv zeta.
  destruct (_ || _ || _) eqn:E.
  - apply constant. reflexivity.
  - apply constant. exact E.
Qed.

Section DeriveKeyFailure.
Context (P : Primitives).

Lemma wrapped_outcome : forall A (body : Js A) w,
  match fst (body w) with
  | Normal _ => True
  | Abrupt y => isCryptoError y = false
  end ->
  derived_or_wrapped
    (try_catch body
       (fun error =>
          if isCryptoError error then throw error
          else
            let sanitizedMessage := sanitizeErrorMessage error in
            throw (JsError (createCryptoError key_derivation "DERIVATION_FAILED"
                              sanitizedMessage))) w).
Proof.
  intros A body w H. unfold derived_or_wrapped, try_catch.
  destruct (body w) as [[a | y] w']; cbn [fst] in *; [exact I |].
  rewrite H. cbn. exists y. split; [exact H | reflexivity].
Qed.

Lemma deriveKey_node_outcome : forall password salt params w,
  String.length password <> 0%nat -> byteLength salt <> 0%nat ->
  derived_or_wrapped (NodeCryptoService.deriveKey P password salt params w).
Proof.
  intros password salt params w Np Ns. apply Nat.eqb_neq in Np, Ns.
  unfold NodeCryptoService.deriveKey. apply wrapped_outcome. rewrite Np, Ns.
  unfold bind, NodeCrypto.Buffer_from, TypedArray.new_of_array, NodeCrypto.pbkdf2,
    bind, host, read, allocate, throw.
  destruct ((iterations params <? 1) || _)%Z; [reflexivity |].
  destruct ((keyLength params <? 0) || _)%Z; [reflexivity |].
  destruct (hashFunction params =? "sha512"); cbn;
    destruct (keyLength params =? 0)%Z; cbn; trivial.
Qed.

Lemma derivation_outcome : forall salt params material w,
  derived_or_wrapped
    (try_catch
       (derivedBits <- WebCrypto.deriveBits P salt params.(iterations)
                         (if params.(hashFunction) =? "sha512"
                          then "SHA-512" else "SHA-256")
                         {| WebCrypto.key_algorithm := "PBKDF2";
                            WebCrypto.key_data := material;
                            WebCrypto.key_usages := ["deriveBits"] |}
                         (params.(keyLength) * 8) ;;
        TypedArray.new_of_buffer derivedBits)
       (fun error =>
          if isCryptoError error then throw error
          else
            let sanitizedMessage := sanitizeErrorMessage error in
            throw (JsError (createCryptoError key_derivation "DERIVATION_FAILED"
                              sanitizedMessage))) w).
Proof.
  intros salt params material w. apply wrapped_outcome.
  unfold WebCrypto.deriveBits, TypedArray.new_of_buffer, bind, host, read, allocate,
    throw, ret.
  cbv zeta.
  destruct ((iterations params <? 0) || _)%Z; [reflexivity |].
  destruct (hashFunction params =? "sha512");
    cbn [WebCrypto.hash negb andb String.eqb Ascii.eqb Bool.eqb WebCrypto.allows
         WebCrypto.key_usages WebCrypto.key_algorithm WebCrypto.key_data existsb orb];
    (destruct (iterations params =? 0)%Z; [reflexivity |]);
    (destruct (_ =? 0)%Z; [exact I |]);
    (destruct (negb _); [reflexivity |]);
    (destruct (_ <? iterations params)%Z; [reflexivity | exact I]).
Qed.

Lemma deriveKey_web_outcome : forall password salt params w,
  String.length password <> 0%nat -> byteLength salt <> 0%nat ->
  derived_or_wrapped (WebCryptoService.deriveKey P password salt params w).
Proof.
  intros password salt params w Np Ns.
  destruct (refuses P (JsString.utf8 password)) as [msg |] eqn:A.
  - destruct (deriveKey_web_refused P password salt params w msg Np Ns A)
      as (w' & _ & _ & ->).
    exists (JsError (Error msg)). split; reflexivity.
  - destruct (deriveKey_web_accepted P password salt params w Np Ns A)
      as (w' & _ & _ & ->).
    apply derivation_outcome.
Qed.

Lemma deriveKey_rejected_iterations : forall password salt params w,
  String.length password <> 0%nat -> byteLength salt <> 0%nat ->
  (params.(iterations) < 1)%Z ->
  (exists msg, fst (NodeCryptoService.deriveKey P password salt params w)
               = Abrupt (JsError (createCryptoError key_derivation
                                    "DERIVATION_FAILED" msg))) /\
  (exists msg, fst (WebCryptoService.deriveKey P password salt params w)
               = Abrupt (JsError (createCryptoError key_derivation
                                    "DERIVATION_FAILED" msg))).
Proof.
  intros password salt params w Np Ns It. split.
  - apply Nat.eqb_neq in Np, Ns. apply Z.ltb_lt in It.
    unfold NodeCryptoService.deriveKey, try_catch, bind,
      NodeCrypto.Buffer_from, TypedArray.new_of_array, NodeCrypto.pbkdf2, bind, host,
      read, allocate, throw.
    rewrite Np, Ns, It. cbn -[sanitizeErrorMessage]. eexists. reflexivity.
  - destruct (refuses P (JsString.utf8 password)) as [msg |] eqn:A.
    + destruct (deriveKey_web_refused P password salt params w msg Np Ns A)
        as (w' & _ & _ & ->).
      eexists. reflexivity.
    + destruct (deriveKey_web_accepted P password salt params w Np Ns A)
        as (w' & _ & _ & ->).
      unfold try_catch, WebCrypto.deriveBits, bind, host, throw. cbv zeta.
      destruct (Z.ltb_spec (iterations params) 0) as [N | N].
      * cbn -[sanitizeErrorMessage]. eexists. reflexivity.
      * assert (Z0 : iterations params = 0%Z) by lia. rewrite Z0.
        destruct (hashFunction params =? "sha512"); cbn -[sanitizeErrorMessage];
          eexists; reflexivity.
Qed.

End DeriveKeyFailure.

(** C4: [deriveKey] fails with validation/EMPTY_PASSWORD on every empty
    password and with validation/EMPTY_SALT on every salt of length zero
    (with EMPTY_PASSWORD when the password is empty as well: it is looked at
    first); the error that leaves [deriveKey] is the validation error as it
    was created, and the world is untouched.  Every other failure leaves as
    key_derivation/DERIVATION_FAILED with the sanitized message of what was
    thrown; an iteration count below one, refused by the host, is such a
    failure.  Both backends. *)
Theorem deriveKey_failures : forall P password salt params w,
  let node := NodeCryptoService.deriveKey P password salt params w in
  let web := WebCryptoService.deriveKey P password salt params w in
  let empty_password :=
    Abrupt (JsError (createCryptoError validation "EMPTY_PASSWORD"
                       "Password cannot be empty")) in
  let empty_salt :=
    Abrupt (JsError (createCryptoError validation "EMPTY_SALT"
                       "Salt cannot be empty")) in
  (String.length password = 0%nat ->
     node = (empty_password, w) /\ web = (empty_password, w)) /\
  (byteLength salt = 0%nat ->
     let failure :=
       if (String.length password =? 0)%nat then empty_password else empty_salt in
     node = (failure, w) /\ web = (failure, w)) /\
  (String.length password <> 0%nat -> byteLength salt <> 0%nat ->
     derived_or_wrapped node /\ derived_or_wrapped web) /\
  (String.length password <> 0%nat -> byteLength salt <> 0%nat ->
   (params.(iterations) < 1)%Z ->
     (exists msg, fst node = Abrupt (JsError (createCryptoError key_derivation
                                               "DERIVATION_FAILED" msg))) /\
     (exists msg, fst web = Abrupt (JsError (createCryptoError key_derivation
                                              "DERIVATION_FAILED" msg)))).
Proof.
  intros P password salt params w node web empty_password empty_salt.
  subst node web empty_password empty_salt.
  split; [| split; [| split]].
  - intros H.
    unfold NodeCryptoService.deriveKey, WebCryptoService.deriveKey, try_catch.
    rewrite H. split; reflexivity.
  - intros H.
    unfold NodeCryptoService.deriveKey, WebCryptoService.deriveKey, try_catch.
    rewrite H. destruct (String.length password =? 0)%nat; split; reflexivity.
  - intros Np Ns. split.
    + now apply deriveKey_node_outcome.
    + now apply deriveKey_web_outcome.
  - intros Np Ns It. now apply deriveKey_rejected_iterations.
Qed.

(** The test-suite's case of an invalid parameter: -1 iterations. *)
Example deriveKey_failure_scenario :
  let params := {| iterations := -1; keyLength := 32; algorithm := "pbkdf2";
                   hashFunction := "sha256" |} in
  (exists msg,
      fst (NodeCryptoService.deriveKey Example.primitives "test-password-123"
             Example.kdf_salt params Example.world)
      = Abrupt (JsError (createCryptoError key_derivation "DERIVATION_FAILED" msg))) /\
  (exists msg,
      fst (WebCryptoService.deriveKey Example.primitives "test-password-123"
             Example.kdf_salt params Example.world)
      = Abrupt (JsError (createCryptoError key_derivation "DERIVATION_FAILED" msg))) /\
  fst (NodeCryptoService.deriveKey Example.primitives ""
         Example.empty params Example.world)
  = Abrupt (JsError (createCryptoError validation "EMPTY_PASSWORD"
                       "Password cannot be empty")).
Proof.
  cbv zeta. split; [| split]; [| | reflexivity];
    match goal with
    | |- exists msg, ?run = _ =>
        exists (match run with
                | Abrupt (JsError e) => message e
                | _ => EmptyString
                end)
    end; vm_compute; reflexivity.
Qed.

(** ** The statements at the inputs of the test-suite *)

Lemma sanitizeErrorMessage_cases_witness :
  sanitizeErrorMessage (JsError (Error "Invalid KEY provided"))
    = "Cryptographic operation failed" /\
  sanitizeErrorMessage (JsError (Error "PassWord rejected"))
    = "Cryptographic operation failed" /\
  sanitizeErrorMessage (JsError (Error "Invalid Data Format"))
    = "Invalid Data Format" /\
  sanitizeErrorMessage (JsStringValue "string error")
    = "Unknown cryptographic error" /\
  sanitizeErrorMessage (JsObject [("message", "Invalid key provided")])
    = "Unknown cryptographic error".
Proof.
  destruct sanitizeErrorMessage_cases as (flagged & kept & other).
  split; [| split; [| split; [| split]]]; [| | | | apply other; discriminate].
  - apply (flagged (Error "Invalid KEY provided")).
    left. exists "invalid ", " provided". vm_compute. reflexivity.
  - apply (flagged (Error "PassWord rejected")).
    right. left. exists "", " rejected". vm_compute. reflexivity.
  - apply (kept (Error "Invalid Data Format")).
    intros H. apply mentions_secret_decide in H. vm_compute in H. discriminate.
  - apply other. discriminate.
Defined.

(** Letters that are not ASCII count: the Kelvin sign U+212A lower-cases to
    "k", so a message that spells "KEY" with it is withheld; a message in
    another script goes through, in its own case. *)
Example sanitizeErrorMessage_unicode :
  let kelvin_ey := String "226" (String "132" (String "170" "EY")) in
  let cle := String "067" (String "076" (String "195" (String "137" ""))) in
  JsString.toLowerCase kelvin_ey = "key" /\
  sanitizeErrorMessage (JsError (Error (kelvin_ey ++ " rejected")%string))
    = "Cryptographic operation failed" /\
  JsString.toLowerCase cle = String "c" (String "l" (String "195" (String "169" ""))) /\
  sanitizeErrorMessage (JsError (Error cle)) = cle.
Proof. vm_compute. repeat split. Qed.

Lemma createForEnvironment_cases_witness :
  DefaultCryptoServiceFactory.createForEnvironment Example.bare_host "node"
    = Abrupt (JsError (createCryptoError initialization "ENVIRONMENT_MISMATCH"
                         "Node.js environment not detected")) /\
  DefaultCryptoServiceFactory.createForEnvironment Example.node_host "node"
    = Normal NodeCryptoService_instance /\
  DefaultCryptoServiceFactory.createForEnvironment Example.bare_host "worker"
    = Abrupt (JsError (createCryptoError initialization "WEBCRYPTO_UNAVAILABLE"
                         "WebCrypto API not available in this environment")) /\
  DefaultCryptoServiceFactory.createForEnvironment Example.worker_host "worker"
    = Normal WebCryptoService_instance /\
  (exists msg,
      DefaultCryptoServiceFactory.createForEnvironment Example.null_crypto_host
        "browser" = Abrupt (TypeError msg)) /\
  DefaultCryptoServiceFactory.createForEnvironment Example.bare_host "unknown"
    = Abrupt (JsError (createCryptoError initialization "UNKNOWN_ENVIRONMENT"
                         "Unknown environment: unknown")).
Proof.
  destruct (createForEnvironment_cases Example.bare_host "node") as (bare_node & _ & _).
  destruct (createForEnvironment_cases Example.node_host "node") as (node & _ & _).
  destruct (createForEnvironment_cases Example.bare_host "worker")
    as (_ & bare_worker & _).
  destruct (createForEnvironment_cases Example.worker_host "worker")
    as (_ & worker & _).
  destruct (createForEnvironment_cases Example.null_crypto_host "browser")
    as (_ & null & _).
  destruct (createForEnvironment_cases Example.bare_host "unknown")
    as (_ & _ & unknown).
  split; [| split; [| split; [| split; [| split]]]].
  - apply (bare_node eq_refl).
    intros (properties & versions & v & H & _). discriminate.
  - apply (node eq_refl).
    exists [("versions", VObject [("node", VString "22.0.0")])],
      [("node", VString "22.0.0")], "22.0.0". repeat split.
  - destruct (bare_worker (or_intror eq_refl)) as (_ & absent & _).
    apply absent.
    + split; [discriminate | intros e; discriminate].
    + intros (properties & H & _). discriminate.
  - destruct (worker (or_intror eq_refl)) as (present & _).
    apply present. eexists. repeat split; discriminate.
  - destruct (null (or_introl eq_refl)) as (_ & _ & _ & thrown).
    apply thrown. reflexivity.
  - apply unknown; discriminate.
Defined.

Lemma createForPerformance_cases_witness :
  DefaultCryptoServiceFactory.createForPerformance Example.bare_host "high"
    = Abrupt (JsError (createCryptoError initialization "NO_CRYPTO_AVAILABLE"
                         "No suitable crypto implementation available")) /\
  DefaultCryptoServiceFactory.createForPerformance Example.worker_host "high"
    = Normal WebCryptoService_instance /\
  DefaultCryptoServiceFactory.createForPerformance Example.node_host "high"
    = Normal NodeCryptoService_instance /\
  DefaultCryptoServiceFactory.createForPerformance Example.node_host "low"
    = Normal WebCryptoService_instance /\
  DefaultCryptoServiceFactory.createForPerformance Example.node_only_host "medium"
    = Normal NodeCryptoService_instance /\
  (exists msg,
      DefaultCryptoServiceFactory.createForPerformance Example.null_crypto_node_host
        "medium" = Abrupt (TypeError msg)).
Proof.
  assert (no_node : forall g, process g <> Declared (VObject
                      match process g with
                      | Declared (VObject properties) => properties
                      | _ => []
                      end) -> ~ NodeRuntimePresent g).
  { intros g H (properties & versions & node & E & _). apply H. now rewrite E. }
  assert (node : forall c, NodeRuntimePresent
                             {| process := Declared Example.node_process;
                                crypto := c |}).
  { intros c. exists [("versions", VObject [("node", VString "22.0.0")])],
      [("node", VString "22.0.0")], "22.0.0". repeat split. }
  assert (web : forall p, WebCryptoPresent
                            {| process := p; crypto := Declared Example.web_crypto |}).
  { intros p. eexists. repeat split; discriminate. }
  destruct (createForPerformance_cases Example.bare_host "high") as (bare_high & _ & _).
  destruct (createForPerformance_cases Example.worker_host "high")
    as (worker_high & _ & _).
  destruct (createForPerformance_cases Example.node_host "high") as (node_high & _ & _).
  destruct (createForPerformance_cases Example.node_host "low") as (_ & node_low & _).
  destruct (createForPerformance_cases Example.node_only_host "medium")
    as (_ & fallback & _).
  destruct (createForPerformance_cases Example.null_crypto_node_host "medium")
    as (_ & null & _).
  split; [| split; [| split; [| split; [| split]]]].
  - destruct (bare_high eq_refl) as (_ & _ & neither & _).
    apply neither.
    + apply no_node. discriminate.
    + split; [discriminate | intros e; discriminate].
    + intros (properties & H & _). discriminate.
  - destruct (worker_high eq_refl) as (_ & second & _).
    apply second; [apply no_node; discriminate | apply web].
  - destruct (node_high eq_refl) as (first & _). apply first. apply node.
  - destruct (node_low (or_intror eq_refl)) as (first & _). apply first. apply web.
  - destruct (fallback (or_introl eq_refl)) as (_ & second & _).
    apply second.
    + split; [discriminate | intros e; discriminate].
    + intros (properties & H & _). discriminate.
    + apply node.
  - destruct (null (or_introl eq_refl)) as (_ & _ & _ & _ & thrown).
    apply thrown. reflexivity.
Defined.

Lemma decrypt_validation_witness :
  rejected (NodeCryptoService.decrypt Example.primitives Example.forged
              Example.short_key Example.world) Example.world "INVALID_KEY_LENGTH" /\
  rejected (WebCryptoService.decrypt Example.primitives
              {| data := Example.empty; iv := iv Example.forged;
                 salt := Example.empty; authTag := authTag Example.forged |}
              Example.key Example.world) Example.world "EMPTY_ENCRYPTED_DATA".
Proof.
  destruct (decrypt_validation Example.primitives Example.forged Example.short_key
              Example.world) as (_ & bad_key & _).
  destruct (decrypt_validation Example.primitives
              {| data := Example.empty; iv := iv Example.forged;
                 salt := Example.empty; authTag := authTag Example.forged |}
              Example.key Example.world) as (_ & _ & no_data & _).
  split.
  - apply bad_key. vm_compute. discriminate.
  - apply no_data.
    + vm_compute. intros H. now apply H.
    + reflexivity.
Defined.

Lemma deriveKey_failures_witness :
  let params := {| iterations := -1; keyLength := 32; algorithm := "pbkdf2";
                   hashFunction := "sha256" |} in
  NodeCryptoService.deriveKey Example.primitives "" Example.empty params
    Example.world
  = (Abrupt (JsError (createCryptoError validation "EMPTY_PASSWORD"
                        "Password cannot be empty")), Example.world) /\
  WebCryptoService.deriveKey Example.primitives "test-password-123"
    Example.empty params Example.world
  = (Abrupt (JsError (createCryptoError validation "EMPTY_SALT"
                        "Salt cannot be empty")), Example.world) /\
  (exists msg,
      fst (NodeCryptoService.deriveKey Example.primitives "test-password-123"
             Example.kdf_salt params Example.world)
      = Abrupt (JsError (createCryptoError key_derivation "DERIVATION_FAILED" msg))).
Proof.
  intros params.
  destruct (deriveKey_failures Example.primitives "" Example.empty params
              Example.world) as (no_password & _).
  destruct (deriveKey_failures Example.primitives "test-password-123"
              Example.empty params Example.world) as (_ & no_salt & _).
  destruct (deriveKey_failures Example.primitives "test-password-123"
              Example.kdf_salt params Example.world) as (_ & _ & _ & refused).
  split; [| split].
  - apply no_password. reflexivity.
  - apply no_salt. reflexivity.
  - apply refused; [discriminate | discriminate | reflexivity].
Defined.

(** * Beyond the contract: frames, failures and compositions *)

(** ** Invariants of every run *)

Section Always.
Context (R : World -> World -> Prop).
Hypothesis R_refl : forall w, R w w.
Hypothesis R_trans : forall w1 w2 w3, R w1 w2 -> R w2 w3 -> R w1 w3.

Lemma always_ret : forall A ok (a : A), always R ok (ret a).
Proof. intros A ok a w. split; [apply R_refl | exact I]. Qed.

Lemma always_throw : forall A ok e, ok e -> always R ok (@throw A e).
Proof. intros A ok e H w. split; [apply R_refl | exact H]. Qed.

Lemma always_read : forall ok a, always R ok (read a).
Proof. intros ok a w. split; [apply R_refl | exact I]. Qed.

Lemma always_new_of_buffer : forall ok b, always R ok (TypedArray.new_of_buffer b).
Proof. intros ok b w. split; [apply R_refl | exact I]. Qed.

Lemma always_bind : forall A B ok (m : Js A) (k : A -> Js B),
  always R ok m -> (forall a, always R ok (k a)) -> always R ok (bind m k).
Proof.
  intros A B ok m k Hm Hk w. specialize (Hm w). unfold bind.
  destruct (m w) as [[a | e] w1]; cbn [fst snd] in *.
  - destruct Hm as [H1 _]. destruct (Hk a w1) as [H2 H3]. split.
    + eapply R_trans; eassumption.
    + exact H3.
  - exact Hm.
Qed.

Lemma always_try : forall A ok ok' (body : Js A) handler,
  always R ok' body -> (forall e, ok' e -> always R ok (handler e)) ->
  always R ok (try_catch body handler).
Proof.
  intros A ok ok' body handler Hb Hh w. specialize (Hb w). unfold try_catch.
  destruct (body w) as [[a | e] w1]; cbn [fst snd] in *.
  - split; [apply Hb | exact I].
  - destruct Hb as [H1 H2]. destruct (Hh e H2 w1) as [H3 H4]. split.
    + eapply R_trans; eassumption.
    + exact H4.
Qed.

(** A step that cannot throw. *)
Lemma always_total : forall A ok (m : Js A),
  (forall w, exists a w', m w = (Normal a, w') /\ R w w') -> always R ok m.
Proof.
  intros A ok m H w. destruct (H w) as (a & w' & E & H'). rewrite E.
  split; [exact H' | exact I].
Qed.

End Always.

Lemma always_ok : forall A (R : World -> World -> Prop) (ok ok' : unknown -> Prop)
    (m : Js A),
  always R ok m -> (forall e, ok e -> ok' e) -> always R ok' m.
Proof.
  intros A R ok ok' m H Hok w. destruct (H w) as [H1 H2]. split; [exact H1 |].
  destruct (fst (m w)); [exact I | now apply Hok].
Qed.

Lemma same_randomness_refl : forall w, same_randomness w w.
Proof. intros w. split; reflexivity. Qed.

Lemma same_randomness_trans : forall w1 w2 w3,
  same_randomness w1 w2 -> same_randomness w2 w3 -> same_randomness w1 w3.
Proof. intros w1 w2 w3 [E1 D1] [E2 D2]. split; congruence. Qed.

(** What the primitive steps do to the store and to the CSPRNG. *)
Lemma allocate_grows : forall ok c, always grows ok (allocate c).
Proof.
  intros ok c. apply always_total. intros w.
  eexists. eexists. split; [reflexivity |]. now exists [c].
Qed.

Lemma host_grows : forall ok c, always grows ok (host c).
Proof.
  intros ok c. apply always_total. intros w.
  eexists. eexists. split; [reflexivity |]. now apply grows_same.
Qed.

Lemma draw_grows : forall ok n, always grows ok (draw n).
Proof.
  intros ok n. apply always_total. intros w.
  eexists. eexists. split; [reflexivity |]. now apply grows_same.
Qed.

Lemma allocate_same_randomness : forall ok c, always same_randomness ok (allocate c).
Proof.
  intros ok c. apply always_total. intros w.
  eexists. eexists. split; [reflexivity |]. split; reflexivity.
Qed.

Lemma host_same_randomness : forall ok c, always same_randomness ok (host c).
Proof.
  intros ok c. apply always_total. intros w.
  eexists. eexists. split; [reflexivity |]. split; reflexivity.
Qed.

Lemma write_same_randomness : forall ok a pos new,
  always same_randomness ok (write a pos new).
Proof.
  intros ok a pos new. apply always_total. intros w.
  eexists. eexists. split; [reflexivity |]. split; reflexivity.
Qed.

Lemma host_is_either : forall codes e, host_failure e -> host_or_validation codes e.
Proof. intros codes e H. now left. Qed.

Lemma validation_is_either : forall codes c msg,
  In c codes ->
  host_or_validation codes (JsError (createCryptoError validation c msg)).
Proof. intros codes c msg H. right. now exists c, msg. Qed.

(** Side conditions of the rules: the relation is a preorder that the
    primitive steps respect, and the errors of the host are allowed. *)
Ltac side :=
  solve [ eauto using grows_refl, grows_trans, same_randomness_refl,
            same_randomness_trans, allocate_grows, host_grows, draw_grows,
            allocate_same_randomness, host_same_randomness, write_same_randomness,
            host_is_either ].

(** A walk along the syntax of a call: binds, conditionals, throws, the
    primitive steps of the store, and the calls [leaf] knows. *)
Ltac walk_by throws leaf :=
  repeat first
    [ apply always_ret; side
    | apply always_read; side
    | apply always_new_of_buffer; side
    | leaf
    | match goal with
      | |- always _ _ (if ?c then _ else _) => destruct c
      | |- always _ _ (match ?c with _ => _ end) => destruct c
      | |- always _ _ (throw _) => apply always_throw; [side | throws]
      | |- always _ _ (bind _ _) => apply always_bind; [side | | intros ?]
      end
    | side
    | progress cbv beta zeta ].

Ltac walk_with throws := walk_by throws ltac:(fail).

(** ** The calls into the host: what they keep, what they throw

    What holds of every call into Node's [crypto] and into [crypto.subtle],
    and of the typed-array operations, for a relation [R] that allocation,
    writing and the host's log respect: the call keeps [R], and what it
    throws is an error of the host, never a [CryptoError]. *)

Section Quiet.
Context (P : Primitives) (R : World -> World -> Prop) (ok : unknown -> Prop).
Hypothesis R_refl : forall w, R w w.
Hypothesis R_trans : forall w1 w2 w3, R w1 w2 -> R w2 w3 -> R w1 w3.
Hypothesis R_allocate : forall ok c, always R ok (allocate c).
Hypothesis R_host : forall ok c, always R ok (host c).
Hypothesis R_write : forall ok a pos new, always R ok (write a pos new).
Hypothesis ok_host : forall e, host_failure e -> ok e.

Ltac quiet := walk_with ltac:(apply ok_host; exact eq_refl).

Lemma new_of_length_quiet : forall length, always R ok (TypedArray.new_of_length length).
Proof. intros length. unfold TypedArray.new_of_length. quiet. Qed.

Lemma set_quiet : forall target source offset,
  always R ok (TypedArray.set target source offset).
Proof. intros target source offset. unfold TypedArray.set. quiet. Qed.

Lemma fill_quiet : forall a value, always R ok (TypedArray.fill a value).
Proof. intros a value. unfold TypedArray.fill. quiet. Qed.

Lemma new_of_array_quiet : forall a, always R ok (TypedArray.new_of_array a).
Proof. intros a. unfold TypedArray.new_of_array. quiet. Qed.

Lemma slice_quiet : forall a start end_, always R ok (TypedArray.slice a start end_).
Proof. intros a start end_. unfold TypedArray.slice. quiet. Qed.

Lemma Buffer_concat_quiet : forall a b, always R ok (NodeCrypto.Buffer_concat a b).
Proof. intros a b. unfold NodeCrypto.Buffer_concat. quiet. Qed.

Lemma pbkdf2_quiet : forall password salt iterations keylen dig,
  always R ok (NodeCrypto.pbkdf2 P password salt iterations keylen dig).
Proof. intros. unfold NodeCrypto.pbkdf2. quiet. Qed.

Lemma create_quiet : forall c algorithm key iv,
  always R ok (NodeCrypto.create c algorithm key iv).
Proof. intros. unfold NodeCrypto.create. quiet. Qed.

Lemma update_quiet : forall c chunk, always R ok (NodeCrypto.update P c chunk).
Proof. intros. unfold NodeCrypto.update. quiet. Qed.

Lemma cipher_final_quiet : forall c, always R ok (NodeCrypto.cipher_final c).
Proof. intros. unfold NodeCrypto.cipher_final. quiet. Qed.

Lemma getAuthTag_quiet : forall c, always R ok (NodeCrypto.getAuthTag P c).
Proof. intros. unfold NodeCrypto.getAuthTag. quiet. Qed.

Lemma setAuthTag_quiet : forall c tag, always R ok (NodeCrypto.setAuthTag c tag).
Proof. intros. unfold NodeCrypto.setAuthTag. quiet. Qed.

Lemma decipher_final_quiet : forall c,
  always R ok (NodeCrypto.decipher_final P c).
Proof. intros. unfold NodeCrypto.decipher_final. quiet. Qed.

Lemma importKey_quiet : forall format keyData algorithm extractable usages,
  always R ok
    (WebCrypto.importKey P format keyData algorithm extractable usages).
Proof. intros. unfold WebCrypto.importKey. quiet. Qed.

Lemma deriveBits_quiet : forall salt iterations hashName baseKey length,
  always R ok (WebCrypto.deriveBits P salt iterations hashName baseKey length).
Proof.
  intros. unfold WebCrypto.deriveBits, WebCrypto.InvalidAccessError,
    WebCrypto.OperationError. quiet.
Qed.

Lemma subtle_encrypt_quiet : forall algorithm iv tagLength key data,
  always R ok (WebCrypto.encrypt P algorithm iv tagLength key data).
Proof.
  intros. unfold WebCrypto.encrypt, WebCrypto.InvalidAccessError,
    WebCrypto.OperationError. quiet.
Qed.

Lemma subtle_decrypt_quiet : forall algorithm iv tagLength key data,
  always R ok (WebCrypto.decrypt P algorithm iv tagLength key data).
Proof.
  intros. unfold WebCrypto.decrypt, WebCrypto.InvalidAccessError,
    WebCrypto.OperationError. quiet.
Qed.

End Quiet.

(** The calls of the host and of typed arrays, as leaves of a walk. *)
Ltac host_call :=
  first [ apply new_of_array_quiet | apply slice_quiet | apply new_of_length_quiet
        | apply set_quiet | apply fill_quiet
        | apply Buffer_concat_quiet | apply pbkdf2_quiet | apply create_quiet
        | apply update_quiet | apply cipher_final_quiet | apply getAuthTag_quiet
        | apply setAuthTag_quiet | apply decipher_final_quiet
        | apply importKey_quiet | apply deriveBits_quiet
        | apply subtle_encrypt_quiet | apply subtle_decrypt_quiet ];
  side.

Ltac own := apply validation_is_either; cbn [In]; tauto.

(** ** The [catch] clauses *)

Section Handlers.
Context (R : World -> World -> Prop).
Hypothesis R_refl : forall w, R w w.

Lemma validation_is_CryptoError : forall codes e,
  validation_error codes e -> isCryptoError e = true.
Proof. intros codes e (c & msg & _ & ->). reflexivity. Qed.

(** [deriveKey], [encrypt]: a [CryptoError] is rethrown, anything else is
    wrapped with its message sanitized. *)
Lemma rethrow_or_wrap : forall A codes cat c e,
  host_or_validation codes e ->
  always R (validation_or_wrapped codes cat c)
    (if isCryptoError e then throw e
     else @throw A (JsError (createCryptoError cat c (sanitizeErrorMessage e)))).
Proof.
  intros A codes cat c e [H | H].
  - unfold host_failure in H. rewrite H. apply always_throw; [exact R_refl |].
    right. exists e. split; [exact H | reflexivity].
  - rewrite (validation_is_CryptoError _ _ H).
    apply always_throw; [exact R_refl |]. now left.
Qed.

(** [decrypt]: a [CryptoError] is rethrown, anything else becomes [null]. *)
Lemma rethrow_or_null : forall A codes e,
  host_or_validation codes e ->
  always R (validation_error codes)
    (if isCryptoError e then throw e else ret (@None A)).
Proof.
  intros A codes e [H | H].
  - unfold host_failure in H. rewrite H. now apply always_ret.
  - rewrite (validation_is_CryptoError _ _ H).
    apply always_throw; [exact R_refl | exact H].
Qed.

Lemma encrypt_rethrows_CryptoError : forall e,
  encrypt_rethrows e -> isCryptoError e = true.
Proof.
  intros e [(c & msg & _ & ->) | [(y & _ & ->) | (y & _ & ->)]]; reflexivity.
Qed.

(** [encrypt]: its validation errors and the errors of the generators are
    [CryptoError]s and rethrown, anything else is wrapped. *)
Lemma rethrow_or_wrap_encrypt : forall A e,
  host_failure e \/ encrypt_rethrows e ->
  always R encrypt_throws
    (if isCryptoError e then throw e
     else @throw A (JsError (createCryptoError encryption "ENCRYPTION_FAILED"
                               (sanitizeErrorMessage e)))).
Proof.
  intros A e [H | H].
  - pose proof H as H'. unfold host_failure in H'. rewrite H'.
    apply always_throw; [exact R_refl |].
    right. exists e. split; [exact H | reflexivity].
  - rewrite (encrypt_rethrows_CryptoError _ H).
    apply always_throw; [exact R_refl |]. now left.
Qed.

(** [generateSalt], [generateIV]: everything is wrapped. *)
Lemma wrap_all : forall A c e,
  host_failure e ->
  always R (wrapped initialization c)
    (@throw A (JsError (createCryptoError initialization c (sanitizeErrorMessage e)))).
Proof.
  intros A c e H. apply always_throw; [exact R_refl |].
  exists e. split; [exact H | reflexivity].
Qed.

End Handlers.

(** Into a [try] block whose [catch] clause rethrows the block's validation
    errors. *)
Ltac enter :=
  match goal with
  | |- always ?R (validation_error ?codes) (try_catch _ _) =>
      apply (always_try R) with (ok' := host_or_validation codes);
      [side | | intros ? ?; apply rethrow_or_null; [side | assumption]]
  | |- always ?R (validation_or_wrapped ?codes _ _) (try_catch _ _) =>
      apply (always_try R) with (ok' := host_or_validation codes);
      [side | | intros ? ?; apply rethrow_or_wrap; [side | assumption]]
  | |- always ?R (wrapped initialization _) (try_catch _ _) =>
      apply (always_try R) with (ok' := host_failure);
      [side | | intros ? ?; apply wrap_all; [side | assumption]]
  end.

(** The body of [encrypt] throws errors of the host, its own validation
    errors, and what the generators throw. *)
Ltac encrypt_walk generateIV_quiet generateSalt_quiet :=
  match goal with
  | |- always ?R encrypt_throws (try_catch _ _) =>
      apply (always_try R) with (ok' := fun e => host_failure e \/ encrypt_rethrows e);
      [side | | intros ? ?; apply rethrow_or_wrap_encrypt; [side | assumption]]
  end;
  assert (forall e, host_failure e -> host_failure e \/ encrypt_rethrows e)
    by (intros; now left);
  unfold NodeCrypto.createCipheriv, NodeCrypto.Buffer_from;
  walk_by
    ltac:(right; left; eexists; eexists; split; [| reflexivity]; cbn [In]; tauto)
    ltac:(first
            [ apply (always_ok _ _ _ _ _ (generateIV_quiet None));
              intros ? ?; right; right; left; assumption
            | apply (always_ok _ _ _ _ _ (generateSalt_quiet None));
              intros ? ?; right; right; right; assumption
            | host_call ]).

(** ** Backend A: what every call keeps and what it throws *)

Section NodeQuiet.
Context (P : Primitives) (R : World -> World -> Prop).
Hypothesis R_refl : forall w, R w w.
Hypothesis R_trans : forall w1 w2 w3, R w1 w2 -> R w2 w3 -> R w1 w3.
Hypothesis R_allocate : forall ok c, always R ok (allocate c).
Hypothesis R_host : forall ok c, always R ok (host c).

Lemma decrypt_node_quiet : forall e key,
  always R (validation_error ["INVALID_KEY_LENGTH"; "EMPTY_ENCRYPTED_DATA";
                              "INVALID_IV_LENGTH"; "INVALID_AUTH_TAG_LENGTH"])
    (NodeCryptoService.decrypt P e key).
Proof.
  intros e key. unfold NodeCryptoService.decrypt.
  enter.
  unfold NodeCrypto.createDecipheriv, NodeCrypto.Buffer_from.
  walk_by own host_call.
Qed.

Lemma deriveKey_node_quiet : forall password salt params,
  always R (validation_or_wrapped ["EMPTY_PASSWORD"; "EMPTY_SALT"]
              key_derivation "DERIVATION_FAILED")
    (NodeCryptoService.deriveKey P password salt params).
Proof.
  intros password salt params. unfold NodeCryptoService.deriveKey.
  enter.
  unfold NodeCrypto.Buffer_from.
  walk_by own host_call.
Qed.

End NodeQuiet.

Section NodeRandom.
Context (P : Primitives).

Lemma randomBytes_grows : forall ok size,
  (forall e, host_failure e -> ok e) -> always grows ok (NodeCrypto.randomBytes size).
Proof.
  intros ok size H. unfold NodeCrypto.randomBytes.
  walk_with ltac:(apply H; exact eq_refl).
Qed.

Lemma generateSalt_node_quiet : forall length,
  always grows (wrapped initialization "SALT_GENERATION_FAILED")
    (NodeCryptoService.generateSalt length).
Proof.
  intros length. unfold NodeCryptoService.generateSalt. cbv zeta. enter.
  walk_by ltac:(exact eq_refl) ltac:(first [apply randomBytes_grows; side | host_call]).
Qed.

Lemma generateIV_node_quiet : forall length,
  always grows (wrapped initialization "IV_GENERATION_FAILED")
    (NodeCryptoService.generateIV length).
Proof.
  intros length. unfold NodeCryptoService.generateIV. cbv zeta. enter.
  walk_by ltac:(exact eq_refl) ltac:(first [apply randomBytes_grows; side | host_call]).
Qed.

Lemma encrypt_node_quiet : forall plain key,
  always grows encrypt_throws (NodeCryptoService.encrypt P plain key).
Proof.
  intros plain key. unfold NodeCryptoService.encrypt.
  encrypt_walk generateIV_node_quiet generateSalt_node_quiet.
Qed.

End NodeRandom.

(** ** Backend B: what every call keeps and what it throws *)

Section WebQuiet.
Context (P : Primitives) (R : World -> World -> Prop).
Hypothesis R_refl : forall w, R w w.
Hypothesis R_trans : forall w1 w2 w3, R w1 w2 -> R w2 w3 -> R w1 w3.
Hypothesis R_allocate : forall ok c, always R ok (allocate c).
Hypothesis R_host : forall ok c, always R ok (host c).
Hypothesis R_write : forall ok a pos new, always R ok (write a pos new).

Lemma decrypt_web_quiet : forall e key,
  always R (validation_error ["INVALID_KEY_LENGTH"; "EMPTY_ENCRYPTED_DATA";
                              "INVALID_IV_LENGTH"; "INVALID_AUTH_TAG_LENGTH"])
    (WebCryptoService.decrypt P e key).
Proof.
  intros e key. unfold WebCryptoService.decrypt. enter.
  walk_by own host_call.
Qed.

Lemma deriveKey_web_quiet : forall password salt params,
  always R (validation_or_wrapped ["EMPTY_PASSWORD"; "EMPTY_SALT"]
              key_derivation "DERIVATION_FAILED")
    (WebCryptoService.deriveKey P password salt params).
Proof.
  intros password salt params. unfold WebCryptoService.deriveKey. enter.
  unfold TextEncoder_encode.
  walk_by own host_call.
Qed.

End WebQuiet.

(** ** Backend B writes only into what it allocated *)

Lemma always_post : forall A R ok (m : Js A),
  always R ok m <-> forall w, post m w (ended R ok w).
Proof. intros A R ok m. split; intros H w; exact (H w). Qed.

Lemma post_run : forall A (R : World -> World -> Prop) ok (m : Js A) w0 w,
  (forall w1 w2 w3, R w1 w2 -> R w2 w3 -> R w1 w3) ->
  always R ok m -> R w0 w -> post m w (ended R ok w0).
Proof.
  intros A R ok m w0 w T H H0. destruct (H w) as [H1 H2].
  split; [eapply T; eassumption | exact H2].
Qed.

Lemma post_consequence : forall A (m : Js A) w (Q Q' : Completion A -> World -> Prop),
  post m w Q -> (forall r w', Q r w' -> Q' r w') -> post m w Q'.
Proof. intros A m w Q Q' H I. apply I. exact H. Qed.

Lemma post_throw : forall A e w (Q : Completion A -> World -> Prop),
  Q (Abrupt e) w -> post (throw e) w Q.
Proof. intros A e w Q H. exact H. Qed.

Lemma post_ret : forall A (a : A) w (Q : Completion A -> World -> Prop),
  Q (Normal a) w -> post (ret a) w Q.
Proof. intros A a w Q H. exact H. Qed.

Lemma new_of_length_newest : forall n w a w',
  TypedArray.new_of_length n w = (Normal a, w') ->
  newest w w' a (repeat x00 (Z.to_nat n)).
Proof.
  intros n w a w'. unfold TypedArray.new_of_length.
  destruct (n <? 0)%Z; [discriminate |].
  unfold allocate. intros E. injection E as <- <-. split; reflexivity.
Qed.

Lemma newest_length : forall w0 w a x, newest w0 w a x -> byteLength a = length x.
Proof. intros w0 w a x [_ ->]. reflexivity. Qed.

(** [target.set(source, offset)] into the newest buffer, whatever [source]
    is a view of. *)
Lemma set_newest_any : forall w0 w target x source offset,
  newest w0 w target x -> (offset + byteLength source <= byteLength target)%nat ->
  exists w' y, TypedArray.set target source offset w = (Normal tt, w') /\
               newest w0 w' target y.
Proof.
  intros w0 w target x source offset N B. unfold TypedArray.set.
  pose proof (newest_length _ _ _ _ N) as La.
  replace (byteLength target <? offset + byteLength source)%nat with false
    by (symmetry; apply Nat.ltb_ge; lia).
  rewrite (bind_eq (read source) _ _ _ _ eq_refl).
  destruct (write_newest w0 w target x offset (Store.content (heap w) source) N)
    as (w' & E & N' & _).
  - unfold Store.content. rewrite length_firstn. lia.
  - eauto.
Qed.

Lemma always_elim : forall A (R : World -> World -> Prop) ok (m : Js A) w r w',
  always R ok m -> m w = (r, w') ->
  R w w' /\ match r with Normal _ => True | Abrupt e => ok e end.
Proof. intros A R ok m w r w' H E. specialize (H w). now rewrite E in H. Qed.

Lemma post_try_rethrow_or_null : forall A (R : World -> World -> Prop) codes
    (body : Js (option A)) w0 w,
  post body w (ended R (host_or_validation codes) w0) ->
  post (try_catch body (fun error => if isCryptoError error then throw error
                                     else ret None)) w
    (ended R (validation_error codes) w0).
Proof.
  intros A R codes body w0 w H. apply post_try.
  apply (post_consequence _ _ _ _ _ H).
  intros [a | e] w1 [G H1]; [split; [exact G | exact I] |].
  destruct H1 as [H1 | H1].
  - unfold host_failure in H1. rewrite H1. split; [exact G | exact I].
  - rewrite (validation_is_CryptoError _ _ H1). split; [exact G | exact H1].
Qed.

Lemma post_try_rethrow_or_wrap : forall A (R : World -> World -> Prop) codes cat c
    (body : Js A) w0 w,
  post body w (ended R (host_or_validation codes) w0) ->
  post (try_catch body
          (fun error =>
             if isCryptoError error then throw error
             else
               let sanitizedMessage := sanitizeErrorMessage error in
               throw (JsError (createCryptoError cat c sanitizedMessage)))) w
    (ended R (validation_or_wrapped codes cat c) w0).
Proof.
  intros A R codes cat c body w0 w H. apply post_try.
  apply (post_consequence _ _ _ _ _ H).
  intros [a | e] w1 [G H1]; [split; [exact G | exact I] |].
  destruct H1 as [H1 | H1].
  - pose proof H1 as H2. unfold host_failure in H2. rewrite H2.
    split; [exact G |]. right. exists e. split; [exact H1 | reflexivity].
  - rewrite (validation_is_CryptoError _ _ H1). split; [exact G | now left].
Qed.

Section WebGrows.
Context (P : Primitives).

Lemma getRandomValues_newest : forall w0 w a x,
  newest w0 w a x ->
  (exists w' y, WebCrypto.getRandomValues a w = (Normal tt, w') /\ newest w0 w' a y) \/
  (exists e w', WebCrypto.getRandomValues a w = (Abrupt e, w') /\
                host_failure e /\ heap w' = heap w).
Proof.
  intros w0 w a x N.
  destruct (65536 <? Z.of_nat (byteLength a))%Z eqn:Q.
  - right. unfold WebCrypto.getRandomValues.
    rewrite (bind_eq (host _) _ w tt _ eq_refl), Q.
    eexists. eexists. split; [reflexivity |]. split; reflexivity.
  - left.
    assert (Q' : (Z.of_nat (length x) <= 65536)%Z).
    { apply Z.ltb_ge in Q. destruct N as [_ ->]. exact Q. }
    destruct (getRandomValues_spec w0 w a x N Q') as (w' & E & N' & _). eauto.
Qed.

(** The body of [generateSalt] and of [generateIV]. *)
Lemma generate_web_body : forall length w,
  post (a <- TypedArray.new_of_length length ;;
        WebCrypto.getRandomValues a ;;;
        ret a) w (ended grows host_failure w).
Proof.
  intros length w.
  destruct (TypedArray.new_of_length length w) as [[a | e] w1] eqn:E1.
  - apply (post_bind _ _ _ _ _ _ E1).
    apply new_of_length_newest in E1.
    destruct (getRandomValues_newest w w1 a _ E1)
      as [(w2 & y & E2 & N2) | (e & w2 & E2 & H2 & S2)].
    + apply (post_bind _ _ _ _ _ _ E2). apply post_ret.
      split; [exact (newest_grows _ _ _ _ N2) | exact I].
    + apply (post_bind_abrupt _ _ _ _ _ _ E2).
      split; [| exact H2].
      eapply grows_trans; [exact (newest_grows _ _ _ _ E1) | now apply grows_same].
  - apply (post_bind_abrupt _ _ _ _ _ _ E1).
    unfold TypedArray.new_of_length in E1.
    destruct (length <? 0)%Z; [| discriminate].
    injection E1 as <- <-. split; [apply grows_refl | reflexivity].
Qed.

Lemma generate_web_quiet : forall c length,
  always grows (wrapped initialization c)
    (try_catch
       (a <- TypedArray.new_of_length length ;;
        WebCrypto.getRandomValues a ;;;
        ret a)
       (fun error =>
          let sanitizedMessage := sanitizeErrorMessage error in
          throw (JsError (createCryptoError initialization c sanitizedMessage)))).
Proof.
  intros c length. apply always_post. intros w. apply post_try.
  apply (post_consequence _ _ _ _ _ (generate_web_body length w)).
  intros [a | e] w1 [G H]; [split; [exact G | exact I] |].
  split; [exact G |]. exists e. split; [exact H | reflexivity].
Qed.

Lemma generateSalt_web_quiet : forall length,
  always grows (wrapped initialization "SALT_GENERATION_FAILED")
    (WebCryptoService.generateSalt length).
Proof. intros length. apply generate_web_quiet. Qed.

Lemma generateIV_web_quiet : forall length,
  always grows (wrapped initialization "IV_GENERATION_FAILED")
    (WebCryptoService.generateIV length).
Proof. intros length. apply generate_web_quiet. Qed.

Lemma encrypt_web_quiet : forall plain key,
  always grows encrypt_throws (WebCryptoService.encrypt P plain key).
Proof.
  intros plain key. unfold WebCryptoService.encrypt.
  encrypt_walk generateIV_web_quiet generateSalt_web_quiet.
Qed.

Lemma decrypt_web_grows : forall e key,
  always grows (validation_error ["INVALID_KEY_LENGTH"; "EMPTY_ENCRYPTED_DATA";
                                  "INVALID_IV_LENGTH"; "INVALID_AUTH_TAG_LENGTH"])
    (WebCryptoService.decrypt P e key).
Proof.
  intros e key. apply always_post. intros w.
  unfold WebCryptoService.decrypt. apply post_try_rethrow_or_null.
  repeat match goal with
         | |- post (if ?c then _ else _) _ _ =>
             destruct c;
             [apply post_throw; split;
              [apply grows_refl | apply validation_is_either; cbn [In]; tauto] |]
         end.
  match goal with
  | |- post _ _ (ended _ (host_or_validation ?codes) _) =>
      assert (K : always grows (host_or_validation codes)
                    (WebCrypto.importKey P "raw" key
                       WebCryptoService.CIPHER_ALGORITHM false ["decrypt"]))
        by (apply importKey_quiet; side)
  end.
  destruct (WebCrypto.importKey P "raw" key WebCryptoService.CIPHER_ALGORITHM false
              ["decrypt"] w) as [[cryptoKey | x] w1] eqn:E1;
    destruct (always_elim _ _ _ _ _ _ _ K E1) as [G1 H1];
    [apply (post_bind _ _ _ _ _ _ E1)
    | apply (post_bind_abrupt _ _ _ _ _ _ E1); split; [exact G1 | exact H1]].
  destruct (new_of_length_spec
              (Z.of_nat (byteLength (data e) + byteLength (authTag e))) w1)
    as (combined & w2 & E2 & N2 & _); [lia |].
  apply (post_bind _ _ _ _ _ _ E2).
  pose proof (newest_length _ _ _ _ N2) as L2.
  rewrite repeat_length, Nat2Z.id in L2.
  destruct (set_newest_any w1 w2 combined _ (data e) 0 N2) as (w3 & y & E3 & N3);
    [lia |].
  apply (post_bind _ _ _ _ _ _ E3).
  destruct (set_newest_any w1 w3 combined _ (authTag e) (byteLength (data e)) N3)
    as (w4 & z & E4 & N4); [lia |].
  apply (post_bind _ _ _ _ _ _ E4).
  apply post_run; [exact grows_trans | walk_by ltac:(exact eq_refl) host_call |].
  eapply grows_trans; [exact G1 | exact (newest_grows _ _ _ _ N4)].
Qed.

Lemma deriveKey_web_wipes : forall password salt params w,
  String.length password <> 0%nat -> byteLength salt <> 0%nat ->
  importable P password ->
  exists w3,
    heap w3 = heap w ++ [repeat x00 (length (JsString.utf8 password))] /\
    post (WebCryptoService.deriveKey P password salt params) w
      (ended grows (validation_or_wrapped ["EMPTY_PASSWORD"; "EMPTY_SALT"]
                      key_derivation "DERIVATION_FAILED") w3).
Proof.
  intros password salt params w Np Ns A.
  destruct (deriveKey_web_accepted P password salt params w Np Ns A)
    as (w3 & H3 & _ & E).
  exists w3. split; [exact H3 |].
  unfold post. rewrite E.
  match goal with
  | |- ?Q (fst (?m w3)) (snd (?m w3)) => change (post m w3 Q)
  end.
  apply post_try_rethrow_or_wrap.
  apply post_run;
    [exact grows_trans | walk_by ltac:(exact eq_refl) host_call | apply grows_refl].
Qed.

Lemma deriveKey_web_keeps : forall password salt params w msg,
  String.length password <> 0%nat -> byteLength salt <> 0%nat ->
  P.(refuses) (JsString.utf8 password) = Some msg ->
  exists w2,
    heap w2 = heap w ++ [JsString.utf8 password] /\
    post (WebCryptoService.deriveKey P password salt params) w
      (ended grows (validation_or_wrapped ["EMPTY_PASSWORD"; "EMPTY_SALT"]
                      key_derivation "DERIVATION_FAILED") w2).
Proof.
  intros password salt params w msg Np Ns A.
  destruct (deriveKey_web_refused P password salt params w msg Np Ns A)
    as (w2 & H2 & _ & E).
  exists w2. split; [exact H2 |].
  unfold post. rewrite E. split; [apply grows_refl |].
  right. exists (JsError (Error msg)). split; reflexivity.
Qed.

Lemma deriveKey_web_grows : forall password salt params,
  always grows (validation_or_wrapped ["EMPTY_PASSWORD"; "EMPTY_SALT"]
                  key_derivation "DERIVATION_FAILED")
    (WebCryptoService.deriveKey P password salt params).
Proof.
  intros password salt params. apply always_post. intros w.
  destruct (Nat.eq_dec (String.length password) 0) as [Np | Np];
    [| destruct (Nat.eq_dec (byteLength salt) 0) as [Ns | Ns]].
  - unfold WebCryptoService.deriveKey. apply post_try_rethrow_or_wrap.
    rewrite Np. apply post_throw.
    split; [apply grows_refl | apply validation_is_either; cbn [In]; tauto].
  - unfold WebCryptoService.deriveKey. apply post_try_rethrow_or_wrap.
    apply Nat.eqb_neq in Np. rewrite Np, Ns. apply post_throw.
    split; [apply grows_refl | apply validation_is_either; cbn [In]; tauto].
  - destruct (refuses P (JsString.utf8 password)) as [msg |] eqn:A.
    + destruct (deriveKey_web_keeps password salt params w msg Np Ns A)
        as (w2 & H2 & H).
      apply (post_consequence _ _ _ _ _ H).
      intros r w' [G H']. split; [| exact H'].
      eapply grows_trans; [| exact G]. now exists [JsString.utf8 password].
    + destruct (deriveKey_web_wipes password salt params w Np Ns A) as (w3 & H3 & H).
      apply (post_consequence _ _ _ _ _ H).
      intros r w' [G H']. split; [| exact H'].
      eapply grows_trans; [| exact G].
      now exists [repeat x00 (length (JsString.utf8 password))].
Qed.

End WebGrows.

(** ** The two backends are one service *)

Lemma grows_untouched : forall w w', grows w w' -> untouched w w'.
Proof.
  intros w w' G a V. split; [now apply (valid_grows w) | now apply content_grows].
Qed.

Lemma encrypt_spec : forall P, Standard P -> forall service plain key w,
  Store.valid (heap w) plain -> Store.valid (heap w) key ->
  byteLength plain <> 0%nat -> byteLength key = 32%nat ->
  exists e w',
    Service.encrypt P service plain key w = (Normal e, w') /\
    sealed P w w' (Store.content (heap w) plain) (Store.content (heap w) key) e.
Proof.
  intros P std [|] plain key w Vp Vk Np Nk.
  - now apply encrypt_node_spec.
  - now apply encrypt_web_spec.
Qed.

Lemma decrypt_spec : forall P service e key w,
  Store.valid (heap w) e.(data) -> Store.valid (heap w) e.(iv) ->
  Store.valid (heap w) e.(authTag) -> Store.valid (heap w) key ->
  byteLength key = 32%nat -> byteLength e.(data) <> 0%nat ->
  byteLength e.(iv) = 12%nat -> byteLength e.(authTag) = 16%nat ->
  let k := Store.content (heap w) key in
  let n := Store.content (heap w) e.(iv) in
  let c := Store.content (heap w) e.(data) in
  let t := Store.content (heap w) e.(authTag) in
  exists r w',
    Service.decrypt P service e key w = (r, w') /\
    grows w w' /\
    (t = P.(GTAG) k n c ->
       exists a, r = Normal (Some a) /\ fresh w w' a (P.(GCTR) k n c)) /\
    (t <> P.(GTAG) k n c -> r = Normal None).
Proof.
  intros P [|] e key w Vd Vi Vt Vk Nk Nd Ni Nt k n c t; cbn [Service.decrypt].
  - pose proof (decrypt_node_spec P e key w Vd Vi Vt Vk Nk Nd Ni Nt) as H.
    cbv zeta in H. now apply post_elim in H.
  - pose proof (decrypt_web_spec P e key w Vd Vi Vt Vk Nk Nd Ni Nt) as H.
    cbv zeta in H. now apply post_elim in H.
Qed.

(** What was sealed under the bytes [k] is opened by any array that holds
    [k], in any later world, by either backend. *)
Lemma sealed_opens_later : forall P, Standard P ->
  forall service w w1 w2 plaintext k e key,
    sealed P w w1 plaintext k e -> grows w1 w2 ->
    plaintext <> [] -> length k = 32%nat ->
    Store.valid (heap w2) key -> Store.content (heap w2) key = k ->
    exists r w3, Service.decrypt P service e key w2 = (Normal (Some r), w3) /\
                 fresh w2 w3 r plaintext.
Proof.
  intros P std service w w1 w2 plaintext k e key
    [G Ci Cs Cd Ct (Vd & Vi & Vs & Vt) (Ld & Li & Ls & Lt) _ _] G2 Np Lk Vk Ck.
  pose proof (content_grows _ _ _ G2 Vd) as Cd2.
  pose proof (content_grows _ _ _ G2 Vi) as Ci2.
  pose proof (content_grows _ _ _ G2 Vt) as Ct2.
  apply (valid_grows _ _ _ G2) in Vd, Vi, Vt.
  assert (Nk : byteLength key = 32%nat)
    by now rewrite <- (content_length _ _ Vk), Ck.
  assert (Nd : byteLength (data e) <> 0%nat).
  { rewrite Ld. destruct plaintext; [congruence | discriminate]. }
  destruct (decrypt_spec P service e key w2 Vd Vi Vt Vk Nk Nd Li Lt)
    as (r & w3 & E & _ & Y & _).
  rewrite Ck, Ci2, Cd2, Ct2, Ci, Cd, Ct in Y.
  destruct (Y eq_refl) as (a & -> & F).
  rewrite (GCTR_involutive P std) in F by exact Lk.
  now exists a, w3.
Qed.

(** ** [encrypt]: validation, agreement of the backends, failures *)

(** X1: [encrypt] refuses empty data with validation/EMPTY_DATA and, for
    non-empty data, a key that has not 32 bytes with
    validation/INVALID_KEY_LENGTH; the data is looked at first.  The error
    leaves [encrypt] as it was created and the world is untouched: no
    randomness was drawn, nothing was allocated or asked of the host.  Both
    backends. *)
Theorem encrypt_validation : forall P service plain key w,
  let outcome := Service.encrypt P service plain key w in
  (byteLength plain = 0%nat ->
     outcome = (Abrupt (JsError (createCryptoError validation "EMPTY_DATA"
                                   "Data cannot be empty")), w)) /\
  (byteLength plain <> 0%nat -> byteLength key <> 32%nat ->
     outcome = (Abrupt (JsError (createCryptoError validation "INVALID_KEY_LENGTH"
                                   "Key must be 32 bytes for AES-256")), w)).
Proof.
  intros P service plain key w outcome. subst outcome. split.
  - intros H. destruct service; cbn [Service.encrypt];
      unfold NodeCryptoService.encrypt, WebCryptoService.encrypt, try_catch;
      now rewrite H.
  - intros Hd Hk. apply Nat.eqb_neq in Hd, Hk.
    destruct service; cbn [Service.encrypt];
      unfold NodeCryptoService.encrypt, WebCryptoService.encrypt, try_catch;
      now rewrite Hd, Hk.
Qed.

Lemma encrypt_validation_witness :
  Service.encrypt Example.primitives NodeCryptoService_instance Example.empty
    Example.short_key Example.world
  = (Abrupt (JsError (createCryptoError validation "EMPTY_DATA"
                        "Data cannot be empty")), Example.world) /\
  Service.encrypt Example.primitives WebCryptoService_instance Example.message
    Example.short_key Example.world
  = (Abrupt (JsError (createCryptoError validation "INVALID_KEY_LENGTH"
                        "Key must be 32 bytes for AES-256")), Example.world).
Proof.
  destruct (encrypt_validation Example.primitives NodeCryptoService_instance
              Example.empty Example.short_key Example.world) as (no_data & _).
  destruct (encrypt_validation Example.primitives WebCryptoService_instance
              Example.message Example.short_key Example.world) as (_ & bad_key).
  split.
  - apply no_data. reflexivity.
  - apply bad_key; vm_compute; discriminate.
Defined.

Lemma app_split : forall A (a b c d : list A),
  length a = length c -> a ++ b = c ++ d -> a = c /\ b = d.
Proof.
  induction a as [|x a IH]; intros b [|y c] d L E; try discriminate.
  - now split.
  - cbn in L, E. injection E as -> E. injection L as L.
    destruct (IH b c d L E) as [-> ->]. now split.
Qed.

Lemma csprng_app : forall w from n m,
  csprng w from (n + m) = csprng w from n ++ csprng w (from + n) m.
Proof. intros w from n m. unfold csprng. now rewrite seq_app, map_app. Qed.

(** X2: what [encrypt] seals depends on the bytes of the data and of the
    key and on the next 44 bytes of the CSPRNG, and on nothing else: two
    calls -- by the same backend or not, in whatever state of the store --
    on data and keys of the same bytes, with the same 44 bytes to come,
    return records whose four fields hold the same bytes.  The ciphertext is
    the counter-mode image of the plaintext under the key and the drawn
    nonce and has the plaintext's length; the tag is the GCM tag of that
    ciphertext. *)
Theorem encrypt_depends_on_bytes_and_randomness : forall P, Standard P ->
  forall service1 service2 plain1 key1 w1 plain2 key2 w2,
    Store.valid (heap w1) plain1 -> Store.valid (heap w1) key1 ->
    Store.valid (heap w2) plain2 -> Store.valid (heap w2) key2 ->
    byteLength plain1 <> 0%nat -> byteLength key1 = 32%nat ->
    Store.content (heap w1) plain1 = Store.content (heap w2) plain2 ->
    Store.content (heap w1) key1 = Store.content (heap w2) key2 ->
    csprng w1 (drawn w1) 44 = csprng w2 (drawn w2) 44 ->
    exists e1 w1' e2 w2',
      Service.encrypt P service1 plain1 key1 w1 = (Normal e1, w1') /\
      Service.encrypt P service2 plain2 key2 w2 = (Normal e2, w2') /\
      same_record w1' e1 w2' e2 /\
      byteLength e1.(data) = byteLength plain1 /\
      Store.content (heap w1') e1.(data)
        = P.(GCTR) (Store.content (heap w1) key1) (Store.content (heap w1') e1.(iv))
            (Store.content (heap w1) plain1) /\
      Store.content (heap w1') e1.(authTag)
        = P.(GTAG) (Store.content (heap w1) key1) (Store.content (heap w1') e1.(iv))
            (Store.content (heap w1') e1.(data)).
Proof.
  intros P std service1 service2 plain1 key1 w1 plain2 key2 w2
    Vp1 Vk1 Vp2 Vk2 Np Nk Cp Ck R.
  assert (Np2 : byteLength plain2 <> 0%nat)
    by now rewrite <- (content_length _ _ Vp2), <- Cp, (content_length _ _ Vp1).
  assert (Nk2 : byteLength key2 = 32%nat)
    by now rewrite <- (content_length _ _ Vk2), <- Ck, (content_length _ _ Vk1).
  change 44%nat with (12 + 32)%nat in R. rewrite !csprng_app in R.
  apply app_split in R as [Ri Rs]; [| now rewrite !csprng_length].
  destruct (encrypt_spec P std service1 plain1 key1 w1 Vp1 Vk1 Np Nk)
    as (e1 & w1' & E1 & [_ Ci1 Cs1 Cd1 Ct1 _ (Ld1 & _) _ _]).
  destruct (encrypt_spec P std service2 plain2 key2 w2 Vp2 Vk2 Np2 Nk2)
    as (e2 & w2' & E2 & [_ Ci2 Cs2 Cd2 Ct2 _ _ _ _]).
  exists e1, w1', e2, w2'.
  split; [exact E1 |]. split; [exact E2 |].
  split; [| split; [| split]].
  - unfold same_record. rewrite Cd1, Ci1, Cs1, Ct1, Cd2, Ci2, Cs2, Ct2.
    rewrite Cp, Ck, Ri, Rs. repeat split.
  - now rewrite Ld1, (content_length _ _ Vp1).
  - now rewrite Ci1.
  - now rewrite Ci1, Cd1.
Qed.

Lemma encrypt_depends_on_bytes_and_randomness_witness :
  exists e1 w1 e2 w2,
    Service.encrypt Example.primitives NodeCryptoService_instance Example.message
      Example.key Example.world = (Normal e1, w1) /\
    Service.encrypt Example.primitives WebCryptoService_instance Example.message
      Example.key Example.world = (Normal e2, w2) /\
    same_record w1 e1 w2 e2 /\
    byteLength e1.(data) = byteLength Example.message /\
    Store.content (heap w1) e1.(data)
      = GCTR Example.primitives (Store.content (heap Example.world) Example.key)
          (Store.content (heap w1) e1.(iv))
          (Store.content (heap Example.world) Example.message) /\
    Store.content (heap w1) e1.(authTag)
      = GTAG Example.primitives (Store.content (heap Example.world) Example.key)
          (Store.content (heap w1) e1.(iv)) (Store.content (heap w1) e1.(data)).
Proof.
  apply (encrypt_depends_on_bytes_and_randomness Example.primitives standard_example
           NodeCryptoService_instance WebCryptoService_instance
           Example.message Example.key Example.world
           Example.message Example.key Example.world);
    try reflexivity; vm_compute; lia.
Defined.

(** X3: a record sealed by one backend is opened by the other: for
    non-empty data and a key of 32 bytes, [decrypt] of either backend on
    what [encrypt] of either backend returned gives back the bytes of the
    data. *)
Theorem decrypt_encrypt_across_backends : forall P, Standard P ->
  forall sealer opener plain key w,
    Store.valid (heap w) plain -> Store.valid (heap w) key ->
    byteLength plain <> 0%nat -> byteLength key = 32%nat ->
    exists e w1 r w2,
      Service.encrypt P sealer plain key w = (Normal e, w1) /\
      Service.decrypt P opener e key w1 = (Normal (Some r), w2) /\
      Store.content (heap w2) r = Store.content (heap w) plain.
Proof.
  intros P std sealer opener plain key w Vp Vk Np Nk.
  destruct (encrypt_spec P std sealer plain key w Vp Vk Np Nk) as (e & w1 & E & S).
  pose proof (sealed_grows _ _ _ _ _ _ S) as G.
  pose proof (content_length _ _ Vk) as Lk. rewrite Nk in Lk.
  assert (N : Store.content (heap w) plain <> []).
  { intros H. apply (f_equal (@length byte)) in H.
    rewrite (content_length _ _ Vp) in H. contradiction. }
  destruct (sealed_opens_later P std opener w w1 w1 _ _ e key S (grows_refl w1) N Lk
              (valid_grows _ _ _ G Vk) (content_grows _ _ _ G Vk))
    as (r & w2 & D & F).
  exists e, w1, r, w2. split; [exact E |]. split; [exact D |].
  now destruct F as (_ & _ & _ & C & _).
Qed.

Lemma decrypt_encrypt_across_backends_witness :
  exists e w1 r w2,
    Service.encrypt Example.primitives NodeCryptoService_instance Example.message
      Example.key Example.world = (Normal e, w1) /\
    Service.decrypt Example.primitives WebCryptoService_instance e Example.key w1
      = (Normal (Some r), w2) /\
    Store.content (heap w2) r = [x41; x42; x43].
Proof.
  apply (decrypt_encrypt_across_backends Example.primitives standard_example
           NodeCryptoService_instance WebCryptoService_instance
           Example.message Example.key Example.world).
  - vm_compute; lia.
  - vm_compute; lia.
  - vm_compute; lia.
  - reflexivity.
Defined.

(** ** [decrypt]: what it returns, what it throws *)

(** X4: [decrypt] never returns data it did not authenticate: on a
    well-shaped record, a present result means that the record's tag is the
    GCM tag of its ciphertext under the key and nonce, and the result holds
    the counter-mode image of the ciphertext, in a buffer that backs no
    array that existed before the call.  Both backends. *)
Theorem decrypt_returns_authentic_only : forall P service e key w,
  Store.valid (heap w) e.(data) -> Store.valid (heap w) e.(iv) ->
  Store.valid (heap w) e.(authTag) -> Store.valid (heap w) key ->
  byteLength key = 32%nat -> byteLength e.(data) <> 0%nat ->
  byteLength e.(iv) = 12%nat -> byteLength e.(authTag) = 16%nat ->
  forall r w',
    Service.decrypt P service e key w = (Normal (Some r), w') ->
    Store.content (heap w) e.(authTag)
      = P.(GTAG) (Store.content (heap w) key) (Store.content (heap w) e.(iv))
          (Store.content (heap w) e.(data)) /\
    Store.content (heap w') r
      = P.(GCTR) (Store.content (heap w) key) (Store.content (heap w) e.(iv))
          (Store.content (heap w) e.(data)) /\
    unshared w r.
Proof.
  intros P service e key w Vd Vi Vt Vk Nk Nd Ni Nt r w' E.
  destruct (decrypt_spec P service e key w Vd Vi Vt Vk Nk Nd Ni Nt)
    as (r0 & w0 & E0 & _ & Y & N).
  rewrite E in E0. injection E0 as <- <-.
  destruct (list_eq_dec Byte.byte_eq_dec (Store.content (heap w) (authTag e))
              (P.(GTAG) (Store.content (heap w) key) (Store.content (heap w) (iv e))
                 (Store.content (heap w) (data e)))) as [T | T].
  - destruct (Y T) as (a & Ea & F). injection Ea as <-.
    destruct F as (_ & B & _ & C & _).
    split; [exact T |]. split; [exact C | now apply unshared_fresh].
  - specialize (N T). discriminate.
Qed.

Lemma vault_valid :
  Store.valid (heap Example.vault_world) (data Example.vault) /\
  Store.valid (heap Example.vault_world) (iv Example.vault) /\
  Store.valid (heap Example.vault_world) (authTag Example.vault) /\
  Store.valid (heap Example.vault_world) Example.key.
Proof. repeat split; vm_compute; lia. Qed.

Lemma decrypt_returns_authentic_only_witness :
  exists r w',
    Service.decrypt Example.primitives WebCryptoService_instance Example.vault
      Example.key Example.vault_world = (Normal (Some r), w') /\
    Store.content (heap Example.vault_world) (authTag Example.vault)
      = GTAG Example.primitives
          (Store.content (heap Example.vault_world) Example.key)
          (Store.content (heap Example.vault_world) (iv Example.vault))
          (Store.content (heap Example.vault_world) (data Example.vault)) /\
    Store.content (heap w') r
      = GCTR Example.primitives
          (Store.content (heap Example.vault_world) Example.key)
          (Store.content (heap Example.vault_world) (iv Example.vault))
          (Store.content (heap Example.vault_world) (data Example.vault)) /\
    unshared Example.vault_world r.
Proof.
  pose (outcome := Service.decrypt Example.primitives WebCryptoService_instance
                     Example.vault Example.key Example.vault_world).
  pose (r := match fst outcome with
             | Normal (Some r) => r
             | _ => Example.empty
             end).
  assert (E : Service.decrypt Example.primitives WebCryptoService_instance
                Example.vault Example.key Example.vault_world
              = (Normal (Some r), snd outcome)) by (vm_compute; reflexivity).
  exists r, (snd outcome). split; [exact E |].
  destruct vault_valid as (Vd & Vi & Vt & Vk).
  refine (decrypt_returns_authentic_only Example.primitives WebCryptoService_instance
            Example.vault Example.key Example.vault_world Vd Vi Vt Vk
            _ _ _ _ r (snd outcome) E).
  - reflexivity.
  - vm_compute; discriminate.
  - vm_compute; reflexivity.
  - vm_compute; reflexivity.
Defined.

(** X5: what [decrypt] answers depends on the bytes of the key, of the
    ciphertext, of the nonce and of the tag, and on nothing else: not on
    the backend, not on where the arrays lie in the store, not on the state
    of the CSPRNG or of the host.  Two calls on arrays that hold the same
    bytes end alike: with the same validation error, with [null] twice, or
    with plaintexts of the same bytes. *)
Theorem decrypt_depends_on_bytes_only :
  forall P service1 service2 e1 key1 w1 e2 key2 w2,
    Store.valid (heap w1) e1.(data) -> Store.valid (heap w1) e1.(iv) ->
    Store.valid (heap w1) e1.(authTag) -> Store.valid (heap w1) key1 ->
    Store.valid (heap w2) e2.(data) -> Store.valid (heap w2) e2.(iv) ->
    Store.valid (heap w2) e2.(authTag) -> Store.valid (heap w2) key2 ->
    Store.content (heap w1) e1.(data) = Store.content (heap w2) e2.(data) ->
    Store.content (heap w1) e1.(iv) = Store.content (heap w2) e2.(iv) ->
    Store.content (heap w1) e1.(authTag) = Store.content (heap w2) e2.(authTag) ->
    Store.content (heap w1) key1 = Store.content (heap w2) key2 ->
    same_opening (Service.decrypt P service1 e1 key1 w1)
                 (Service.decrypt P service2 e2 key2 w2).
Proof.
  intros P service1 service2 e1 key1 w1 e2 key2 w2
    Vd1 Vi1 Vt1 Vk1 Vd2 Vi2 Vt2 Vk2 Cd Ci Ct Ck.
  assert (Lk : byteLength key1 = byteLength key2)
    by now rewrite <- (content_length _ _ Vk1), <- (content_length _ _ Vk2), Ck.
  assert (Ld : byteLength (data e1) = byteLength (data e2))
    by now rewrite <- (content_length _ _ Vd1), <- (content_length _ _ Vd2), Cd.
  assert (Li : byteLength (iv e1) = byteLength (iv e2))
    by now rewrite <- (content_length _ _ Vi1), <- (content_length _ _ Vi2), Ci.
  assert (Lt : byteLength (authTag e1) = byteLength (authTag e2))
    by now rewrite <- (content_length _ _ Vt1), <- (content_length _ _ Vt2), Ct.
  destruct (Nat.eq_dec (byteLength key1) 32) as [Nk | Nk];
    [destruct (Nat.eq_dec (byteLength (data e1)) 0) as [Nd | Nd];
     [| destruct (Nat.eq_dec (byteLength (iv e1)) 12) as [Ni | Ni];
        [destruct (Nat.eq_dec (byteLength (authTag e1)) 16) as [Nt | Nt] |]] |].
  - unfold same_opening.
    destruct service1, service2; cbn [Service.decrypt];
      unfold NodeCryptoService.decrypt, WebCryptoService.decrypt, try_catch;
      now rewrite <- Lk, <- Ld, Nk, Nd.
  - pose proof (decrypt_spec P service1 e1 key1 w1 Vd1 Vi1 Vt1 Vk1 Nk Nd Ni Nt)
      as (r1 & w1' & E1 & _ & Y1 & N1).
    rewrite Lk in Nk. rewrite Ld in Nd. rewrite Li in Ni. rewrite Lt in Nt.
    pose proof (decrypt_spec P service2 e2 key2 w2 Vd2 Vi2 Vt2 Vk2 Nk Nd Ni Nt)
      as (r2 & w2' & E2 & _ & Y2 & N2).
    rewrite Cd, Ci, Ct, Ck in Y1, N1.
    unfold same_opening. rewrite E1, E2. cbn [fst snd].
    destruct (list_eq_dec Byte.byte_eq_dec (Store.content (heap w2) (authTag e2))
                (P.(GTAG) (Store.content (heap w2) key2)
                   (Store.content (heap w2) (iv e2))
                   (Store.content (heap w2) (data e2)))) as [T | T].
    + destruct (Y1 T) as (a & -> & (_ & _ & _ & C1 & _)).
      destruct (Y2 T) as (b & -> & (_ & _ & _ & C2 & _)). congruence.
    + now rewrite (N1 T), (N2 T).
  - apply Nat.eqb_neq in Nd, Nt. unfold same_opening.
    destruct service1, service2; cbn [Service.decrypt];
      unfold NodeCryptoService.decrypt, WebCryptoService.decrypt, try_catch,
        NodeCryptoService.DEFAULT_IV_LENGTH, WebCryptoService.DEFAULT_IV_LENGTH,
        NodeCryptoService.AUTH_TAG_LENGTH, WebCryptoService.AUTH_TAG_LENGTH;
      now rewrite <- Lk, <- Ld, <- Li, <- Lt, Nk, Nd, Ni, Nt.
  - apply Nat.eqb_neq in Nd, Ni. unfold same_opening.
    destruct service1, service2; cbn [Service.decrypt];
      unfold NodeCryptoService.decrypt, WebCryptoService.decrypt, try_catch,
        NodeCryptoService.DEFAULT_IV_LENGTH, WebCryptoService.DEFAULT_IV_LENGTH;
      now rewrite <- Lk, <- Ld, <- Li, Nk, Nd, Ni.
  - apply Nat.eqb_neq in Nk. unfold same_opening.
    destruct service1, service2; cbn [Service.decrypt];
      unfold NodeCryptoService.decrypt, WebCryptoService.decrypt, try_catch;
      now rewrite <- Lk, Nk.
Qed.

Lemma decrypt_depends_on_bytes_only_witness :
  same_opening
    (Service.decrypt Example.primitives NodeCryptoService_instance Example.vault
       Example.key Example.vault_world)
    (Service.decrypt Example.primitives WebCryptoService_instance Example.vault
       Example.key Example.vault_world) /\
  same_opening
    (Service.decrypt Example.primitives NodeCryptoService_instance Example.forged
       Example.key Example.world)
    (Service.decrypt Example.primitives WebCryptoService_instance Example.forged
       Example.key Example.vault_world).
Proof.
  destruct vault_valid as (Vd & Vi & Vt & Vk). split.
  - exact (decrypt_depends_on_bytes_only Example.primitives
             NodeCryptoService_instance WebCryptoService_instance
             Example.vault Example.key Example.vault_world
             Example.vault Example.key Example.vault_world
             Vd Vi Vt Vk Vd Vi Vt Vk eq_refl eq_refl eq_refl eq_refl).
  - apply (decrypt_depends_on_bytes_only Example.primitives
             NodeCryptoService_instance WebCryptoService_instance
             Example.forged Example.key Example.world
             Example.forged Example.key Example.vault_world);
      vm_compute; first [lia | reflexivity].
Defined.

Section Returns.
Context (P : Primitives).

(** Once the shape is right, whatever goes wrong is the host's, and the
    [catch] clause answers [null]. *)
Lemma decrypt_wellshaped_returns : forall service e key w,
  byteLength key = 32%nat -> byteLength e.(data) <> 0%nat ->
  byteLength e.(iv) = 12%nat -> byteLength e.(authTag) = 16%nat ->
  exists r w', Service.decrypt P service e key w = (Normal r, w').
Proof.
  intros service e key w Nk Nd Ni Nt. apply Nat.eqb_neq in Nd.
  assert (H : always same_randomness (fun _ => False)
                (Service.decrypt P service e key)).
  { destruct service; cbn [Service.decrypt];
      unfold NodeCryptoService.decrypt, WebCryptoService.decrypt,
        NodeCryptoService.DEFAULT_IV_LENGTH, WebCryptoService.DEFAULT_IV_LENGTH,
        NodeCryptoService.AUTH_TAG_LENGTH, WebCryptoService.AUTH_TAG_LENGTH;
      rewrite Nk, Nd, Ni, Nt; cbn [Nat.eqb negb];
      (apply (always_try same_randomness) with (ok' := host_failure);
       [side
       | unfold NodeCrypto.createDecipheriv, NodeCrypto.Buffer_from;
         walk_by ltac:(exact eq_refl) host_call
       | intros x Hx; unfold host_failure in Hx; rewrite Hx;
         apply always_ret; side]). }
  specialize (H w).
  destruct (Service.decrypt P service e key w) as [[r | x] w']; cbn [fst] in H.
  - now exists r, w'.
  - now destruct H.
Qed.

End Returns.

(** X6: [decrypt] throws nothing but its four validation errors.  Once the
    key has 32 bytes, the ciphertext is not empty, the nonce has 12 bytes
    and the tag 16, the call returns -- the plaintext or [null] -- whatever
    the arrays of the record and of the key hold and whatever the host's
    cipher computes: every error of the host ends as [null].  Conversely,
    every value that leaves [decrypt] by a throw is a validation error with
    one of the four codes.  Both backends. *)
Theorem decrypt_throws_only_validation : forall P service e key w,
  let outcome := Service.decrypt P service e key w in
  (byteLength key = 32%nat -> byteLength e.(data) <> 0%nat ->
   byteLength e.(iv) = 12%nat -> byteLength e.(authTag) = 16%nat ->
     exists r w', outcome = (Normal r, w')) /\
  (forall x w', outcome = (Abrupt x, w') ->
     exists c msg,
       In c ["INVALID_KEY_LENGTH"; "EMPTY_ENCRYPTED_DATA";
             "INVALID_IV_LENGTH"; "INVALID_AUTH_TAG_LENGTH"] /\
       x = JsError (createCryptoError validation c msg)).
Proof.
  intros P service e key w outcome. subst outcome. split.
  - apply decrypt_wellshaped_returns.
  - intros x w' E.
    assert (H : always grows
                  (validation_error ["INVALID_KEY_LENGTH"; "EMPTY_ENCRYPTED_DATA";
                                     "INVALID_IV_LENGTH"; "INVALID_AUTH_TAG_LENGTH"])
                  (Service.decrypt P service e key)).
    { destruct service; cbn [Service.decrypt].
      - apply decrypt_node_quiet; side.
      - apply decrypt_web_grows. }
    destruct (always_elim _ _ _ _ _ _ _ H E) as [_ V]. exact V.
Qed.

Lemma decrypt_throws_only_validation_witness :
  exists r w',
    Service.decrypt Example.primitives WebCryptoService_instance Example.forged
      Example.key Example.world = (Normal r, w').
Proof.
  destruct (decrypt_throws_only_validation Example.primitives
              WebCryptoService_instance Example.forged Example.key Example.world)
    as (returns & _).
  apply returns.
  - reflexivity.
  - vm_compute; discriminate.
  - reflexivity.
  - reflexivity.
Defined.

(** X7: whatever leaves [encrypt] by a throw is a [CryptoError] of one of
    five kinds: validation/EMPTY_DATA, validation/INVALID_KEY_LENGTH, the
    initialization/IV_GENERATION_FAILED and SALT_GENERATION_FAILED of the
    generators, which [encrypt] rethrows as they are, and
    encryption/ENCRYPTION_FAILED for every other failure.  The messages of
    the last three are sanitized ones: lower-cased, they contain none of
    "key", "password" and "secret".  Every input, both backends. *)
Theorem encrypt_failures : forall P service plain key w x w',
  Service.encrypt P service plain key w = (Abrupt x, w') ->
  exists cat c msg,
    x = JsError (createCryptoError cat c msg) /\
    ((cat = validation /\ In c ["EMPTY_DATA"; "INVALID_KEY_LENGTH"]) \/
     (In (cat, c) [(initialization, "IV_GENERATION_FAILED");
                   (initialization, "SALT_GENERATION_FAILED");
                   (encryption, "ENCRYPTION_FAILED")] /\
      ~ mentions_secret msg)).
Proof.
  intros P service plain key w x w' E.
  assert (H : always grows encrypt_throws (Service.encrypt P service plain key)).
  { destruct service; cbn [Service.encrypt].
    - apply encrypt_node_quiet.
    - apply encrypt_web_quiet. }
  destruct (always_elim _ _ _ _ _ _ _ H E)
    as [_ [[(c & msg & V & ->) | [(y & _ & ->) | (y & _ & ->)]] | (y & _ & ->)]];
    eexists; eexists; eexists; (split; [reflexivity |]).
  - left. now split.
  - right. split; [cbn [In]; tauto | apply sanitizeErrorMessage_safe].
  - right. split; [cbn [In]; tauto | apply sanitizeErrorMessage_safe].
  - right. split; [cbn [In]; tauto | apply sanitizeErrorMessage_safe].
Qed.

Lemma encrypt_failures_witness :
  exists cat c msg,
    JsError (createCryptoError validation "EMPTY_DATA" "Data cannot be empty")
    = JsError (createCryptoError cat c msg) /\
    ((cat = validation /\ In c ["EMPTY_DATA"; "INVALID_KEY_LENGTH"]) \/
     (In (cat, c) [(initialization, "IV_GENERATION_FAILED");
                   (initialization, "SALT_GENERATION_FAILED");
                   (encryption, "ENCRYPTION_FAILED")] /\
      ~ mentions_secret msg)).
Proof.
  apply (encrypt_failures Example.primitives NodeCryptoService_instance Example.empty
           Example.key Example.world _ Example.world).
  reflexivity.
Defined.

(** ** What no call does *)

(** X8: no call of either backend changes an array that exists when the
    call is made: whatever the arguments, and whether the call returns or
    throws, every array of the store is afterwards where it was and holds
    the bytes it held.  (The WebCrypto backend writes in place -- random
    bytes into a new array, the two parts of a record into a new array,
    zeros over the encoded password -- but only into buffers the call
    itself allocated.) *)
Theorem calls_leave_arrays_untouched : forall P service w,
  (forall length, untouched w (snd (Service.generateSalt service length w))) /\
  (forall length, untouched w (snd (Service.generateIV service length w))) /\
  (forall password salt params,
      untouched w (snd (Service.deriveKey P service password salt params w))) /\
  (forall plain key, untouched w (snd (Service.encrypt P service plain key w))) /\
  (forall e key, untouched w (snd (Service.decrypt P service e key w))).
Proof.
  intros P service w.
  assert (use : forall A ok (m : Js A), always grows ok m -> untouched w (snd (m w))).
  { intros A ok m H. apply grows_untouched. apply H. }
  destruct service; cbn [Service.generateSalt Service.generateIV Service.deriveKey
                         Service.encrypt Service.decrypt];
    (split; [| split; [| split; [| split]]]); intros.
  - eapply use. apply generateSalt_node_quiet.
  - eapply use. apply generateIV_node_quiet.
  - eapply use. apply deriveKey_node_quiet; side.
  - eapply use. apply encrypt_node_quiet.
  - eapply use. apply decrypt_node_quiet; side.
  - eapply use. apply generateSalt_web_quiet.
  - eapply use. apply generateIV_web_quiet.
  - eapply use. apply deriveKey_web_grows.
  - eapply use. apply encrypt_web_quiet.
  - eapply use. apply decrypt_web_grows.
Qed.

(** X9: [decrypt] and [deriveKey] draw no randomness: whatever the
    arguments and the outcome, the CSPRNG is afterwards where it was.  Both
    backends. *)
Theorem decrypt_and_deriveKey_draw_nothing : forall P service w,
  (forall e key, same_randomness w (snd (Service.decrypt P service e key w))) /\
  (forall password salt params,
      same_randomness w (snd (Service.deriveKey P service password salt params w))).
Proof.
  intros P service w.
  assert (use : forall A ok (m : Js A),
            always same_randomness ok m -> same_randomness w (snd (m w))).
  { intros A ok m H. apply H. }
  destruct service; cbn [Service.deriveKey Service.decrypt]; split; intros.
  - eapply use. apply decrypt_node_quiet; side.
  - eapply use. apply deriveKey_node_quiet; side.
  - eapply use. apply decrypt_web_quiet; side.
  - eapply use. apply deriveKey_web_quiet; side.
Qed.

(** ** Randomness *)

Section Draws.
Context (P : Primitives).

Lemma rethrow_or_wrap_keeps : forall A cat c (Q : World -> Prop) x w,
  Q w ->
  post (if isCryptoError x then throw x
        else @throw A (JsError (createCryptoError cat c (sanitizeErrorMessage x)))) w
    (fun _ w' => Q w').
Proof. intros A cat c Q x w H. destruct (isCryptoError x); exact H. Qed.

(** Past validation [encrypt] draws the nonce, then the salt, and nothing
    else, whether the host then succeeds or not. *)
Lemma encrypt_draws : forall service plain key w,
  byteLength plain <> 0%nat -> byteLength key = 32%nat ->
  let w' := snd (Service.encrypt P service plain key w) in
  entropy w' = entropy w /\ drawn w' = (drawn w + 44)%nat.
Proof.
  intros service plain key w Np Nk. cbv zeta. apply Nat.eqb_neq in Np.
  change (post (Service.encrypt P service plain key) w
            (fun _ w' => entropy w' = entropy w /\ drawn w' = (drawn w + 44)%nat)).
  destruct service; cbn [Service.encrypt];
    unfold NodeCryptoService.encrypt, WebCryptoService.encrypt;
    rewrite Np, Nk; cbn [Nat.eqb negb]; apply post_try.
  - destruct (generateIV_node_spec w) as (iv0 & w1 & E1 & _ & He1 & Hd1).
    apply (post_bind _ _ _ _ _ _ E1).
    destruct (generateSalt_node_spec w1) as (salt0 & w2 & E2 & _ & He2 & Hd2).
    apply (post_bind _ _ _ _ _ _ E2).
    eapply post_consequence.
    + apply (post_run _ same_randomness (fun _ => True) _ w2 w2);
        [exact same_randomness_trans | | apply same_randomness_refl].
      unfold NodeCrypto.createCipheriv, NodeCrypto.Buffer_from.
      walk_by ltac:(exact I) host_call.
    + intros [e | x] w' [[He Hd] _].
      * split; [congruence | lia].
      * apply rethrow_or_wrap_keeps. split; [congruence | lia].
  - destruct (generateIV_web_spec w) as (iv0 & w1 & E1 & _ & He1 & Hd1).
    apply (post_bind _ _ _ _ _ _ E1).
    destruct (generateSalt_web_spec w1) as (salt0 & w2 & E2 & _ & He2 & Hd2).
    apply (post_bind _ _ _ _ _ _ E2).
    eapply post_consequence.
    + apply (post_run _ same_randomness (fun _ => True) _ w2 w2);
        [exact same_randomness_trans | | apply same_randomness_refl].
      walk_by ltac:(exact I) host_call.
    + intros [e | x] w' [[He Hd] _].
      * split; [congruence | lia].
      * apply rethrow_or_wrap_keeps. split; [congruence | lia].
Qed.

End Draws.

(** X10: [encrypt] never hands out the same randomness twice: a call that
    succeeds moves the CSPRNG on by exactly 44 bytes (12 for the nonce, then
    32 for the salt), so that of two encryptions in a row -- by the same
    backend or not, of the same data or not -- the second takes its nonce
    and its salt from the 44 bytes that follow those of the first. *)
Theorem successive_encryptions : forall P, Standard P ->
  forall first second plain1 key1 plain2 key2 w,
    Store.valid (heap w) plain1 -> Store.valid (heap w) key1 ->
    Store.valid (heap w) plain2 -> Store.valid (heap w) key2 ->
    byteLength plain1 <> 0%nat -> byteLength key1 = 32%nat ->
    byteLength plain2 <> 0%nat -> byteLength key2 = 32%nat ->
    exists e1 w1 e2 w2,
      Service.encrypt P first plain1 key1 w = (Normal e1, w1) /\
      Service.encrypt P second plain2 key2 w1 = (Normal e2, w2) /\
      Store.content (heap w2) e1.(iv) = csprng w (drawn w) 12 /\
      Store.content (heap w2) e1.(salt) = csprng w (drawn w + 12) 32 /\
      Store.content (heap w2) e2.(iv) = csprng w (drawn w + 44) 12 /\
      Store.content (heap w2) e2.(salt) = csprng w (drawn w + 56) 32 /\
      drawn w1 = (drawn w + 44)%nat /\ drawn w2 = (drawn w + 88)%nat.
Proof.
  intros P std first second plain1 key1 plain2 key2 w V1 K1 V2 K2 N1 L1 N2 L2.
  destruct (encrypt_spec P std first plain1 key1 w V1 K1 N1 L1) as (e1 & w1 & E1 & S1).
  pose proof (encrypt_draws P first plain1 key1 w N1 L1) as D1.
  cbv zeta in D1. rewrite E1 in D1. cbn [snd] in D1. destruct D1 as [He1 Hd1].
  pose proof (sealed_grows _ _ _ _ _ _ S1) as G1.
  destruct (encrypt_spec P std second plain2 key2 w1
              (valid_grows _ _ _ G1 V2) (valid_grows _ _ _ G1 K2) N2 L2)
    as (e2 & w2 & E2 & S2).
  pose proof (encrypt_draws P second plain2 key2 w1 N2 L2) as D2.
  cbv zeta in D2. rewrite E2 in D2. cbn [snd] in D2. destruct D2 as [He2 Hd2].
  pose proof (sealed_grows _ _ _ _ _ _ S2) as G2.
  exists e1, w1, e2, w2.
  destruct S1 as [_ Ci1 Cs1 _ _ (_ & Vi1 & Vs1 & _) _ _ _].
  destruct S2 as [_ Ci2 Cs2 _ _ _ _ _ _].
  split; [exact E1 |]. split; [exact E2 |].
  rewrite (content_grows _ _ _ G2 Vi1), (content_grows _ _ _ G2 Vs1).
  unfold csprng in *. rewrite He1, Hd1 in Ci2, Cs2.
  split; [exact Ci1 |]. split; [exact Cs1 |]. split; [exact Ci2 |].
  split; [| split; [exact Hd1 | lia]].
  rewrite Cs2. do 2 f_equal. lia.
Qed.

Lemma successive_encryptions_witness :
  exists e1 w1 e2 w2,
    Service.encrypt Example.primitives NodeCryptoService_instance Example.message
      Example.key Example.world = (Normal e1, w1) /\
    Service.encrypt Example.primitives WebCryptoService_instance Example.message
      Example.key w1 = (Normal e2, w2) /\
    Store.content (heap w2) e1.(iv) = csprng Example.world 0 12 /\
    Store.content (heap w2) e1.(salt) = csprng Example.world 12 32 /\
    Store.content (heap w2) e2.(iv) = csprng Example.world 44 12 /\
    Store.content (heap w2) e2.(salt) = csprng Example.world 56 32 /\
    drawn w1 = 44%nat /\ drawn w2 = 88%nat.
Proof.
  apply (successive_encryptions Example.primitives standard_example
           NodeCryptoService_instance WebCryptoService_instance
           Example.message Example.key Example.message Example.key Example.world);
    try reflexivity; vm_compute; lia.
Defined.

(** ** [generateSalt] and [generateIV] *)

Lemma fresh_delivered : forall w w' a n,
  fresh w w' a (csprng w (drawn w) n) ->
  entropy w' = entropy w -> drawn w' = (drawn w + n)%nat ->
  delivered w w' a n.
Proof.
  intros w w' a n (G & B & V & C & L) He Hd. rewrite csprng_length in L.
  unfold delivered.
  split; [exact L |]. split; [exact V |]. split; [exact C |].
  split; [now apply unshared_fresh |].
  split; [now apply grows_untouched |].
  split; assumption.
Qed.

Lemma generate_node_delivers : forall c n w,
  (0 <= n <= 2 ^ 31 - 1)%Z ->
  exists a w',
    try_catch
      (salt <- NodeCrypto.randomBytes n ;; TypedArray.new_of_array salt)
      (fun error =>
         let sanitizedMessage := sanitizeErrorMessage error in
         throw (JsError (createCryptoError initialization c sanitizedMessage))) w
    = (Normal a, w') /\
    delivered w w' a (Z.to_nat n).
Proof.
  intros c n w R.
  destruct (randomBytes_spec n w R) as (b & w1 & E1 & F1 & He1 & Hd1).
  destruct (new_of_array_spec b w1) as (a & w2 & E2 & F2 & He2 & Hd2).
  exists a, w2. split.
  - apply try_normal. now rewrite (bind_eq _ _ _ _ _ E1).
  - destruct F1 as (G1 & _ & _ & C1 & _). rewrite C1 in F2.
    apply fresh_delivered; [eapply fresh_weaken; eassumption | congruence | lia].
Qed.

Lemma generate_web_delivers : forall c n w,
  (0 <= n <= 65536)%Z ->
  exists a w',
    try_catch
      (salt <- TypedArray.new_of_length n ;;
       WebCrypto.getRandomValues salt ;;;
       ret salt)
      (fun error =>
         let sanitizedMessage := sanitizeErrorMessage error in
         throw (JsError (createCryptoError initialization c sanitizedMessage))) w
    = (Normal a, w') /\
    delivered w w' a (Z.to_nat n).
Proof.
  intros c n w R. apply step_try.
  destruct (new_of_length_spec n w) as (a & w1 & E1 & N1 & He1 & Hd1); [lia |].
  apply (step_normal _ _ _ _ _ _ E1).
  destruct (getRandomValues_spec w w1 a _ N1) as (w2 & E2 & N2 & He2 & Hd2);
    [rewrite repeat_length; lia |].
  apply (step_normal _ _ _ _ _ _ E2).
  exists a, w2. split; [reflexivity |].
  rewrite repeat_length in N2, Hd2.
  unfold csprng in N2. rewrite He1, Hd1 in N2.
  apply fresh_delivered; [apply (newest_fresh _ _ _ _ N2) | congruence | lia].
Qed.

Lemma generators_salt : forall service n w,
  (0 <= n <= 65536)%Z ->
  exists a w', Service.generateSalt service (Some n) w = (Normal a, w') /\
               delivered w w' a (Z.to_nat n).
Proof.
  intros [|] n w R; cbn [Service.generateSalt].
  - apply generate_node_delivers. lia.
  - now apply generate_web_delivers.
Qed.

(** X11: asked for [n] bytes, [0 <= n <= 65536], [generateSalt] and
    [generateIV] of either backend return a new array of exactly [n] bytes:
    the next [n] bytes of the host's CSPRNG, which moves on by [n], in a
    buffer that backs no other array.  Without an argument they are asked
    for 32 and for 12 bytes. *)
Theorem generators_deliver : forall service n w,
  (0 <= n <= 65536)%Z ->
  (exists a w', Service.generateSalt service (Some n) w = (Normal a, w') /\
                delivered w w' a (Z.to_nat n)) /\
  (exists a w', Service.generateIV service (Some n) w = (Normal a, w') /\
                delivered w w' a (Z.to_nat n)) /\
  Service.generateSalt service None w = Service.generateSalt service (Some 32%Z) w /\
  Service.generateIV service None w = Service.generateIV service (Some 12%Z) w.
Proof.
  intros service n w R.
  assert (R' : (0 <= n <= 2 ^ 31 - 1)%Z) by lia.
  destruct service; cbn [Service.generateSalt Service.generateIV];
    (split; [| split; [| split; reflexivity]]).
  - apply generate_node_delivers. exact R'.
  - apply generate_node_delivers. exact R'.
  - apply generate_web_delivers. exact R.
  - apply generate_web_delivers. exact R.
Qed.

Lemma generators_deliver_witness :
  (exists a w', Service.generateSalt WebCryptoService_instance (Some 16%Z)
                  Example.world = (Normal a, w') /\
                delivered Example.world w' a 16) /\
  (exists a w', Service.generateIV NodeCryptoService_instance (Some 0%Z)
                  Example.world = (Normal a, w') /\
                delivered Example.world w' a 0).
Proof.
  destruct (generators_deliver WebCryptoService_instance 16 Example.world)
    as (salt16 & _); [lia |].
  destruct (generators_deliver NodeCryptoService_instance 0 Example.world)
    as (_ & iv0 & _); [lia |].
  split; [exact salt16 | exact iv0].
Defined.

(** X12: asked for a negative number of bytes, [generateSalt] fails with
    initialization/SALT_GENERATION_FAILED and [generateIV] with
    initialization/IV_GENERATION_FAILED, around the sanitized message of the
    host's error; nothing was allocated and no randomness was drawn.  Both
    backends. *)
Theorem generators_refuse_negative : forall service n w,
  (n < 0)%Z ->
  (exists msg w',
      Service.generateSalt service (Some n) w
      = (Abrupt (JsError (createCryptoError initialization
                            "SALT_GENERATION_FAILED" msg)), w') /\
      ~ mentions_secret msg /\ heap w' = heap w /\ same_randomness w w') /\
  (exists msg w',
      Service.generateIV service (Some n) w
      = (Abrupt (JsError (createCryptoError initialization
                            "IV_GENERATION_FAILED" msg)), w') /\
      ~ mentions_secret msg /\ heap w' = heap w /\ same_randomness w w').
Proof.
  intros service n w H. apply Z.ltb_lt in H.
  destruct service; cbn [Service.generateSalt Service.generateIV];
    unfold NodeCryptoService.generateSalt, NodeCryptoService.generateIV,
      WebCryptoService.generateSalt, WebCryptoService.generateIV,
      try_catch, bind, NodeCrypto.randomBytes, TypedArray.new_of_length, host, throw;
    rewrite H; cbn [orb fst snd];
    (split; eexists; eexists;
     (split; [reflexivity
             | split; [apply sanitizeErrorMessage_safe
                      | split; [reflexivity | split; reflexivity]]])).
Qed.

Lemma generators_refuse_negative_witness :
  exists msg w',
    Service.generateSalt NodeCryptoService_instance (Some (-1)%Z) Example.world
    = (Abrupt (JsError (createCryptoError initialization
                          "SALT_GENERATION_FAILED" msg)), w') /\
    ~ mentions_secret msg /\ heap w' = heap Example.world /\
    same_randomness Example.world w'.
Proof.
  destruct (generators_refuse_negative NodeCryptoService_instance (-1) Example.world)
    as (salt & _); [lia | exact salt].
Defined.

(** X13: the backends differ above 65536 bytes: the native backend
    delivers any number of bytes up to [2^31 - 1], while the WebCrypto
    backend, whose host fills at most 65536 bytes per call, fails with
    SALT_GENERATION_FAILED (IV_GENERATION_FAILED) without having drawn any
    randomness. *)
Theorem generators_quota : forall n w,
  (65536 < n <= 2 ^ 31 - 1)%Z ->
  (exists a w', NodeCryptoService.generateSalt (Some n) w = (Normal a, w') /\
                delivered w w' a (Z.to_nat n)) /\
  (exists a w', NodeCryptoService.generateIV (Some n) w = (Normal a, w') /\
                delivered w w' a (Z.to_nat n)) /\
  (exists msg w',
      WebCryptoService.generateSalt (Some n) w
      = (Abrupt (JsError (createCryptoError initialization
                            "SALT_GENERATION_FAILED" msg)), w') /\
      same_randomness w w') /\
  (exists msg w',
      WebCryptoService.generateIV (Some n) w
      = (Abrupt (JsError (createCryptoError initialization
                            "IV_GENERATION_FAILED" msg)), w') /\
      same_randomness w w').
Proof.
  intros n w R.
  assert (R' : (0 <= n <= 2 ^ 31 - 1)%Z) by lia.
  assert (N : (n <? 0)%Z = false) by (apply Z.ltb_ge; lia).
  assert (Q : (65536 <? Z.of_nat (length (repeat x00 (Z.to_nat n))))%Z = true)
    by (apply Z.ltb_lt; rewrite repeat_length; lia).
  split; [| split; [| split]].
  - apply generate_node_delivers. exact R'.
  - apply generate_node_delivers. exact R'.
  - unfold WebCryptoService.generateSalt, try_catch, bind, TypedArray.new_of_length,
      WebCrypto.getRandomValues, bind, host, allocate, throw.
    rewrite N. cbn [fst snd byteLength]. rewrite Q.
    eexists. eexists. split; [reflexivity | split; reflexivity].
  - unfold WebCryptoService.generateIV, try_catch, bind, TypedArray.new_of_length,
      WebCrypto.getRandomValues, bind, host, allocate, throw.
    rewrite N. cbn [fst snd byteLength]. rewrite Q.
    eexists. eexists. split; [reflexivity | split; reflexivity].
Qed.

Lemma generators_quota_witness :
  (exists a w', NodeCryptoService.generateSalt (Some 65537%Z) Example.world
                = (Normal a, w') /\
                delivered Example.world w' a (Z.to_nat 65537)) /\
  (exists msg w',
      WebCryptoService.generateSalt (Some 65537%Z) Example.world
      = (Abrupt (JsError (createCryptoError initialization
                            "SALT_GENERATION_FAILED" msg)), w') /\
      same_randomness Example.world w').
Proof.
  destruct (generators_quota 65537 Example.world) as (node & _ & web & _); [lia |].
  split; [exact node | exact web].
Defined.

(** ** From a password to a vault and back *)

Lemma deriveKey_length_spec : forall P service password salt params w,
  String.length password <> 0%nat ->
  Store.valid (heap w) salt -> byteLength salt <> 0%nat ->
  importable P password ->
  (1 <= params.(iterations) <= 2 ^ 31 - 1)%Z ->
  (1 <= derived_length service params <= 2 ^ 31 - 1)%Z ->
  exists a w',
    Service.deriveKey P service password salt params w = (Normal a, w') /\
    fresh w w' a (P.(PBKDF2) (selected_hash params) (JsString.utf8 password)
                    (Store.content (heap w) salt)
                    params.(iterations) (derived_length service params)).
Proof.
  intros P [|] password salt params w Np Vs Ns A I K;
    cbn [Service.deriveKey derived_length] in *.
  - now apply deriveKey_node_spec.
  - apply deriveKey_web_spec; try assumption. lia.
Qed.

Lemma derived_length_supported : forall service params,
  supported params -> derived_length service params = params.(keyLength).
Proof.
  intros [|] params [_ K]; cbn [derived_length]; [reflexivity |].
  apply Z.mod_small. lia.
Qed.

Lemma deriveKey_spec : forall P service password salt params w,
  String.length password <> 0%nat ->
  Store.valid (heap w) salt -> byteLength salt <> 0%nat ->
  importable P password -> supported params ->
  exists a w',
    Service.deriveKey P service password salt params w = (Normal a, w') /\
    fresh w w' a (P.(PBKDF2) (selected_hash params) (JsString.utf8 password)
                    (Store.content (heap w) salt)
                    params.(iterations) params.(keyLength)).
Proof.
  intros P service password salt params w Np Vs Ns A S.
  pose proof (derived_length_supported service params S) as D.
  rewrite <- D. destruct S as [I K].
  apply deriveKey_length_spec; try assumption. rewrite D. lia.
Qed.

(** X14: the workflow of a password manager, on any mix of backends: the
    key derived from a password that the host imports and a salt, with 32
    bytes asked for and an iteration count of [1 .. 2^31 - 1], seals
    non-empty data; the key derived again from the same password and salt
    -- by the same backend or the other one -- opens the record, and what
    comes out holds the bytes of the data. *)
Theorem password_workflow : forall P, Standard P ->
  forall deriver sealer rederiver opener password salt params plain w,
    String.length password <> 0%nat ->
    Store.valid (heap w) salt -> byteLength salt <> 0%nat ->
    Store.valid (heap w) plain -> byteLength plain <> 0%nat ->
    importable P password ->
    (1 <= params.(iterations) <= 2 ^ 31 - 1)%Z -> params.(keyLength) = 32%Z ->
    exists k w1 e w2 k' w3 r w4,
      Service.deriveKey P deriver password salt params w = (Normal k, w1) /\
      Service.encrypt P sealer plain k w1 = (Normal e, w2) /\
      Service.deriveKey P rederiver password salt params w2 = (Normal k', w3) /\
      Service.decrypt P opener e k' w3 = (Normal (Some r), w4) /\
      Store.content (heap w4) r = Store.content (heap w) plain.
Proof.
  intros P std deriver sealer rederiver opener password salt params plain w
    Np Vs Ns Vp Nd A I K.
  assert (K1 : supported params) by (split; [exact I | rewrite K; lia]).
  assert (L : forall h s, length (P.(PBKDF2) h (JsString.utf8 password) s
                                    (iterations params) (keyLength params)) = 32%nat).
  { intros h s. rewrite (PBKDF2_length P std) by lia. now rewrite K. }
  destruct (deriveKey_spec P deriver password salt params w Np Vs Ns A K1)
    as (k & w1 & E1 & G1 & _ & Vk & Ck & Lk).
  rewrite L in Lk.
  pose proof (valid_grows _ _ _ G1 Vp) as Vp1.
  pose proof (content_grows _ _ _ G1 Vp) as Cp1.
  destruct (encrypt_spec P std sealer plain k w1 Vp1 Vk Nd Lk) as (e & w2 & E2 & S2).
  pose proof (sealed_grows _ _ _ _ _ _ S2) as G2.
  assert (G02 : grows w w2) by (eapply grows_trans; eassumption).
  destruct (deriveKey_spec P rederiver password salt params w2 Np
              (valid_grows _ _ _ G02 Vs) Ns A K1)
    as (k' & w3 & E3 & G3 & _ & Vk' & Ck' & _).
  rewrite (content_grows _ _ _ G02 Vs), <- Ck in Ck'.
  assert (N : Store.content (heap w1) plain <> []).
  { intros H. apply (f_equal (@length byte)) in H.
    rewrite (content_length _ _ Vp1) in H. contradiction. }
  assert (Lc : length (Store.content (heap w1) k) = 32%nat)
    by now rewrite (content_length _ _ Vk).
  destruct (sealed_opens_later P std opener w1 w2 w3 _ _ e k' S2 G3 N Lc Vk' Ck')
    as (r & w4 & E4 & F4).
  exists k, w1, e, w2, k', w3, r, w4. repeat split; try assumption.
  destruct F4 as (_ & _ & _ & C4 & _). now rewrite C4.
Qed.

Lemma password_workflow_witness :
  exists k w1 e w2 k' w3 r w4,
    Service.deriveKey Example.primitives NodeCryptoService_instance
      "master password" Example.kdf_salt DEFAULT_KEY_DERIVATION_PARAMS Example.world
    = (Normal k, w1) /\
    Service.encrypt Example.primitives NodeCryptoService_instance
      Example.message k w1 = (Normal e, w2) /\
    Service.deriveKey Example.primitives WebCryptoService_instance
      "master password" Example.kdf_salt DEFAULT_KEY_DERIVATION_PARAMS w2
    = (Normal k', w3) /\
    Service.decrypt Example.primitives WebCryptoService_instance e k' w3
    = (Normal (Some r), w4) /\
    Store.content (heap w4) r = Store.content (heap Example.world) Example.message.
Proof.
  apply (password_workflow Example.primitives standard_example
           NodeCryptoService_instance NodeCryptoService_instance
           WebCryptoService_instance WebCryptoService_instance
           "master password" Example.kdf_salt DEFAULT_KEY_DERIVATION_PARAMS
           Example.message Example.world).
  - discriminate.
  - vm_compute; lia.
  - discriminate.
  - vm_compute; lia.
  - discriminate.
  - reflexivity.
  - cbn; lia.
  - reflexivity.
Defined.

(** X15: a derived key has [keyLength] bytes in the native backend and
    [keyLength mod 2^29] bytes in the WebCrypto backend, where the count of
    bits goes through an unsigned 32-bit integer; and only 32 bytes fit:
    with any other number of them the key is refused by [encrypt] and by
    [decrypt] of either backend with validation/INVALID_KEY_LENGTH.  (The
    password is one the host imports, the iteration count one of
    [1 .. 2^31 - 1], and at least one byte comes out.) *)
Theorem derived_key_fits_only_32 : forall P, Standard P ->
  forall deriver user password salt params plain e w,
    String.length password <> 0%nat ->
    Store.valid (heap w) salt -> byteLength salt <> 0%nat ->
    importable P password ->
    (1 <= params.(iterations) <= 2 ^ 31 - 1)%Z ->
    (1 <= derived_length deriver params <= 2 ^ 31 - 1)%Z ->
    byteLength plain <> 0%nat ->
    exists k w1,
      Service.deriveKey P deriver password salt params w = (Normal k, w1) /\
      Z.of_nat (byteLength k) = derived_length deriver params /\
      (derived_length deriver params <> 32%Z ->
       Service.encrypt P user plain k w1
       = (Abrupt (JsError (createCryptoError validation "INVALID_KEY_LENGTH"
                             "Key must be 32 bytes for AES-256")), w1) /\
       Service.decrypt P user e k w1
       = (Abrupt (JsError (createCryptoError validation "INVALID_KEY_LENGTH"
                             "Key must be 32 bytes for AES-256")), w1)).
Proof.
  intros P std deriver user password salt params plain e w Np Vs Ns A I K Nd.
  destruct (deriveKey_length_spec P deriver password salt params w Np Vs Ns A I K)
    as (k & w1 & E1 & _ & _ & _ & _ & Lk).
  rewrite (PBKDF2_length P std) in Lk by lia.
  exists k, w1. split; [exact E1 |]. split; [lia |].
  intros K32.
  assert (Nk : (byteLength k =? 32)%nat = false) by (apply Nat.eqb_neq; lia).
  apply Nat.eqb_neq in Nd.
  destruct user; cbn [Service.encrypt Service.decrypt];
    unfold NodeCryptoService.encrypt, WebCryptoService.encrypt,
      NodeCryptoService.decrypt, WebCryptoService.decrypt, try_catch;
    rewrite Nd, Nk; split; reflexivity.
Qed.

Lemma derived_key_fits_only_32_witness :
  let wide := {| iterations := 1; keyLength := 2 ^ 29 + 20; algorithm := "pbkdf2";
                 hashFunction := "sha256" |} in
  exists k w1,
    Service.deriveKey Example.primitives WebCryptoService_instance "password"
      Example.kdf_salt wide Example.world = (Normal k, w1) /\
    Z.of_nat (byteLength k) = 20%Z /\
    Service.encrypt Example.primitives NodeCryptoService_instance
      Example.message k w1
    = (Abrupt (JsError (createCryptoError validation "INVALID_KEY_LENGTH"
                          "Key must be 32 bytes for AES-256")), w1) /\
    Service.decrypt Example.primitives NodeCryptoService_instance
      Example.forged k w1
    = (Abrupt (JsError (createCryptoError validation "INVALID_KEY_LENGTH"
                          "Key must be 32 bytes for AES-256")), w1).
Proof.
  intros wide.
  destruct (derived_key_fits_only_32 Example.primitives standard_example
              WebCryptoService_instance NodeCryptoService_instance
              "password" Example.kdf_salt wide Example.message
              Example.forged Example.world) as (k & w1 & E & L & refused).
  - discriminate.
  - vm_compute; lia.
  - discriminate.
  - reflexivity.
  - cbn; lia.
  - cbn; lia.
  - discriminate.
  - exists k, w1. split; [exact E |]. split; [exact L |].
    apply refused. cbn. discriminate.
Defined.

(** X16: what [generateSalt] returns, [deriveKey] accepts: a salt of [n]
    generated bytes, [1 <= n <= 65536], derives the PBKDF2 key of those
    bytes, on any mix of backends (for a password that the host imports, an
    iteration count of [1 .. 2^31 - 1] and a key length of
    [1 .. 2^29 - 1]).  Asked for zero bytes, [generateSalt] does not fail:
    it returns an empty array, which [deriveKey] then refuses with
    validation/EMPTY_SALT. *)
Theorem generated_salt_derives : forall P generator deriver password params w,
  String.length password <> 0%nat ->
  (forall n,
      (1 <= n <= 65536)%Z ->
      importable P password -> supported params ->
      exists salt w1 k w2,
        Service.generateSalt generator (Some n) w = (Normal salt, w1) /\
        Service.deriveKey P deriver password salt params w1 = (Normal k, w2) /\
        Store.content (heap w2) k
        = P.(PBKDF2) (selected_hash params) (JsString.utf8 password)
            (csprng w (drawn w) (Z.to_nat n))
            params.(iterations) params.(keyLength)) /\
  (exists salt w1,
      Service.generateSalt generator (Some 0%Z) w = (Normal salt, w1) /\
      byteLength salt = 0%nat /\
      Service.deriveKey P deriver password salt params w1
      = (Abrupt (JsError (createCryptoError validation "EMPTY_SALT"
                            "Salt cannot be empty")), w1)).
Proof.
  intros P generator deriver password params w Np. split.
  - intros n R A S.
    destruct (generators_salt generator n w)
      as (salt & w1 & E1 & Ls & Vs & Cs & _); [lia |].
    assert (Ns : byteLength salt <> 0%nat) by lia.
    destruct (deriveKey_spec P deriver password salt params w1 Np Vs Ns A S)
      as (k & w2 & E2 & _ & _ & _ & Ck & _).
    exists salt, w1, k, w2. split; [exact E1 |]. split; [exact E2 |].
    now rewrite Ck, Cs.
  - destruct (generators_salt generator 0 w) as (salt & w1 & E1 & Ls & _); [lia |].
    exists salt, w1. split; [exact E1 |]. split; [exact Ls |].
    apply Nat.eqb_neq in Np.
    destruct deriver; cbn [Service.deriveKey];
      unfold NodeCryptoService.deriveKey, WebCryptoService.deriveKey, try_catch;
      now rewrite Np, Ls.
Qed.

Lemma generated_salt_derives_witness :
  (exists salt w1 k w2,
      Service.generateSalt NodeCryptoService_instance (Some 16%Z) Example.world
      = (Normal salt, w1) /\
      Service.deriveKey Example.primitives WebCryptoService_instance "password"
        salt Example.params w1 = (Normal k, w2) /\
      Store.content (heap w2) k
      = PBKDF2 Example.primitives (selected_hash Example.params)
          (JsString.utf8 "password")
          (csprng Example.world (drawn Example.world) (Z.to_nat 16))
          (iterations Example.params) (keyLength Example.params)) /\
  (exists salt w1,
      Service.generateSalt NodeCryptoService_instance (Some 0%Z) Example.world
      = (Normal salt, w1) /\
      byteLength salt = 0%nat /\
      Service.deriveKey Example.primitives WebCryptoService_instance "password"
        salt Example.params w1
      = (Abrupt (JsError (createCryptoError validation "EMPTY_SALT"
                            "Salt cannot be empty")), w1)).
Proof.
  destruct (generated_salt_derives Example.primitives NodeCryptoService_instance
              WebCryptoService_instance "password" Example.params Example.world)
    as (derives & refused); [discriminate |].
  split; [| exact refused].
  apply (derives 16%Z); [lia | reflexivity | unfold supported; cbn; lia].
Defined.

(** ** The password in the store *)

(** X17: the WebCrypto backend wipes its copy of the password once the
    host has imported it: past validation, the buffer into which [deriveKey]
    encoded the password -- the first it allocated -- holds nothing but
    zeros when the call is over, whether the derivation then succeeded or
    failed.  When the host's [importKey] rejects, the wipe is not reached:
    the call fails with key_derivation/DERIVATION_FAILED, and that buffer,
    the only one the call allocated, still holds the password. *)
Theorem deriveKey_wipes_password : forall P password salt params w,
  String.length password <> 0%nat -> byteLength salt <> 0%nat ->
  let run := WebCryptoService.deriveKey P password salt params w in
  (importable P password ->
   exists later,
     heap (snd run) = heap w ++ repeat x00 (length (JsString.utf8 password)) :: later) /\
  (forall msg,
     P.(refuses) (JsString.utf8 password) = Some msg ->
     fst run = Abrupt (JsError (createCryptoError key_derivation "DERIVATION_FAILED"
                                  (sanitizeErrorMessage (JsError (Error msg))))) /\
     heap (snd run) = heap w ++ [JsString.utf8 password]).
Proof.
  intros P password salt params w Np Ns. cbv zeta. split.
  - intros A.
    destruct (deriveKey_web_wipes P password salt params w Np Ns A) as (w3 & H3 & H).
    destruct H as [[later G] _]. exists later.
    rewrite G, H3, <- app_assoc. reflexivity.
  - intros msg A.
    destruct (deriveKey_web_refused P password salt params w msg Np Ns A)
      as (w2 & H2 & _ & ->).
    split; [reflexivity | exact H2].
Qed.

Lemma deriveKey_wipes_password_witness :
  let run params := WebCryptoService.deriveKey Example.primitives "password"
                      Example.kdf_salt params Example.world in
  let refused := WebCryptoService.deriveKey Example.rejecting "password"
                   Example.kdf_salt DEFAULT_KEY_DERIVATION_PARAMS Example.world in
  let no_iterations := {| iterations := 0; keyLength := 32; algorithm := "pbkdf2";
                          hashFunction := "sha256" |} in
  (exists later,
      heap (snd (run DEFAULT_KEY_DERIVATION_PARAMS))
      = heap Example.world ++ repeat x00 (length (JsString.utf8 "password")) :: later) /\
  (exists later,
      heap (snd (run no_iterations))
      = heap Example.world ++ repeat x00 (length (JsString.utf8 "password")) :: later) /\
  fst refused
  = Abrupt (JsError (createCryptoError key_derivation "DERIVATION_FAILED"
                       (sanitizeErrorMessage (JsError (Error "WebCrypto error"))))) /\
  heap (snd refused) = heap Example.world ++ [JsString.utf8 "password"].
Proof.
  cbv zeta.
  split; [| split].
  - apply (deriveKey_wipes_password Example.primitives "password" Example.kdf_salt
             DEFAULT_KEY_DERIVATION_PARAMS Example.world);
      [discriminate | discriminate | reflexivity].
  - apply (deriveKey_wipes_password Example.primitives "password" Example.kdf_salt
             {| iterations := 0; keyLength := 32; algorithm := "pbkdf2";
                hashFunction := "sha256" |} Example.world);
      [discriminate | discriminate | reflexivity].
  - apply (deriveKey_wipes_password Example.rejecting "password" Example.kdf_salt
             DEFAULT_KEY_DERIVATION_PARAMS Example.world);
      [discriminate | discriminate | reflexivity].
Defined.

(** ** Parameters of the derivation *)

(** X18: of its parameters [deriveKey] reads the iteration count, the key
    length, and whether the hash is named "sha512" -- nothing else.  The
    [algorithm] field is ignored, and every hash name other than "sha512"
    ("sha384", "SHA512", the empty string) selects SHA-256, silently: two
    parameter records that agree on these three points get the same answer.
    Both backends. *)
Theorem deriveKey_reads_three_parameters :
  forall P service password salt params params' w,
    params.(iterations) = params'.(iterations) ->
    params.(keyLength) = params'.(keyLength) ->
    (params.(hashFunction) = "sha512" <-> params'.(hashFunction) = "sha512") ->
    Service.deriveKey P service password salt params w
    = Service.deriveKey P service password salt params' w.
Proof.
  intros P service password salt params params' w I K H.
  assert (E : (hashFunction params =? "sha512") = (hashFunction params' =? "sha512")).
  { destruct (String.eqb_spec (hashFunction params) "sha512") as [A | A];
      destruct (String.eqb_spec (hashFunction params') "sha512") as [B | B];
      try reflexivity; [now elim B; apply H | now elim A; apply H]. }
  destruct service; cbn [Service.deriveKey];
    unfold NodeCryptoService.deriveKey, WebCryptoService.deriveKey;
    now rewrite I, K, E.
Qed.

Lemma deriveKey_reads_three_parameters_witness :
  Service.deriveKey Example.primitives NodeCryptoService_instance "password"
    Example.kdf_salt
    {| iterations := 1; keyLength := 20; algorithm := "argon2id";
       hashFunction := "SHA512" |} Example.world
  = Service.deriveKey Example.primitives NodeCryptoService_instance "password"
      Example.kdf_salt Example.params Example.world.
Proof.
  apply deriveKey_reads_three_parameters; try reflexivity.
  split; discriminate.
Defined.

(** ** Sanitized messages *)

Lemma sanitizeErrorMessage_kept : forall e,
  ~ mentions_secret e.(message) -> sanitizeErrorMessage (JsError e) = e.(message).
Proof.
  intros e H. cbn.
  destruct (_ || _ || _) eqn:E; [| reflexivity].
  exfalso. apply H. now apply mentions_secret_decide.
Qed.

(** X19: what [sanitizeErrorMessage] returns never names a secret: lower-
    cased, it contains none of "key", "password" and "secret", whatever was
    thrown; and sanitizing is idempotent: an error that carries a sanitized
    message keeps it when it is sanitized again. *)
Theorem sanitizeErrorMessage_never_leaks : forall x,
  ~ mentions_secret (sanitizeErrorMessage x) /\
  sanitizeErrorMessage (JsError (Error (sanitizeErrorMessage x)))
  = sanitizeErrorMessage x.
Proof.
  intros x. split.
  - apply sanitizeErrorMessage_safe.
  - apply (sanitizeErrorMessage_kept (Error (sanitizeErrorMessage x))).
    apply sanitizeErrorMessage_safe.
Qed.

(** ** The factory's two methods *)

Lemma createForPerformance_inv : forall g level service,
  DefaultCryptoServiceFactory.createForPerformance g level = Normal service ->
  match service with
  | NodeCryptoService_instance =>
      DefaultCryptoServiceFactory.isNodeEnvironment g = true
  | WebCryptoService_instance =>
      DefaultCryptoServiceFactory.isWebCryptoAvailable g = Normal true
  end.
Proof.
  intros g level service.
  unfold DefaultCryptoServiceFactory.createForPerformance.
  destruct (level =? "high");
    [| destruct ((level =? "medium") || (level =? "low")); [| discriminate]];
    destruct (DefaultCryptoServiceFactory.isNodeEnvironment g) eqn:N;
    destruct (DefaultCryptoServiceFactory.isWebCryptoAvailable g) as [[|] | x] eqn:W;
    intros E; try discriminate; injection E as <-; reflexivity.
Qed.

(** X20: the two methods of the factory agree on what they return: a
    backend that [createForPerformance] returns is one that
    [createForEnvironment] returns in the same host when asked for it by
    name; and whenever [createForEnvironment] returns a backend for some
    environment, [createForPerformance] returns one for "high", and for
    "medium" and "low" as well unless the probe of [crypto] throws (a
    [crypto] that is [null], or whose accessor throws), which those two
    levels then throw in their turn. *)
Theorem factory_methods_consistent : forall g,
  (forall level,
      DefaultCryptoServiceFactory.createForPerformance g level
      = Normal NodeCryptoService_instance ->
      DefaultCryptoServiceFactory.createForEnvironment g "node"
      = Normal NodeCryptoService_instance) /\
  (forall level,
      DefaultCryptoServiceFactory.createForPerformance g level
      = Normal WebCryptoService_instance ->
      DefaultCryptoServiceFactory.createForEnvironment g "browser"
      = Normal WebCryptoService_instance /\
      DefaultCryptoServiceFactory.createForEnvironment g "worker"
      = Normal WebCryptoService_instance) /\
  (forall env service,
      DefaultCryptoServiceFactory.createForEnvironment g env = Normal service ->
      (exists service',
          DefaultCryptoServiceFactory.createForPerformance g "high"
          = Normal service') /\
      forall level, In level ["medium"; "low"] ->
        (exists service',
            DefaultCryptoServiceFactory.createForPerformance g level
            = Normal service') \/
        (exists e,
            DefaultCryptoServiceFactory.isWebCryptoAvailable g = Abrupt e /\
            DefaultCryptoServiceFactory.createForPerformance g level = Abrupt e)).
Proof.
  intros g. split; [| split].
  - intros level E. apply createForPerformance_inv in E.
    unfold DefaultCryptoServiceFactory.createForEnvironment. cbn. now rewrite E.
  - intros level E. apply createForPerformance_inv in E.
    unfold DefaultCryptoServiceFactory.createForEnvironment. cbn. now rewrite E.
  - intros env service E.
    assert (H : DefaultCryptoServiceFactory.isNodeEnvironment g = true \/
                DefaultCryptoServiceFactory.isWebCryptoAvailable g = Normal true).
    { unfold DefaultCryptoServiceFactory.createForEnvironment in E.
      destruct (env =? "node").
      - destruct (DefaultCryptoServiceFactory.isNodeEnvironment g);
          [now left | discriminate].
      - destruct ((env =? "browser") || (env =? "worker")); [| discriminate].
        destruct (DefaultCryptoServiceFactory.isWebCryptoAvailable g) as [[|] | x];
          [now right | discriminate | discriminate]. }
    split.
    + unfold DefaultCryptoServiceFactory.createForPerformance. cbn.
      destruct (DefaultCryptoServiceFactory.isNodeEnvironment g); [eauto |].
      destruct H as [H | H]; [discriminate |]. rewrite H. eauto.
    + intros level L.
      unfold DefaultCryptoServiceFactory.createForPerformance.
      destruct L as [<- | [<- | []]]; cbn;
        (destruct (DefaultCryptoServiceFactory.isWebCryptoAvailable g)
           as [[|] | x] eqn:W;
         [left; eauto
         | destruct H as [H | H]; [rewrite H; left; eauto | discriminate]
         | right; eauto]).
Qed.

Lemma factory_methods_consistent_witness :
  DefaultCryptoServiceFactory.createForEnvironment Example.worker_host "worker"
  = Normal WebCryptoService_instance /\
  (exists service,
      DefaultCryptoServiceFactory.createForPerformance Example.worker_host "high"
      = Normal service) /\
  ((exists service,
       DefaultCryptoServiceFactory.createForPerformance Example.null_crypto_node_host
         "medium" = Normal service) \/
   (exists e,
       DefaultCryptoServiceFactory.isWebCryptoAvailable Example.null_crypto_node_host
       = Abrupt e /\
       DefaultCryptoServiceFactory.createForPerformance Example.null_crypto_node_host
         "medium" = Abrupt e)).
Proof.
  destruct (factory_methods_consistent Example.worker_host) as (_ & web & any).
  destruct (factory_methods_consistent Example.null_crypto_node_host)
    as (_ & _ & under_node).
  split; [| split].
  - apply (web "low"). reflexivity.
  - apply (any "browser" WebCryptoService_instance). reflexivity.
  - apply (under_node "node" NodeCryptoService_instance); [reflexivity | cbn; tauto].
Defined.

(** X21: "medium" and "low" always give the same answer, and "high" gives
    the same answer as they do -- the same backend, or the same failure --
    except on a host that has the native runtime and whose [crypto] is
    either a WebCrypto or cannot be probed: there "high" returns the native
    backend, and the other two the WebCrypto backend, or what the probe
    throws. *)
Theorem performance_level_matters_only_with_both : forall g,
  let create := DefaultCryptoServiceFactory.createForPerformance g in
  create "medium" = create "low" /\
  (create "high" = create "medium" <->
   ~ NodeRuntimePresent g \/ (CryptoReadable g /\ ~ WebCryptoPresent g)) /\
  (NodeRuntimePresent g ->
   create "high" = Normal NodeCryptoService_instance /\
   (WebCryptoPresent g -> create "medium" = Normal WebCryptoService_instance) /\
   (forall e, DefaultCryptoServiceFactory.isWebCryptoAvailable g = Abrupt e ->
              create "medium" = Abrupt e)).
Proof.
  intros g create. subst create. split; [reflexivity |]. split.
  - rewrite <- isNodeEnvironment_spec, <- isWebCryptoAvailable_absent.
    unfold DefaultCryptoServiceFactory.createForPerformance. cbn.
    destruct (DefaultCryptoServiceFactory.isNodeEnvironment g);
      destruct (DefaultCryptoServiceFactory.isWebCryptoAvailable g) as [[|] | x];
      split; intros H; try reflexivity; try discriminate;
      try (right; reflexivity); try (left; discriminate);
      destruct H as [H | H]; try discriminate; now elim H.
  - intros N. apply isNodeEnvironment_spec in N.
    unfold DefaultCryptoServiceFactory.createForPerformance. cbn. rewrite N.
    split; [reflexivity |]. split.
    + intros W. apply isWebCryptoAvailable_spec in W. now rewrite W.
    + intros e W. now rewrite W.
Qed.

Lemma performance_level_matters_only_with_both_witness :
  DefaultCryptoServiceFactory.createForPerformance Example.worker_host "high"
  = DefaultCryptoServiceFactory.createForPerformance Example.worker_host "medium" /\
  DefaultCryptoServiceFactory.createForPerformance Example.node_host "high"
  <> DefaultCryptoServiceFactory.createForPerformance Example.node_host "medium" /\
  DefaultCryptoServiceFactory.createForPerformance Example.null_crypto_node_host "high"
  <> DefaultCryptoServiceFactory.createForPerformance Example.null_crypto_node_host
       "medium".
Proof.
  destruct (performance_level_matters_only_with_both Example.worker_host)
    as (_ & (_ & same) & _).
  destruct (performance_level_matters_only_with_both Example.node_host)
    as (_ & (differ & _) & _).
  destruct (performance_level_matters_only_with_both Example.null_crypto_node_host)
    as (_ & (null & _) & _).
  assert (node : forall c, NodeRuntimePresent
                             {| process := Declared Example.node_process;
                                crypto := c |}).
  { intros c. exists [("versions", VObject [("node", VString "22.0.0")])],
      [("node", VString "22.0.0")], "22.0.0". repeat split. }
  split; [| split].
  - apply same. left. intros (properties & versions & v & H & _). discriminate.
  - intros E. apply differ in E. destruct E as [E | [_ E]].
    + apply E. apply node.
    + apply E. eexists. repeat split; discriminate.
  - intros E. apply null in E. destruct E as [E | [[E _] _]].
    + apply E. apply node.
    + apply E. reflexivity.
Defined.

(** ** The derived key *)

(** X22: the key [deriveKey] returns is a new array of [keyLength] bytes:
    it lies in a buffer that the call allocated, which backs no array that
    existed before -- the salt in particular -- so that the caller may
    overwrite the key, or the salt, without touching the other.  Both
    backends, for a password that the host imports, an iteration count of
    [1 .. 2^31 - 1] and a key length of [1 .. 2^29 - 1]. *)
Theorem derived_key_is_new : forall P, Standard P ->
  forall service password salt params w,
    String.length password <> 0%nat ->
    Store.valid (heap w) salt -> byteLength salt <> 0%nat ->
    importable P password -> supported params ->
    exists k w',
      Service.deriveKey P service password salt params w = (Normal k, w') /\
      byteLength k = Z.to_nat params.(keyLength) /\
      Store.valid (heap w') k /\
      unshared w k /\
      ~ Store.shares_storage k salt.
Proof.
  intros P std service password salt params w Np Vs Ns A S.
  destruct (deriveKey_spec P service password salt params w Np Vs Ns A S)
    as (k & w' & E & _ & B & V & _ & L).
  destruct S as [I K].
  rewrite (PBKDF2_length P std) in L by lia.
  exists k, w'. split; [exact E |]. split; [exact L |]. split; [exact V |].
  pose proof (unshared_fresh w k B) as U. split; [exact U | now apply U].
Qed.

Lemma derived_key_is_new_witness :
  exists k w',
    Service.deriveKey Example.primitives WebCryptoService_instance "password"
      Example.kdf_salt DEFAULT_KEY_DERIVATION_PARAMS Example.world = (Normal k, w') /\
    byteLength k = Z.to_nat (keyLength DEFAULT_KEY_DERIVATION_PARAMS) /\
    Store.valid (heap w') k /\
    unshared Example.world k /\
    ~ Store.shares_storage k Example.kdf_salt.
Proof.
  apply (derived_key_is_new Example.primitives standard_example
           WebCryptoService_instance "password" Example.kdf_salt
           DEFAULT_KEY_DERIVATION_PARAMS Example.world).
  - discriminate.
  - vm_compute; lia.
  - discriminate.
  - reflexivity.
  - unfold supported; cbn; lia.
Defined.
